(** * ChatService: the streaming chat-completion client

    A shallow embedding of [ChatService] (request builder, retry loop,
    stream decoder, response finalizer and abort-controller registry) and the
    properties its specification states about it.

    Conventions of the embedding.
    - A JavaScript string is a [string]; its characters are the code units
      0..255.  A value that may be [undefined] or [null] is an [option].
    - A JavaScript object used as a bag of fields (the request body) is a
      [gmap string JsVal]; a field assigned [undefined] is a key bound to
      [VUndef], which [JSON.stringify] later leaves out.
    - Callbacks are recorded as a trace of [Event]s, in invocation order.
    - Platform services ([fetch], [JSON.parse], [Date.now], the abort signal)
      are inputs of the functions that use them. *)

From Stdlib Require Import ZArith Lia String Ascii List Bool.
From stdpp Require Import base option list gmap strings pretty.
Import ListNotations.

#[local] Set Warnings "-clear-no-such-hyp".

Local Open Scope string_scope.
Local Open Scope Z_scope.

(** ** JavaScript string operations *)

Module Js.

(** [str.startsWith(p)] *)
Fixpoint startsWith (p s : string) : bool :=
  match p with
  | EmptyString => true
  | String a p' =>
      match s with
      | EmptyString => false
      | String b s' => Ascii.eqb a b && startsWith p' s'
      end
  end.

Fixpoint drop (n : nat) (s : string) : string :=
  match n with
  | O => s
  | S n' => match s with EmptyString => EmptyString | String _ s' => drop n' s' end
  end.

(** The text before and the text after the first occurrence of [sep]. *)
Fixpoint breakOn (sep s : string) : option (string * string) :=
  if startsWith sep s then Some (EmptyString, drop (String.length sep) s)
  else match s with
       | EmptyString => None
       | String c s' =>
           match breakOn sep s' with
           | Some (a, b) => Some (String c a, b)
           | None => None
           end
       end.

(** [str.includes(sep)] *)
Definition includes (sep s : string) : bool :=
  match breakOn sep s with Some _ => true | None => false end.

Fixpoint split_aux (fuel : nat) (sep s : string) : list string :=
  match fuel with
  | O => [s]
  | S fuel' =>
      match breakOn sep s with
      | None => [s]
      | Some (a, b) => a :: split_aux fuel' sep b
      end
  end.

(** [str.split(sep)] for a non-empty separator: every piece between
    consecutive occurrences, scanning from the left.  A string of length
    [n] holds at most [n] occurrences, so [n] rounds are enough. *)
Definition split (sep s : string) : list string :=
  split_aux (String.length s) sep s.

(** [parts[i]], [undefined] out of range. *)
Definition at_ (parts : list string) (i : nat) : option string :=
  nth_error parts i.

(** Truthiness of a string-or-undefined value: defined and non-empty. *)
Definition truthy (o : option string) : bool :=
  match o with
  | Some EmptyString => false
  | Some _ => true
  | None => false
  end.

(** [o || ''] *)
Definition orEmpty (o : option string) : string :=
  match o with Some s => s | None => EmptyString end.

(** White space as [String.prototype.trim] sees it, among the code units
    below 256: TAB, LF, VT, FF, CR, SPACE and NBSP. *)
Definition isSpace (c : ascii) : bool :=
  let n := nat_of_ascii c in
  ((9 <=? n)%nat && (n <=? 13)%nat) || (n =? 32)%nat || (n =? 160)%nat.

Fixpoint trimStart (s : string) : string :=
  match s with
  | EmptyString => EmptyString
  | String c s' => if isSpace c then trimStart s' else s
  end.

Fixpoint trimEnd (s : string) : string :=
  match s with
  | EmptyString => EmptyString
  | String c s' =>
      match trimEnd s' with
      | EmptyString => if isSpace c then EmptyString else String c EmptyString
      | t => String c t
      end
  end.

(** [str.trim()] *)
Definition trim (s : string) : string := trimEnd (trimStart s).

Fixpoint rev_acc (s acc : string) : string :=
  match s with
  | EmptyString => acc
  | String c s' => rev_acc s' (String c acc)
  end.

Definition rev (s : string) : string := rev_acc s EmptyString.

(** [str.endsWith(p)] *)
Definition endsWith (p s : string) : bool := startsWith (rev p) (rev s).

(** [str.slice(0, -1)] *)
Fixpoint dropLast (s : string) : string :=
  match s with
  | EmptyString => EmptyString
  | String c EmptyString => EmptyString
  | String c s' => String c (dropLast s')
  end.

Definition isEmpty (s : string) : bool :=
  match s with EmptyString => true | _ => false end.

(** [strs.join(sep)] *)
Fixpoint join (sep : string) (l : list string) : string :=
  match l with
  | [] => EmptyString
  | [s] => s
  | s :: l' => s ++ sep ++ join sep l'
  end.

End Js.

(** ** Data model *)

(** An [Error] object: its [name] and [message]. *)
Record Error := mkError { err_name : string; err_message : string }.

(** [ChatMessageTimings]: every field may be missing. *)
Record Timings := mkTimings {
  prompt_n : option Z;
  prompt_ms : option Z;
  predicted_n : option Z;
  predicted_ms : option Z;
  cache_n : option Z
}.

Record Usage := mkUsage {
  prompt_tokens : option Z;
  completion_tokens : option Z;
  total_tokens : option Z
}.

Record PromptProgress := mkPromptProgress {
  pp_total : Z; pp_cache : Z; pp_processed : Z; pp_time_ms : Z
}.

(** The [function] part of a tool call, also the shape of a delta's. *)
Record ToolFn := mkToolFn {
  fn_name : option string;
  fn_arguments : option string
}.

(** [ApiChatCompletionToolCall] *)
Record ToolCall := mkToolCall {
  tc_id : option string;
  tc_type : option string;
  tc_function : option ToolFn
}.

(** [ApiChatCompletionToolCallDelta]; [d_index] is [None] when the field is
    not a number. *)
Record ToolCallDelta := mkDelta {
  d_index : option Z;
  d_id : option string;
  d_type : option string;
  d_function : option ToolFn
}.

(** The [delta] of a stream chunk and the [message] of a complete response
    carry the same fields. *)
Record ApiMessage := mkApiMessage {
  content : option string;
  reasoning : option string;
  reasoning_content : option string;
  tool_calls : option (list ToolCallDelta);
  msg_model : option string
}.

Record ApiChoice := mkApiChoice {
  delta : option ApiMessage;
  message : option ApiMessage;
  finish_reason : option string
}.

(** [ApiChatCompletionStreamChunk] and [ApiChatCompletionResponse]. *)
Record ApiResponse := mkApiResponse {
  object : option string;
  model : option string;
  choices : list ApiChoice;
  timings : option Timings;
  prompt_progress : option PromptProgress;
  usage : option Usage
}.

(** The callbacks of a request, and the live processing-state side channel,
    as the trace of their invocations.  [OnToolCallChunk] and [OnComplete]
    carry the tool-call array that the code hands to [JSON.stringify]. *)
Inductive Event :=
| OnChunk (chunk : string)
| OnReasoningChunk (chunk : string)
| OnToolCallChunk (calls : list ToolCall)
| OnModel (name : string)
| OnFirstValidChunk
| OnComplete (response : string) (reasoningContent : option string)
             (t : option Timings) (toolCalls : option (list ToolCall))
| OnError (e : Error)
| UpdateProcessingState (t : option Timings) (p : option PromptProgress).

(** The text handed to [onChunk], in order. *)
Fixpoint visibleText (evs : list Event) : string :=
  match evs with
  | [] => ""
  | OnChunk s :: evs' => s ++ visibleText evs'
  | _ :: evs' => visibleText evs'
  end.

(** The text handed to [onReasoningChunk], in order. *)
Fixpoint reasoningText (evs : list Event) : string :=
  match evs with
  | [] => ""
  | OnReasoningChunk s :: evs' => s ++ reasoningText evs'
  | _ :: evs' => reasoningText evs'
  end.

Definition isOnComplete (e : Event) : bool :=
  match e with OnComplete _ _ _ _ => true | _ => false end.

Definition isOnError (e : Event) : bool :=
  match e with OnError _ => true | _ => false end.

(** ** Merging tool-call deltas *)

Definition emptyCall : ToolCall := mkToolCall None None None.

(** [{ ...call, function: call.function ? { ...call.function } : undefined }] *)
Definition copyCall (call : ToolCall) : ToolCall :=
  mkToolCall (tc_id call) (tc_type call)
    (match tc_function call with
     | Some f => Some (mkToolFn (fn_name f) (fn_arguments f))
     | None => None
     end).

(** The body of the [for] loop of [mergeToolCallDeltas], on the entry
    [target = result[index]]. *)
Definition applyDelta (d : ToolCallDelta) (target : ToolCall) : ToolCall :=
  let id := if Js.truthy (d_id d) then d_id d else tc_id target in
  let type := if Js.truthy (d_type d) then d_type d else tc_type target in
  let function :=
    match d_function d with
    | Some df =>
        let fn := match tc_function target with
                  | Some f => f
                  | None => mkToolFn None None
                  end in
        let fn := if Js.truthy (fn_name df)
                  then mkToolFn (fn_name df) (fn_arguments fn) else fn in
        let fn := if Js.truthy (fn_arguments df)
                  then mkToolFn (fn_name fn)
                         (Some (Js.orEmpty (fn_arguments fn) ++ Js.orEmpty (fn_arguments df)))
                  else fn in
        Some fn
    | None => tc_function target
    end in
  mkToolCall id type function.

(** The slot a delta is merged into. *)
Definition deltaIndex (indexOffset : nat) (result : list ToolCall) (d : ToolCallDelta) : nat :=
  match d_index d with
  | Some i => if 0 <=? i then (Z.to_nat i + indexOffset)%nat else length result
  | None => length result
  end.

(** One round of the loop: pad [result] with empty calls up to [index], then
    update [result[index]]. *)
Definition mergeDelta (indexOffset : nat) (result : list ToolCall) (d : ToolCallDelta)
  : list ToolCall :=
  let index := deltaIndex indexOffset result d in
  let result := (result ++ replicate (S index - length result) emptyCall)%list in
  alter (applyDelta d) index result.

Definition mergeToolCallDeltas (existing : list ToolCall) (deltas : list ToolCallDelta)
    (indexOffset : nat) : list ToolCall :=
  fold_left (mergeDelta indexOffset) deltas (map copyCall existing).

Definition dquote : string := String "034"%char EmptyString.

(** The two fragments of the specification's example. *)
Definition delta_f_open : ToolCallDelta :=
  mkDelta (Some 0) None None
    (Some (mkToolFn (Some "f") (Some ("{" ++ dquote ++ "x" ++ dquote ++ ":")))).

Definition delta_f_close : ToolCallDelta :=
  mkDelta (Some 0) None None (Some (mkToolFn None (Some "1}"))).

(** ** The stream decoder: [handleStreamResponse] *)

(** The local variables of [handleStreamResponse], the line buffer [chunk]
    and the callback trace so far. *)
Record StreamState := MkSt {
  aggregatedContent : string;
  fullReasoningContent : string;
  aggregatedToolCalls : list ToolCall;
  lastTimings : option Timings;
  streamFinished : bool;
  modelEmitted : bool;
  firstValidChunkEmitted : bool;
  toolCallIndexOffset : nat;
  hasOpenToolCallBatch : bool;
  thinkBuffer : string;
  insideThinkTag : bool;
  firstTokenTime : option Z;
  usageData : option Usage;
  chunk : string;
  events : list Event
}.

Definition initialState : StreamState :=
  MkSt "" "" [] None false false false 0 false "" false None None "" [].

Definition set_aggregatedContent v '(MkSt a b c d e f g h i j k l m n o) := MkSt v b c d e f g h i j k l m n o.
Definition set_fullReasoningContent v '(MkSt a b c d e f g h i j k l m n o) := MkSt a v c d e f g h i j k l m n o.
Definition set_aggregatedToolCalls v '(MkSt a b c d e f g h i j k l m n o) := MkSt a b v d e f g h i j k l m n o.
Definition set_lastTimings v '(MkSt a b c d e f g h i j k l m n o) := MkSt a b c v e f g h i j k l m n o.
Definition set_streamFinished v '(MkSt a b c d e f g h i j k l m n o) := MkSt a b c d v f g h i j k l m n o.
Definition set_modelEmitted v '(MkSt a b c d e f g h i j k l m n o) := MkSt a b c d e v g h i j k l m n o.
Definition set_firstValidChunkEmitted v '(MkSt a b c d e f g h i j k l m n o) := MkSt a b c d e f v h i j k l m n o.
Definition set_toolCallIndexOffset v '(MkSt a b c d e f g h i j k l m n o) := MkSt a b c d e f g v i j k l m n o.
Definition set_hasOpenToolCallBatch v '(MkSt a b c d e f g h i j k l m n o) := MkSt a b c d e f g h v j k l m n o.
Definition set_thinkBuffer v '(MkSt a b c d e f g h i j k l m n o) := MkSt a b c d e f g h i v k l m n o.
Definition set_insideThinkTag v '(MkSt a b c d e f g h i j k l m n o) := MkSt a b c d e f g h i j v l m n o.
Definition set_firstTokenTime v '(MkSt a b c d e f g h i j k l m n o) := MkSt a b c d e f g h i j k v m n o.
Definition set_usageData v '(MkSt a b c d e f g h i j k l m n o) := MkSt a b c d e f g h i j k l v n o.
Definition set_chunk v '(MkSt a b c d e f g h i j k l m n o) := MkSt a b c d e f g h i j k l m v o.

(** Invoke a callback. *)
Definition emit (e : Event) '(MkSt a b c d e' f g h i j k l m n o) :=
  MkSt a b c d e' f g h i j k l m n (o ++ [e])%list.

(** [a || b] on strings that may be undefined. *)
Definition orElse (a b : option string) : option string :=
  if Js.truthy a then a else b.

(** Truthiness of a number that may be undefined. *)
Definition truthyNum (o : option Z) : bool :=
  match o with Some n => negb (n =? 0) | None => false end.

Definition isSome {A} (o : option A) : bool :=
  match o with Some _ => true | None => false end.

(** [getTrimmedString] of [extractModelName]. *)
Definition getTrimmedString (value : option string) : option string :=
  match value with
  | Some v => if Js.isEmpty (Js.trim v) then None else Some (Js.trim v)
  | None => None
  end.

(** [extractModelName]: the top-level field, then the first choice's
    [delta.model], then its [message.model]. *)
Definition extractModelName (data : ApiResponse) : option string :=
  match getTrimmedString (model data) with
  | Some rootModel => Some rootModel
  | None =>
      match head (choices data) with
      | None => None
      | Some firstChoice =>
          match getTrimmedString (delta firstChoice ≫= msg_model) with
          | Some deltaModel => Some deltaModel
          | None => getTrimmedString (message firstChoice ≫= msg_model)
          end
      end
  end.

Definition finalizeOpenToolCallBatch (st : StreamState) : StreamState :=
  if negb (hasOpenToolCallBatch st) then st
  else set_hasOpenToolCallBatch false
         (set_toolCallIndexOffset (length (aggregatedToolCalls st)) st).

Definition processToolCallDelta (aborted : bool) (toolCalls : option (list ToolCallDelta))
    (st : StreamState) : StreamState :=
  match toolCalls with
  | None | Some [] => st
  | Some deltas =>
      let st := set_aggregatedToolCalls
                  (mergeToolCallDeltas (aggregatedToolCalls st) deltas (toolCallIndexOffset st)) st in
      if (length (aggregatedToolCalls st) =? 0)%nat then st
      else
        let st := set_hasOpenToolCallBatch true st in
        if negb aborted then emit (OnToolCallChunk (aggregatedToolCalls st)) st else st
  end.

(** The [if (content)] block: the think-tag scanner. *)
Definition processContent (aborted : bool) (content : string) (st : StreamState) : StreamState :=
  let st := finalizeOpenToolCallBatch st in
  let st := set_thinkBuffer (thinkBuffer st ++ content) st in
  (* the opening tag *)
  let st :=
    if Js.includes "<think>" (thinkBuffer st) && negb (insideThinkTag st) then
      let st := set_insideThinkTag true st in
      let parts := Js.split "<think>" (thinkBuffer st) in
      let st :=
        if Js.truthy (Js.at_ parts 0) && negb aborted then
          let st := emit (OnChunk (Js.orEmpty (Js.at_ parts 0))) st in
          set_aggregatedContent (aggregatedContent st ++ Js.orEmpty (Js.at_ parts 0)) st
        else st in
      set_thinkBuffer (Js.orEmpty (Js.at_ parts 1)) st
    else st in
  (* the closing tag *)
  if insideThinkTag st && Js.includes "</think>" (thinkBuffer st) then
    let parts := Js.split "</think>" (thinkBuffer st) in
    let thinkContent := Js.at_ parts 0 in
    let st :=
      if Js.truthy thinkContent && negb aborted then
        let st := emit (OnReasoningChunk (Js.orEmpty thinkContent)) st in
        set_fullReasoningContent (fullReasoningContent st ++ Js.orEmpty thinkContent) st
      else st in
    let processedContent := Js.orEmpty (Js.at_ parts 1) in
    let st := set_thinkBuffer "" st in
    let st := set_insideThinkTag false st in
    if negb (Js.isEmpty processedContent) && negb aborted then
      let st := emit (OnChunk processedContent) st in
      set_aggregatedContent (aggregatedContent st ++ processedContent) st
    else st
  else if insideThinkTag st then st
  else
    let st := set_aggregatedContent (aggregatedContent st ++ content) st in
    if negb aborted then emit (OnChunk content) st else st.

(** The treatment of one parsed chunk (the [try] block of a [data: ] line). *)
Definition processChunk (aborted : bool) (now : Z) (parsed : ApiResponse)
    (st : StreamState) : StreamState :=
  let st :=
    if negb (firstValidChunkEmitted st)
       && bool_decide (object parsed = Some "chat.completion.chunk") then
      let st := set_firstValidChunkEmitted true st in
      if negb aborted then emit OnFirstValidChunk st else st
    else st in
  let choice0 := head (choices parsed) in
  let delta0 : option ApiMessage := choice0 ≫= delta in
  let content : option string := delta0 ≫= content in
  let reasoningContent := orElse (delta0 ≫= reasoning) (delta0 ≫= reasoning_content) in
  let toolCalls : option (list ToolCallDelta) := delta0 ≫= tool_calls in
  let finishReason : option string := choice0 ≫= finish_reason in
  let st :=
    match extractModelName parsed with
    | Some chunkModel =>
        if negb (modelEmitted st)
        then emit (OnModel chunkModel) (set_modelEmitted true st) else st
    | None => st
    end in
  let st :=
    if (Js.truthy content || Js.truthy reasoningContent) && negb (truthyNum (firstTokenTime st))
    then set_firstTokenTime (Some now) st else st in
  let st :=
    if isSome (usage parsed) && Js.truthy finishReason
    then set_usageData (usage parsed) st else st in
  let st :=
    if isSome (timings parsed) || isSome (prompt_progress parsed) then
      let st := emit (UpdateProcessingState (timings parsed) (prompt_progress parsed)) st in
      if isSome (timings parsed) then set_lastTimings (timings parsed) st else st
    else st in
  let st := if Js.truthy content then processContent aborted (Js.orEmpty content) st else st in
  let st :=
    if Js.truthy reasoningContent then
      let st := finalizeOpenToolCallBatch st in
      let st := set_fullReasoningContent
                  (fullReasoningContent st ++ Js.orEmpty reasoningContent) st in
      if negb aborted then emit (OnReasoningChunk (Js.orEmpty reasoningContent)) st else st
    else st in
  processToolCallDelta aborted toolCalls st.

(** What [await reader.read()] delivers: a decoded piece of the body, the end
    of the body, or a failure of the transport. *)
Inductive ReadResult :=
| ReadValue (text : string)
| ReadDone
| ReadThrows (e : Error).

(** One resolution of [reader.read()], with the state of the abort signal and
    the clock at the moment the decoder resumes.  The decoder runs without
    interruption between two reads, so the signal keeps that value until the
    next read. *)
Record Read := mkRead {
  result : ReadResult;
  abortedAfter : bool;
  now : Z
}.

(** How an asynchronous call ends: its promise resolves, rejects, or (when the
    body never delivers another read) stays pending. *)
Inductive Settled (A : Type) :=
| Resolved (v : A)
| Rejected (e : Error)
| Pending.
Arguments Resolved {A} v.
Arguments Rejected {A} e.
Arguments Pending {A}.

(** How the [while (true)] loop is left. *)
Inductive LoopExit :=
| Broke (aborted : bool)
| Threw (e : Error)
| Stalled.

(** [Math.floor(totalMs * 0.1)] and [Math.floor(totalMs * 0.9)] on a whole
    number of milliseconds, as the floor of the exact tenth and nine tenths. *)
Definition floorTenth (totalMs : Z) : Z := totalMs / 10.
Definition floorNineTenths (totalMs : Z) : Z := (9 * totalMs) / 10.

(** The timing snapshot built from usage counts in the streaming path. *)
Definition timingsFromUsage (u : Usage) (startTime endTime : Z) (firstToken : option Z)
  : Timings :=
  let totalMs := endTime - startTime in
  let promptMs := if truthyNum firstToken
                  then default 0 firstToken - startTime else floorTenth totalMs in
  let predictedMs := if truthyNum firstToken
                     then endTime - default 0 firstToken else floorNineTenths totalMs in
  mkTimings (prompt_tokens u) (Some promptMs) (completion_tokens u) (Some predictedMs) None.

(** The [if (streamFinished)] block. *)
Definition finalizeStream (startTime endTime : Z) (st : StreamState) : StreamState :=
  let st := finalizeOpenToolCallBatch st in
  let finalToolCalls :=
    if (0 <? length (aggregatedToolCalls st))%nat then Some (aggregatedToolCalls st) else None in
  let st :=
    match usageData st, lastTimings st with
    | Some u, None =>
        set_lastTimings (Some (timingsFromUsage u startTime endTime (firstTokenTime st))) st
    | _, _ => st
    end in
  emit (OnComplete (aggregatedContent st)
          (if Js.isEmpty (fullReasoningContent st) then None else Some (fullReasoningContent st))
          (lastTimings st) finalToolCalls) st.

Definition newline : string := String "010"%char EmptyString.

Section StreamDecoder.

(** [JSON.parse] on the payload of a [data: ] line; [None] when it throws. *)
Variable JSON_parse : string -> option ApiResponse.

(** The body of [for (const line of lines)]. *)
Definition processLine (aborted : bool) (now : Z) (line : string) (st : StreamState)
  : StreamState :=
  if Js.startsWith "data: " line then
    let data := Js.drop 6 line in
    if String.eqb data "[DONE]" then set_streamFinished true st
    else match JSON_parse data with
         | Some parsed => processChunk aborted now parsed st
         | None => st
         end
  else st.

Fixpoint forLines (aborted : bool) (now : Z) (lines : list string) (st : StreamState)
  : StreamState :=
  match lines with
  | [] => st
  | line :: rest =>
      if aborted then st
      else forLines aborted now rest (processLine aborted now line st)
  end.

(** [chunk += text; lines = chunk.split('\n'); chunk = lines.pop() || ''],
    then the [for] loop over the complete lines. *)
Definition processRead (aborted : bool) (now : Z) (text : string) (st : StreamState)
  : StreamState :=
  let lines := Js.split newline (chunk st ++ text) in
  let st := set_chunk (List.last lines "") st in
  forLines aborted now (removelast lines) st.

(** The [while (true)] loop; [aborted] is the abort signal as the loop head
    sees it. *)
Fixpoint readLoop (aborted : bool) (reads : list Read) (st : StreamState)
  : LoopExit * StreamState :=
  if aborted then (Broke true, st)
  else
    match reads with
    | [] => (Stalled, st)
    | r :: rest =>
        match result r with
        | ReadThrows e => (Threw e, st)
        | ReadDone => (Broke (abortedAfter r), st)
        | ReadValue text =>
            if abortedAfter r then (Broke true, st)
            else
              let st := processRead (abortedAfter r) (now r) text st in
              if abortedAfter r then (Broke true, st)
              else readLoop (abortedAfter r) rest st
        end
    end.

(** [handleStreamResponse].  [body] is [None] when the response has no
    body; [startTime] and [endTime] are the two other readings of the
    clock; [entryAborted] is the abort signal on entry. *)
Definition handleStreamResponse (body : option (list Read)) (entryAborted : bool)
    (startTime endTime : Z) : Settled unit * list Event :=
  match body with
  | None => (Rejected (mkError "Error" "No response body"), [])
  | Some reads =>
      match readLoop entryAborted reads initialState with
      | (Broke true, st) => (Resolved (), events st)
      | (Broke false, st) =>
          if streamFinished st
          then (Resolved (), events (finalizeStream startTime endTime st))
          else (Resolved (), events st)
      | (Threw e, st) => (Rejected e, (events st ++ [OnError e])%list)
      | (Stalled, st) => (Pending, events st)
      end
  end.

End StreamDecoder.

(** A chunk that carries only a visible-content delta. *)
Definition contentChunk (text : string) : ApiResponse :=
  mkApiResponse (Some "chat.completion.chunk") None
    [mkApiChoice (Some (mkApiMessage (Some text) None None None None)) None None]
    None None None.

(** The decoder state after the content deltas [deltas], one chunk each. *)
Definition decodeDeltas (deltas : list string) : StreamState :=
  fold_left (fun st d => processChunk false 0 (contentChunk d) st) deltas initialState.

(** ** The response finalizer of the non-streaming path *)

Fixpoint removeTags_aux (fuel : nat) (s : string) : string :=
  match fuel with
  | O => s
  | S fuel' =>
      if Js.startsWith "<think>" s then removeTags_aux fuel' (Js.drop 7 s)
      else if Js.startsWith "</think>" s then removeTags_aux fuel' (Js.drop 8 s)
      else match s with
           | EmptyString => EmptyString
           | String c s' => String c (removeTags_aux fuel' s')
           end
  end.

(** [match.replace(/<\/?think>/g, '')]: every round consumes a character. *)
Definition removeTags (s : string) : string := removeTags_aux (String.length s) s.

(** The matches of [/<think>([\s\S]*?)<\/think>/g] in [s], left to right,
    and [s] with the matches removed. *)
Fixpoint thinkScan (fuel : nat) (s : string) : list string * string :=
  match fuel with
  | O => ([], s)
  | S fuel' =>
      match Js.breakOn "<think>" s with
      | None => ([], s)
      | Some (before, rest) =>
          match Js.breakOn "</think>" rest with
          | None => ([], s)
          | Some (inner, after) =>
              let '(matches, cleaned) := thinkScan fuel' after in
              (("<think>" ++ inner ++ "</think>") :: matches, before ++ cleaned)
          end
      end
  end.

(** [parseThinkTags]: the content without its think spans, and the spans'
    text joined by a blank line ([None] when there is no span). *)
Definition parseThinkTags (content : string) : string * option string :=
  let '(matches, cleaned) := thinkScan (String.length content) content in
  match matches with
  | [] => (content, None)
  | _ =>
      let reasoning := Js.join (newline ++ newline) (map (fun m => Js.trim (removeTags m)) matches) in
      (Js.trim cleaned, Some reasoning)
  end.

Definition noResponseError : Error :=
  mkError "Error" "No response received from server. Please try again.".

(** The [SyntaxError] that [JSON.parse] throws. *)
Definition jsonSyntaxError : Error := mkError "SyntaxError" "Unexpected token in JSON".

(** The [TypeError] that reading a property of [undefined] or [null] throws;
    its message is the engine's. *)
Definition typeError (message : string) : Error := mkError "TypeError" message.

(** What [JSON.parse] makes of a complete response, as far as
    [handleNonStreamResponse] reads it.  [WithoutChoices] is a value whose
    [choices] is [undefined] or [null] (or that is [null] itself): reading
    [data.choices[0]] throws there a [TypeError] with the message
    [complaint]; [model] is its top-level [model] field when it is an object
    that has one.  [WithChoices] is a response with its array of choices. *)
Inductive ResponseBody :=
| WithoutChoices (model : option string) (complaint : string)
| WithChoices (data : ApiResponse).

(** The timing snapshot built from usage counts in the non-streaming path. *)
Definition timingsFromUsageTotal (u : Usage) (startTime endTime : Z) : Timings :=
  let totalMs := endTime - startTime in
  mkTimings (prompt_tokens u) (Some (floorTenth totalMs))
            (completion_tokens u) (Some (floorNineTenths totalMs)) None.

Section NonStream.

(** [JSON.parse] on the whole body; [None] when it throws. *)
Variable JSON_parse : string -> option ResponseBody.

(** The [try] block of [handleNonStreamResponse]: the callbacks invoked, and
    the value returned or the error thrown. *)
Definition nonStreamBody (responseText : string) (startTime : option Z) (endTime : Z)
  : list Event * (Error + string) :=
  if Js.isEmpty (Js.trim responseText) then ([], inl noResponseError)
  else
    match JSON_parse responseText with
    | None => ([], inl jsonSyntaxError)
    | Some (WithoutChoices model complaint) =>
        (* [extractModelName] finds no array of choices and reads [model]
           alone; then [data.choices[0]] throws *)
        let evs := match getTrimmedString model with
                   | Some responseModel => [OnModel responseModel]
                   | None => []
                   end in
        (evs, inl (typeError complaint))
    | Some (WithChoices data) =>
        let evs := match extractModelName data with
                   | Some responseModel => [OnModel responseModel]
                   | None => []
                   end in
        let message0 : option ApiMessage := head (choices data) ≫= message in
        let content : string :=
          Js.orEmpty (orElse (message0 ≫= content) (Some "")) in
        let reasoningContent : option string :=
          orElse (message0 ≫= reasoning) (message0 ≫= reasoning_content) in
        let toolCalls : option (list ToolCallDelta) := message0 ≫= tool_calls in
        let '(content, reasoningContent) :=
          if negb (Js.isEmpty content) && negb (Js.truthy reasoningContent) then
            let parsed := parseThinkTags content in
            (fst parsed, orElse (snd parsed) reasoningContent)
          else (content, reasoningContent) in
        let '(serializedToolCalls, evs) :=
          match toolCalls with
          | None | Some [] => (None, evs)
          | Some deltas =>
              let mergedToolCalls := mergeToolCallDeltas [] deltas 0 in
              if (0 <? length mergedToolCalls)%nat
              then (Some mergedToolCalls, (evs ++ [OnToolCallChunk mergedToolCalls])%list)
              else (None, evs)
          end in
        if Js.isEmpty (Js.trim content) && negb (isSome serializedToolCalls)
        then (evs, inl noResponseError)
        else
          let timings :=
            match usage data with
            | Some u =>
                if truthyNum startTime
                then Some (timingsFromUsageTotal u (default 0 startTime) endTime)
                else None
            | None => None
            end in
          ((evs ++ [OnComplete content reasoningContent timings serializedToolCalls])%list,
           inr content)
    end.

(** [handleNonStreamResponse]: the [catch] block reports the error through
    [onError] and throws it again. *)
Definition handleNonStreamResponse (responseText : string) (startTime : option Z)
    (endTime : Z) : Settled string * list Event :=
  match nonStreamBody responseText startTime endTime with
  | (evs, inr content) => (Resolved content, evs)
  | (evs, inl err) => (Rejected err, (evs ++ [OnError err])%list)
  end.

End NonStream.

(** ** The request builder *)

(** JavaScript values, as far as the request body holds them.  Numbers are
    carried as integers: the builder only compares [max_tokens] and
    [max_completion_tokens] with [0] and [-1] and passes every other number
    through. *)
#[warnings="-register-all"] Inductive JsVal :=
| VUndef
| VNull
| VBool (b : bool)
| VNum (n : Z)
| VStr (s : string)
| VArr (items : list JsVal)
| VObj (fields : list (string * JsVal)).

Definition isUndef (v : JsVal) : bool :=
  match v with VUndef => true | _ => false end.

(** [v === n] for a number [n]. *)
Definition isNum (n : Z) (v : JsVal) : bool :=
  match v with VNum m => m =? n | _ => false end.

(** [v === s] for a string [s]. *)
Definition isStr (s : string) (v : JsVal) : bool :=
  match v with VStr t => String.eqb t s | _ => false end.

(** Truthiness. *)
Definition truthyVal (v : JsVal) : bool :=
  match v with
  | VUndef | VNull => false
  | VBool b => b
  | VNum n => negb (n =? 0)
  | VStr s => negb (Js.isEmpty s)
  | VArr _ | VObj _ => true
  end.

(** [obj.key]: [undefined] when the key is missing. *)
Definition getField (obj : gmap string JsVal) (key : string) : JsVal :=
  default VUndef (obj !! key).

(** [Object.assign(target, source)] for a list of own properties. *)
Definition assign (target : gmap string JsVal) (source : list (string * JsVal))
  : gmap string JsVal :=
  fold_left (fun acc kv => <[kv.1 := kv.2]> acc) source target.

Fixpoint indexed {A} (i : nat) (l : list A) : list (string * A) :=
  match l with
  | [] => []
  | x :: l' => (pretty i, x) :: indexed (S i) l'
  end.

Fixpoint chars (s : string) : list JsVal :=
  match s with
  | EmptyString => []
  | String c s' => VStr (String c EmptyString) :: chars s'
  end.

(** The own enumerable properties [Object.assign] copies from a value. *)
Definition ownProperties (v : JsVal) : list (string * JsVal) :=
  match v with
  | VObj fields => fields
  | VArr items => indexed 0 items
  | VStr s => indexed 0 (chars s)
  | _ => []
  end.

(** [ApiChatMessageData] *)
Record ChatMessage := mkMessage {
  role : string;
  msg_content : JsVal
}.

(** The generation and sampling parameters of [SettingsChatServiceOptions];
    an unset parameter is [VUndef]. *)
Record Options := mkOptions {
  stream : JsVal;
  temperature : JsVal;
  max_tokens : JsVal;
  max_completion_tokens : JsVal;
  reasoning_effort : JsVal;
  max_context : JsVal;
  dynatemp_range : JsVal;
  dynatemp_exponent : JsVal;
  top_k : JsVal;
  top_p : JsVal;
  min_p : JsVal;
  xtc_probability : JsVal;
  xtc_threshold : JsVal;
  typ_p : JsVal;
  repeat_last_n : JsVal;
  repeat_penalty : JsVal;
  presence_penalty : JsVal;
  frequency_penalty : JsVal;
  dry_multiplier : JsVal;
  dry_base : JsVal;
  dry_allowed_length : JsVal;
  dry_penalty_last_n : JsVal;
  samplers : JsVal;
  custom : JsVal;
  timings_per_token : JsVal
}.

(** The settings the service reads, and the selected model name. *)
Record Config := mkConfig {
  apiKey : option string;
  apiBaseUrl : option string;
  systemMessage : option string;
  modelSelectorEnabled : bool;
  disableReasoningFormat : bool;
  selectedModelName : option string
}.

(** The [filter] of [normalizedMessages]: a system message is kept only when
    its content is a string with something besides white space. *)
Definition keepMessage (msg : ChatMessage) : bool :=
  if String.eqb (role msg) "system" then
    let content := match msg_content msg with VStr s => s | _ => "" end in
    negb (Js.isEmpty (Js.trim content))
  else true.

Definition injectSystemMessage (cfg : Config) (messages : list ChatMessage)
  : list ChatMessage :=
  let systemMessage := Js.trim (Js.orEmpty (systemMessage cfg)) in
  if Js.isEmpty systemMessage then messages
  else
    match messages with
    | first :: rest =>
        if String.eqb (role first) "system" then
          if negb (isStr systemMessage (msg_content first))
          then mkMessage "system" (VStr systemMessage) :: rest
          else messages
        else mkMessage "system" (VStr systemMessage) :: messages
    | [] => [mkMessage "system" (VStr systemMessage)]
    end.

Definition messageValue (msg : ChatMessage) : JsVal :=
  VObj [("role", VStr (role msg)); ("content", msg_content msg)].

(** [if (v !== undefined) requestBody.key = v] *)
Definition setIfDefined (key : string) (v : JsVal) (body : gmap string JsVal)
  : gmap string JsVal :=
  if isUndef v then body else <[key := v]> body.

Section RequestBuilder.

(** [JSON.parse] on the custom parameters; [None] when it throws. *)
Variable JSON_parseValue : string -> option JsVal.

(** The request body as [sendMessage] assembles it before it looks at the
    base URL. *)
Definition buildRequestBody (cfg : Config) (messages : list ChatMessage) (o : Options)
  : gmap string JsVal :=
  let processedMessages := injectSystemMessage cfg (List.filter keepMessage messages) in
  let body : gmap string JsVal :=
    <["stream" := stream o]> (<["messages" := VArr (map messageValue processedMessages)]> ∅) in
  let activeModel := if modelSelectorEnabled cfg then selectedModelName cfg else None in
  let body :=
    if modelSelectorEnabled cfg && Js.truthy activeModel
    then <["model" := VStr (Js.orEmpty activeModel)]> body else body in
  let body :=
    <["reasoning_format" := VStr (if disableReasoningFormat cfg then "none" else "auto")]> body in
  let body := setIfDefined "temperature" (temperature o) body in
  let body :=
    if negb (isUndef (max_tokens o)) then
      <["max_tokens" :=
          match max_tokens o with
          | VNull => VNum (-1)
          | v => if isNum 0 v then VNum (-1) else v
          end]> body
    else if negb (isUndef (max_completion_tokens o))
            && negb (match max_completion_tokens o with VNull => true | _ => false end)
            && negb (isNum 0 (max_completion_tokens o))
            && negb (isNum (-1) (max_completion_tokens o))
    then <["max_completion_tokens" := max_completion_tokens o]> body
    else body in
  let body :=
    if negb (isUndef (reasoning_effort o)) && negb (isStr "none" (reasoning_effort o))
    then <["reasoning_effort" := reasoning_effort o]> body else body in
  let body := setIfDefined "max_context" (max_context o) body in
  let body := setIfDefined "dynatemp_range" (dynatemp_range o) body in
  let body := setIfDefined "dynatemp_exponent" (dynatemp_exponent o) body in
  let body := setIfDefined "top_k" (top_k o) body in
  let body := setIfDefined "top_p" (top_p o) body in
  let body := setIfDefined "min_p" (min_p o) body in
  let body := setIfDefined "xtc_probability" (xtc_probability o) body in
  let body := setIfDefined "xtc_threshold" (xtc_threshold o) body in
  let body := setIfDefined "typ_p" (typ_p o) body in
  let body := setIfDefined "repeat_last_n" (repeat_last_n o) body in
  let body := setIfDefined "repeat_penalty" (repeat_penalty o) body in
  let body := setIfDefined "presence_penalty" (presence_penalty o) body in
  let body := setIfDefined "frequency_penalty" (frequency_penalty o) body in
  let body := setIfDefined "dry_multiplier" (dry_multiplier o) body in
  let body := setIfDefined "dry_base" (dry_base o) body in
  let body := setIfDefined "dry_allowed_length" (dry_allowed_length o) body in
  let body := setIfDefined "dry_penalty_last_n" (dry_penalty_last_n o) body in
  let body :=
    if negb (isUndef (samplers o)) then
      <["samplers" :=
          match samplers o with
          | VStr s =>
              VArr (map VStr (List.filter (fun p => negb (Js.isEmpty (Js.trim p))) (Js.split ";" s)))
          | v => v
          end]> body
    else body in
  let body := setIfDefined "timings_per_token" (timings_per_token o) body in
  if truthyVal (custom o) then
    match custom o with
    | VStr text =>
        match JSON_parseValue text with
        | Some customParams => assign body (ownProperties customParams)
        | None => body
        end
    | customParams => assign body (ownProperties customParams)
    end
  else body.

End RequestBuilder.

(** The base URL after [trim], the ['.'] default and the removal of one
    trailing slash. *)
Definition resolveBaseUrl (cfg : Config) : string :=
  let trimmed := Js.trim (Js.orEmpty (apiBaseUrl cfg)) in
  let apiBaseUrl := if Js.isEmpty trimmed then "." else trimmed in
  if negb (String.eqb apiBaseUrl ".") && Js.endsWith "/" apiBaseUrl
  then Js.dropLast apiBaseUrl else apiBaseUrl.

Definition isExternalApi (apiBaseUrl : string) : bool :=
  negb (String.eqb apiBaseUrl ".") && negb (Js.startsWith "/" apiBaseUrl)
  && (Js.startsWith "http://" apiBaseUrl || Js.startsWith "https://" apiBaseUrl).

Definition chatEndpoint (apiBaseUrl : string) : string :=
  if String.eqb apiBaseUrl "." then "./v1/chat/completions"
  else apiBaseUrl ++ "/chat/completions".

(** The fields an external provider is sent. *)
Definition standardFields : list string :=
  ["messages"; "model"; "stream"; "temperature"; "top_p"; "presence_penalty";
   "max_tokens"; "max_completion_tokens"; "reasoning_effort"; "stop"; "tools";
   "tool_choice"; "response_format"; "n"; "logit_bias"; "user"].

(** The [if (isExternalApi)] block: keep the standard fields that are
    defined, then drop a [max_tokens] of [-1]. *)
Definition filterExternal (body : gmap string JsVal) : gmap string JsVal :=
  let standardParams := map (fun key => (key, getField body key)) standardFields in
  let standardParams := List.filter (fun kv => negb (isUndef kv.2)) standardParams in
  let body := assign ∅ standardParams in
  if isNum (-1) (getField body "max_tokens") then delete "max_tokens" body else body.

(** The body handed to the first [fetch]. *)
Definition wireBody (JSON_parseValue : string -> option JsVal) (cfg : Config)
    (messages : list ChatMessage) (o : Options) : gmap string JsVal :=
  let body := buildRequestBody JSON_parseValue cfg messages o in
  if isExternalApi (resolveBaseUrl cfg) then filterExternal body else body.

(** ** The abort-controller registry *)

(** [this.abortControllers], with the [AbortController] objects it refers to.
    A controller is the number it was allocated under; [abortedSignals] holds
    the controllers whose signal is aborted.  A request keeps its controller
    after the entry is gone from the map. *)
Record Registry := mkRegistry {
  abortControllers : gmap string nat;
  abortedSignals : gset nat;
  nextController : nat
}.

Definition emptyRegistry : Registry := mkRegistry ∅ ∅ 0.

(** [signal.aborted] of controller [c]. *)
Definition signalAborted (c : nat) (r : Registry) : bool :=
  bool_decide (c ∈ abortedSignals r).

(** The request key of [sendMessage]: [conversationId || 'default']. *)
Definition requestKey (conversationId : option string) : string :=
  if Js.truthy conversationId then Js.orEmpty conversationId else "default".

(** The head of [sendMessage]: abort the request already tracked under the
    key, then track a new controller under it. *)
Definition registerRequest (requestId : string) (r : Registry) : Registry * nat :=
  let aborted :=
    match abortControllers r !! requestId with
    | Some previous => {[previous]} ∪ abortedSignals r
    | None => abortedSignals r
    end in
  let controller := nextController r in
  (mkRegistry (<[requestId := controller]> (abortControllers r)) aborted (S controller),
   controller).

(** The [finally] block of [sendMessage]. *)
Definition releaseRequest (requestId : string) (r : Registry) : Registry :=
  mkRegistry (delete requestId (abortControllers r)) (abortedSignals r) (nextController r).

(** [abort(conversationId?)] *)
Definition abort (conversationId : option string) (r : Registry) : Registry :=
  if Js.truthy conversationId then
    match abortControllers r !! Js.orEmpty conversationId with
    | Some abortController =>
        mkRegistry (delete (Js.orEmpty conversationId) (abortControllers r))
                   ({[abortController]} ∪ abortedSignals r) (nextController r)
    | None => r
    end
  else
    mkRegistry ∅ (map_img (abortControllers r) ∪ abortedSignals r) (nextController r).

(** ** The transport and the retry loop *)

Record HttpResponse := mkResponse {
  status : Z;
  statusText : string;
  bodyText : string;
  bodyReads : option (list Read)
}.

(** [response.ok] *)
Definition ok (resp : HttpResponse) : bool :=
  (200 <=? status resp) && (status resp <=? 299).

(** What [await fetch(...)] delivers. *)
Inductive FetchResult :=
| Fulfilled (resp : HttpResponse)
| Failed (e : Error).

(** The body of [if (response.status === 400)]: the two compatibility fixes
    and whether either applied. *)
Definition retryFixes (errorText : string) (body : gmap string JsVal)
  : gmap string JsVal * bool :=
  let '(body, retrying) :=
    if (Js.includes "Thinking is not enabled" errorText
        || Js.includes "reasoning_effort" errorText
        || Js.includes "INVALID_ARGUMENT" errorText)
       && truthyVal (getField body "reasoning_effort")
    then (delete "reasoning_effort" body, true)
    else (body, false) in
  if (Js.includes "max_tokens" errorText
      || Js.includes "max_completion_tokens" errorText
      || Js.includes ("unknown name " ++ dquote ++ "max_tokens" ++ dquote) errorText)
     && negb (isUndef (getField body "max_tokens"))
  then (delete "max_tokens" (<["max_completion_tokens" := getField body "max_tokens"]> body), true)
  else (body, retrying).

Definition maxAttempts : nat := 3.

(** What the retry loop leaves behind: the last response (or the error
    [fetch] threw), the request body as the loop left it, and the bodies
    sent, in order. *)
Record LoopResult := mkLoop {
  lr_response : Error + option HttpResponse;
  lr_body : gmap string JsVal;
  lr_sent : list (gmap string JsVal)
}.

Section Transport.

(** [fetch]: the answer to the [attempts]-th request of this call. *)
Variable fetch : nat -> gmap string JsVal -> FetchResult.

(** [while (attempts < maxAttempts)], with [remaining = maxAttempts - attempts]. *)
Fixpoint fetchLoop (remaining attempts : nat) (body : gmap string JsVal)
    (response : option HttpResponse) (sent : list (gmap string JsVal)) : LoopResult :=
  match remaining with
  | O => mkLoop (inr response) body sent
  | S remaining' =>
      let attempts := S attempts in
      let sent := (sent ++ [body])%list in
      match fetch attempts body with
      | Failed e => mkLoop (inl e) body sent
      | Fulfilled resp =>
          if ok resp then mkLoop (inr (Some resp)) body sent
          else if status resp =? 400 then
            let '(body', retrying) := retryFixes (bodyText resp) body in
            if retrying then fetchLoop remaining' attempts body' (Some resp) sent
            else mkLoop (inr (Some resp)) body' sent
          else mkLoop (inr (Some resp)) body sent
      end
  end.

End Transport.

(** [ApiErrorResponse]: [error.message] and [message]. *)
Record ApiErrorResponse := mkApiError {
  error_message : option string;
  top_message : option string
}.

(** [parseErrorResponse] *)
Definition parseErrorResponse (JSON_parseError : string -> option ApiErrorResponse)
    (resp : HttpResponse) : Error :=
  match JSON_parseError (bodyText resp) with
  | Some errorData =>
      let message :=
        Js.orEmpty
          (orElse (error_message errorData)
             (orElse (top_message errorData)
                (orElse (Some (bodyText resp)) (Some "Unknown server error")))) in
      mkError (if status resp =? 400 then "ServerError" else "HttpError") message
  | None =>
      mkError "HttpError"
        ("Server error (" ++ pretty (status resp) ++ "): " ++ statusText resp)
  end.

(** The error the [catch] block of [sendMessage] reports. *)
Definition userFriendlyError (error : Error) : Error :=
  if String.eqb (err_name error) "TypeError" && Js.includes "fetch" (err_message error) then
    mkError "NetworkError" "Unable to connect to server - please check if the server is running"
  else if Js.includes "ECONNREFUSED" (err_message error) then
    mkError "NetworkError" "Connection refused - server may be offline"
  else if Js.includes "ETIMEDOUT" (err_message error) then
    mkError "TimeoutError" "Request timed out - the server took too long to respond"
  else error.

(** ** [sendMessage] *)

(** Everything outside the service that one call of [sendMessage] meets: the
    four uses of [JSON.parse] (on the custom parameters, on the payload of a
    stream line, on a complete response and on the body of an error
    response), the server behind [fetch], the readings of
    [Date.now()], the abort signal as [handleStreamResponse] finds it on
    entry, and what other tasks ([abort], other calls of [sendMessage]) do to
    the registry while the call is suspended on the network, before its
    [finally] block runs. *)
Record Platform := mkPlatform {
  JSON_parseValue : string -> option JsVal;
  JSON_parse : string -> option ApiResponse;
  JSON_parseResponse : string -> option ResponseBody;
  JSON_parseError : string -> option ApiErrorResponse;
  fetch : nat -> gmap string JsVal -> FetchResult;
  requestStartTime : Z;
  streamStartTime : Z;
  endTime : Z;
  abortedOnEntry : bool;
  interference : Registry -> Registry
}.

(** How control leaves the [try] block. *)
Inductive TryExit :=
| TryReturn
| TryReturnPromise (p : Settled string)
| TryThrow (e : Error)
| TryPending.

(** The [try] block: the callbacks invoked, the bodies sent and the exit. *)
Definition tryBlock (P : Platform) (cfg : Config) (o : Options) (body : gmap string JsVal)
  : list Event * list (gmap string JsVal) * TryExit :=
  let apiBaseUrl := resolveBaseUrl cfg in
  let body := if isExternalApi apiBaseUrl then filterExternal body else body in
  let loop := fetchLoop (fetch P) maxAttempts 0 body None [] in
  match lr_response loop with
  | inl e => ([], lr_sent loop, TryThrow e)
  | inr response =>
      let resp := default (mkResponse 500 "" "" None) response in
      if negb (isSome response) || negb (ok resp) then
        let error := parseErrorResponse (JSON_parseError P) resp in
        ([OnError error], lr_sent loop, TryThrow error)
      else if truthyVal (stream o) then
        match handleStreamResponse (JSON_parse P) (bodyReads resp) (abortedOnEntry P)
                (streamStartTime P) (endTime P) with
        | (Resolved _, evs) => (evs, lr_sent loop, TryReturn)
        | (Rejected e, evs) => (evs, lr_sent loop, TryThrow e)
        | (Pending, evs) => (evs, lr_sent loop, TryPending)
        end
      else
        let '(p, evs) := handleNonStreamResponse (JSON_parseResponse P) (bodyText resp)
                           (Some (requestStartTime P)) (endTime P) in
        (evs, lr_sent loop, TryReturnPromise p)
  end.

Record SendResult := mkSend {
  settled : Settled (option string);
  callbacks : list Event;
  sent : list (gmap string JsVal);
  registry : Registry
}.

(** [sendMessage(messages, options, conversationId)] on the registry [r].
    The [catch] block turns an [AbortError] into a quiet return and reports
    every other error.  The streaming path awaits its handler inside [try].
    The non-streaming path returns the handler's promise without awaiting
    it: the [finally] block runs at that [return], and the promise settles
    past the [catch] block, so an error of the handler is reported once, by
    the handler.  [registry] is the registry as the [finally] block leaves
    it.  A call whose stream stalls never reaches [finally]. *)
Definition sendMessage (P : Platform) (cfg : Config) (messages : list ChatMessage)
    (o : Options) (conversationId : option string) (r : Registry) : SendResult :=
  let requestId := requestKey conversationId in
  let '(r, _) := registerRequest requestId r in
  let body := buildRequestBody (JSON_parseValue P) cfg messages o in
  let '(evs, sent, exit) := tryBlock P cfg o body in
  let r := interference P r in
  match exit with
  | TryPending => mkSend Pending evs sent r
  | TryReturn => mkSend (Resolved None) evs sent (releaseRequest requestId r)
  | TryReturnPromise p =>
      mkSend (match p with
              | Resolved v => Resolved (Some v)
              | Rejected e => Rejected e
              | Pending => Pending
              end) evs sent (releaseRequest requestId r)
  | TryThrow error =>
      if String.eqb (err_name error) "AbortError"
      then mkSend (Resolved None) evs sent (releaseRequest requestId r)
      else
        let userFriendly := userFriendlyError error in
        mkSend (Rejected userFriendly) (evs ++ [OnError userFriendly])%list sent
               (releaseRequest requestId r)
  end.

(** ** Stored messages: [convertMessageToChatServiceData] *)

(** [DatabaseMessageExtra]: the attachments of a stored message.  A PDF
    carries its page images when it was processed as images;
    [OtherExtra] stands for an attachment of any other type. *)
Inductive Extra :=
| ImageFile (base64Url : string)
| TextFile (name content : string)
| LegacyContext (name content : string)
| AudioFile (base64Data mimeType : string)
| PdfFile (name content : string) (processedAsImages : bool) (images : option (list string))
| OtherExtra.

(** [DatabaseMessage], as far as the conversion reads it. *)
Record DatabaseMessage := mkDbMessage {
  db_role : string;
  db_content : string;
  db_extra : option (list Extra)
}.

(** The content parts of the chat-completion API. *)
Definition textPart (text : string) : JsVal :=
  VObj [("type", VStr "text"); ("text", VStr text)].

Definition imagePart (url : string) : JsVal :=
  VObj [("type", VStr "image_url"); ("image_url", VObj [("url", VStr url)])].

Definition audioPart (data mimeType : string) : JsVal :=
  VObj [("type", VStr "input_audio");
        ("input_audio",
         VObj [("data", VStr data);
               ("format", VStr (if Js.includes "wav" mimeType then "wav" else "mp3"))])].

(** The text that stands for a file: a header line and the content. *)
Definition fileText (label name content : string) : string :=
  newline ++ newline ++ "--- " ++ label ++ ": " ++ name ++ " ---" ++ newline ++ content.

(** The five loops of the conversion, each over the attachments of one
    type. *)
Definition imageParts (e : Extra) : list JsVal :=
  match e with ImageFile url => [imagePart url] | _ => [] end.

Definition textFileParts (e : Extra) : list JsVal :=
  match e with TextFile name content => [textPart (fileText "File" name content)] | _ => [] end.

Definition legacyContextParts (e : Extra) : list JsVal :=
  match e with
  | LegacyContext name content => [textPart (fileText "File" name content)]
  | _ => []
  end.

Definition audioParts (e : Extra) : list JsVal :=
  match e with AudioFile data mimeType => [audioPart data mimeType] | _ => [] end.

Definition pdfParts (e : Extra) : list JsVal :=
  match e with
  | PdfFile name content processedAsImages images =>
      match (if processedAsImages then images else None) with
      | Some pages => map imagePart pages
      | None => [textPart (fileText "PDF File" name content)]
      end
  | _ => []
  end.

Definition convertMessageToChatServiceData (message : DatabaseMessage) : ChatMessage :=
  match db_extra message with
  | None | Some [] => mkMessage (db_role message) (VStr (db_content message))
  | Some extra =>
      let contentParts :=
        ((if Js.isEmpty (db_content message) then [] else [textPart (db_content message)])
         ++ flat_map imageParts extra
         ++ flat_map textFileParts extra
         ++ flat_map legacyContextParts extra
         ++ flat_map audioParts extra
         ++ flat_map pdfParts extra)%list in
      mkMessage (db_role message) (VArr contentParts)
  end.

(** What [sendMessage] is given: a message in API form, or a stored message
    (an object with [id], [convId] and [timestamp]), which it converts. *)
Inductive InputMessage :=
| ApiForm (msg : ChatMessage)
| Stored (message : DatabaseMessage).

Definition normalizeMessage (msg : InputMessage) : ChatMessage :=
  match msg with
  | ApiForm msg => msg
  | Stored message => convertMessageToChatServiceData message
  end.

(** ** The start-up check of the API key: [validateApiKey] *)

(** The base URL as [validateApiKey] reads it: trimmed, ['.'] when empty;
    the trailing slash stays. *)
Definition validationBaseUrl (cfg : Config) : string :=
  let trimmed := Js.trim (Js.orEmpty (apiBaseUrl cfg)) in
  if Js.isEmpty trimmed then "." else trimmed.

(** What [fetch('./props')] delivers to the check: a response, or an error,
    which may carry a [status] of its own. *)
Inductive PropsResult :=
| PropsResponse (resp : HttpResponse)
| PropsFailure (hasStatus : bool).

Inductive Validation :=
| NotChecked
| Accepted
| AccessDenied
| Rethrown.

(** [validateApiKey]: outside the browser and for an external server nothing
    is checked; a 401 or 403 of the local server is an access error; every
    other answer, and every failure without a [status], passes. *)
Definition validateApiKey (browser : bool) (cfg : Config) (props : PropsResult) : Validation :=
  if negb browser then NotChecked
  else if isExternalApi (validationBaseUrl cfg) then NotChecked
  else
    match props with
    | PropsResponse resp =>
        if negb (ok resp) then
          if (status resp =? 401) || (status resp =? 403) then AccessDenied else Accepted
        else Accepted
    | PropsFailure hasStatus => if hasStatus then Rethrown else Accepted
    end.

(** ** The messages behind a generated title: [handleGenerateTitle] *)


(** ** Parameters per model: [ModelParamsStore] *)

(** The parameters that are saved per model. *)
Definition MODEL_SPECIFIC_PARAMS : list string :=
  ["temperature"; "dynatemp_range"; "dynatemp_exponent"; "top_k"; "top_p"; "min_p";
   "xtc_probability"; "xtc_threshold"; "typ_p"; "repeat_last_n"; "repeat_penalty";
   "presence_penalty"; "frequency_penalty"; "dry_multiplier"; "dry_base";
   "dry_allowed_length"; "dry_penalty_last_n"; "max_tokens"; "max_context"; "samplers";
   "custom"; "systemMessage"; "imageGenerationMode"].

(** [toLowerCase] on the code units below 256: the letters A-Z, and the
    upper-case letters of Latin-1 (all of 192..222 but the multiplication
    sign). *)
Definition toLowerChar (c : ascii) : ascii :=
  let n := nat_of_ascii c in
  if ((65 <=? n)%nat && (n <=? 90)%nat)
     || ((192 <=? n)%nat && (n <=? 222)%nat && negb (n =? 215)%nat)
  then ascii_of_nat (n + 32) else c.

Fixpoint toLowerCase (s : string) : string :=
  match s with
  | EmptyString => EmptyString
  | String c s' => String (toLowerChar c) (toLowerCase s')
  end.

(** [str.replace(/\/$/, '')] *)
Definition stripTrailingSlash (s : string) : string :=
  if Js.endsWith "/" s then Js.dropLast s else s.

Definition getStorageKey (apiBaseUrl modelName : string) : string :=
  let normalizedUrl := stripTrailingSlash (toLowerCase (Js.trim apiBaseUrl)) in
  let normalizedModel := Js.trim modelName in
  "model_params:" ++ normalizedUrl ++ ":" ++ normalizedModel.

(** The object that [saveModelParams] assembles: the model-specific
    parameters that are in [config], in the order of the list. *)
Definition paramsToSave (config : gmap string JsVal) : list (string * JsVal) :=
  omap (fun param => (fun v => (param, v)) <$> config !! param) MODEL_SPECIFIC_PARAMS.

Section ModelParamsStore.

(** [JSON.stringify] on the parameters and [JSON.parse] on a stored text
    ([None] when it throws). *)
Variable JSON_stringify : JsVal -> string.
Variable JSON_parseValue : string -> option JsVal.

(** Whether the code runs in the browser. *)
Variable browser : bool.

(** [loadModelParams] on the local storage [storage]; [None] is [null]. *)
Definition loadModelParams (storage : gmap string string) (apiBaseUrl modelName : string)
  : option JsVal :=
  if negb browser || Js.isEmpty apiBaseUrl || Js.isEmpty modelName then None
  else
    match storage !! getStorageKey apiBaseUrl modelName with
    | Some stored =>
        if Js.isEmpty stored then None
        else match JSON_parseValue stored with
             | Some VNull => None
             | Some params => Some params
             | None => None
             end
    | None => None
    end.

(** [saveModelParams]; the storage takes the item. *)
Definition saveModelParams (storage : gmap string string) (apiBaseUrl modelName : string)
    (config : gmap string JsVal) : gmap string string :=
  if negb browser || Js.isEmpty apiBaseUrl || Js.isEmpty modelName then storage
  else <[getStorageKey apiBaseUrl modelName := JSON_stringify (VObj (paramsToSave config))]>
         storage.

Definition deleteModelParams (storage : gmap string string) (apiBaseUrl modelName : string)
  : gmap string string :=
  if negb browser then storage
  else delete (getStorageKey apiBaseUrl modelName) storage.

(** [getAllSavedModels]: the keys of the storage that begin with
    [model_params:], in the order in which the storage lists its keys. *)
Definition getAllSavedModels (storage : gmap string string) : list string :=
  if negb browser then []
  else List.filter (Js.startsWith "model_params:") (map fst (map_to_list storage)).

Definition clearAllModelParams (storage : gmap string string) : gmap string string :=
  if negb browser then storage
  else fold_left (fun storage key => delete key storage) (getAllSavedModels storage) storage.

(** [isModelSpecificParam] *)
Definition isModelSpecificParam (key : string) : bool :=
  bool_decide (key ∈ MODEL_SPECIFIC_PARAMS).

End ModelParamsStore.

(** * Vocabulary of the properties *)

(** ** Tool calls *)

(** The arguments text of a call, and of a delta: empty when missing. *)
Definition argumentsText (call : ToolCall) : string :=
  Js.orEmpty (tc_function call ≫= fn_arguments).

Definition deltaArguments (d : ToolCallDelta) : string :=
  Js.orEmpty (d_function d ≫= fn_arguments).

Definition functionName (call : ToolCall) : option string :=
  tc_function call ≫= fn_name.

Definition deltaName (d : ToolCallDelta) : option string :=
  d_function d ≫= fn_name.

(** The concatenation of a list of strings, in order. *)
Definition appendAll (l : list string) : string := fold_right String.append "" l.

(** The value of a field after a run of assignments-when-present: the last
    present value, or the old one. *)
Definition latest (old : option string) (news : list (option string)) : option string :=
  fold_left (fun acc new => if Js.truthy new then new else acc) news old.

(** A run of deltas applied to one slot. *)
Definition applyAll (ds : list ToolCallDelta) (call : ToolCall) : ToolCall :=
  fold_left (fun c d => applyDelta d c) ds call.

(** ** The decoder and its input *)

(** Any callback but [onComplete]. *)
Definition quietEvent (e : Event) : Prop := isOnComplete e = false.

(** [st'] continues [st] without touching the line buffer or the finished
    flag and without invoking [onComplete]. *)
Definition quietStep (st st' : StreamState) : Prop :=
  streamFinished st' = streamFinished st
  /\ chunk st' = chunk st
  /\ exists evs, events st' = (events st ++ evs)%list /\ Forall quietEvent evs.

(** The complete lines of a text: every piece but the last. *)
Definition completeLines (text : string) : list string :=
  removelast (Js.split newline text).

(** The line that ends a stream. *)
Definition doneLine : string := "data: [DONE]".

(** The text of a read, and of the reads delivered so far. *)
Definition readText (r : Read) : string :=
  match result r with ReadValue text => text | _ => "" end.

Definition deliveredText (reads : list Read) : string := appendAll (map readText reads).

(** After the decoder has consumed [text]: [onComplete] has not been invoked,
    the buffer holds the trailing partial line, and the finished flag is
    set only if one of the complete lines was [data: [DONE]]. *)
Definition decoded (text : string) (st : StreamState) : Prop :=
  Forall quietEvent (events st)
  /\ chunk st = List.last (Js.split newline text) ""
  /\ (streamFinished st = true -> In doneLine (completeLines text)).

(** A line leaves the buffer alone, invokes no [onComplete], and sets the
    finished flag only when it is the [data: [DONE]] line. *)
Definition lineStep (lines : list string) (st st' : StreamState) : Prop :=
  chunk st' = chunk st
  /\ (exists evs, events st' = (events st ++ evs)%list /\ Forall quietEvent evs)
  /\ (streamFinished st' = true -> streamFinished st = true \/ In doneLine lines).

(** ** Registries, settings and servers *)

(** The registries the service can be in: two keys never share a controller,
    and every tracked controller has been allocated. *)
Definition wellFormed (r : Registry) : Prop :=
  (forall k1 k2 c,
      abortControllers r !! k1 = Some c -> abortControllers r !! k2 = Some c -> k1 = k2)
  /\ (forall k c, abortControllers r !! k = Some c -> (c < nextController r)%nat).

(** The registries the service reaches from the empty one: by the head of
    [sendMessage], by its [finally] block and by [abort]. *)
Inductive reachable : Registry -> Prop :=
| reach_empty : reachable emptyRegistry
| reach_register (k : string) (r : Registry) :
    reachable r -> reachable (fst (registerRequest k r))
| reach_release (k : string) (r : Registry) :
    reachable r -> reachable (releaseRequest k r)
| reach_abort (conversationId : option string) (r : Registry) :
    reachable r -> reachable (abort conversationId r).

(** Two requests in flight, for [c1] and for [c2]. *)
Definition twoInFlight : Registry :=
  fst (registerRequest "c2" (fst (registerRequest "c1" emptyRegistry))).

(** Options with every generation and sampling parameter unset and no
    custom JSON. *)
Definition unsetOptions (stream : JsVal) : Options :=
  mkOptions stream VUndef VUndef VUndef VUndef VUndef VUndef VUndef VUndef VUndef
            VUndef VUndef VUndef VUndef VUndef VUndef VUndef VUndef VUndef VUndef
            VUndef VUndef VUndef VUndef VUndef.

(** The settings of a fresh installation: same-origin server, no system
    message, no model selector. *)
Definition localConfig : Config := mkConfig None None None false false None.

(** A [JSON.parse] that is never given valid JSON. *)
Definition noJSON : string -> option JsVal := fun _ => None.

(** The [model] field, present when the selector is enabled and a model is
    selected. *)
Definition modelField (cfg : Config) : gset string :=
  if modelSelectorEnabled cfg && Js.truthy (selectedModelName cfg) then {["model"]} else ∅.

(** A provider URL that is only the scheme: the trailing slash goes, and what
    is left is not recognised as external. *)
Definition schemeOnlyConfig : Config :=
  mkConfig None (Some "http://") None false false None.

(** A provider behind [https://], a request with llama.cpp sampling
    parameters and an unlimited [max_tokens]. *)
Definition providerConfig : Config :=
  mkConfig (Some "sk-test") (Some "https://api.example.com/v1/") None true false
           (Some "gpt-test").

(** Sampling parameters of llama.cpp, [max_tokens: null] and a reasoning
    effort. *)
Definition samplingOptions : Options :=
  mkOptions (VBool true) (VNum 1) VNull VUndef (VStr "high") VUndef VUndef VUndef (VNum 40)
            VUndef VUndef VUndef VUndef VUndef VUndef VUndef VUndef VUndef VUndef VUndef
            VUndef VUndef (VStr "top_k;top_p") VUndef VUndef.




(** A provider that first rejects [reasoning_effort], then [max_tokens], and
    accepts the third request. *)
Definition twoRejections (attempt : nat) (body : gmap string JsVal) : FetchResult :=
  match attempt with
  | 1%nat => Fulfilled (mkResponse 400 "Bad Request" "reasoning_effort is not supported" None)
  | 2%nat => Fulfilled (mkResponse 400 "Bad Request" "Unsupported parameter: max_tokens" None)
  | _ => Fulfilled (mkResponse 200 "OK" "" (Some [mkRead ReadDone false 0]))
  end.

(** That provider, with a clock that stands still and no other task. *)
Definition twoRejectionsPlatform : Platform :=
  mkPlatform noJSON (fun _ => None) (fun _ => None) (fun _ => None) twoRejections 0 0 0 false id.

(** A request with a reasoning effort and a token limit. *)
Definition effortAndLimit : Options :=
  mkOptions (VBool true) VUndef (VNum 100) VUndef (VStr "high") VUndef VUndef VUndef VUndef
            VUndef VUndef VUndef VUndef VUndef VUndef VUndef VUndef VUndef VUndef VUndef
            VUndef VUndef VUndef VUndef VUndef.

(** ** Responses *)

(** Nothing but white space. *)
Fixpoint allSpace (s : string) : bool :=
  match s with
  | EmptyString => true
  | String c s' => Js.isSpace c && allSpace s'
  end.

(** [choices[0].message] *)
Definition firstMessage (data : ApiResponse) : option ApiMessage :=
  head (choices data) ≫= message.


(** [choices[0].message.tool_calls] is missing or empty. *)
Definition noToolCalls (data : ApiResponse) : Prop :=
  match firstMessage data ≫= tool_calls with
  | None | Some [] => True
  | Some _ => False
  end.





(** A call whose request fails at the transport. *)
Definition offlinePlatform : Platform :=
  mkPlatform noJSON (fun _ => None) (fun _ => None) (fun _ => None)
    (fun _ _ => Failed (mkError "TypeError" "Failed to fetch")) 0 0 0 false id.

(** ** Decompositions of a content string *)

(** One content delta through the decoder. *)
Definition feed (st : StreamState) (piece : string) : StreamState :=
  processChunk false 0 (contentChunk piece) st.

(** The length of the first piece: fixed once the first cut is made. *)
Definition firstLength (first : option nat) (cur : string) : nat :=
  match first with Some n => n | None => String.length cur end.

Section Cuts.

Context {S : Type}.
Variable step : S -> string -> S.
Variable P : nat -> S -> bool.

(** [P] on the outcome of every way to cut [cur ++ rest] into non-empty
    pieces of which the current one begins with [cur], the decoder having
    reached [st] on the pieces before it. *)
Fixpoint allCuts (first : option nat) (st : S) (cur rest : string) : bool :=
  match rest with
  | EmptyString => P (firstLength first cur) (step st cur)
  | String c rest' =>
      allCuts first st (cur ++ String c "") rest'
      && allCuts (Some (firstLength first cur)) (step st cur) (String c "") rest'
  end.

End Cuts.

(** The visible text is [AC] and the reasoning text is [B]. *)
Definition cleanSplit (st : StreamState) : bool :=
  String.eqb (visibleText (events st)) "AC" && String.eqb (reasoningText (events st)) "B".

(** The last character of [p] is not white space. *)
Fixpoint lastNonSpace (p : string) : bool :=
  match p with
  | EmptyString => false
  | String c EmptyString => negb (Js.isSpace c)
  | String _ p' => lastNonSpace p'
  end.

(** ** The steps of [processChunk] *)

(** The fields of a chunk that [processChunk] reads. *)
Definition chunkDelta (parsed : ApiResponse) : option ApiMessage :=
  head (choices parsed) ≫= delta.

Definition chunkContent (parsed : ApiResponse) : option string :=
  chunkDelta parsed ≫= content.

Definition chunkReasoning (parsed : ApiResponse) : option string :=
  orElse (chunkDelta parsed ≫= reasoning) (chunkDelta parsed ≫= reasoning_content).

Definition chunkToolCalls (parsed : ApiResponse) : option (list ToolCallDelta) :=
  chunkDelta parsed ≫= tool_calls.

Definition chunkFinishReason (parsed : ApiResponse) : option string :=
  head (choices parsed) ≫= finish_reason.

(** The one-time notification of the first completion chunk. *)
Definition notifyFirstValidChunk (aborted : bool) (parsed : ApiResponse) (st : StreamState)
  : StreamState :=
  if negb (firstValidChunkEmitted st)
     && bool_decide (object parsed = Some "chat.completion.chunk") then
    let st := set_firstValidChunkEmitted true st in
    if negb aborted then emit OnFirstValidChunk st else st
  else st.

(** The one-time report of the model name. *)
Definition reportModel (parsed : ApiResponse) (st : StreamState) : StreamState :=
  match extractModelName parsed with
  | Some chunkModel =>
      if negb (modelEmitted st)
      then emit (OnModel chunkModel) (set_modelEmitted true st) else st
  | None => st
  end.

(** First-token time, usage counts, timings and prompt progress. *)
Definition noteTimings (now : Z) (parsed : ApiResponse) (st : StreamState) : StreamState :=
  let st :=
    if (Js.truthy (chunkContent parsed) || Js.truthy (chunkReasoning parsed))
       && negb (truthyNum (firstTokenTime st))
    then set_firstTokenTime (Some now) st else st in
  let st :=
    if isSome (usage parsed) && Js.truthy (chunkFinishReason parsed)
    then set_usageData (usage parsed) st else st in
  if isSome (timings parsed) || isSome (prompt_progress parsed) then
    let st := emit (UpdateProcessingState (timings parsed) (prompt_progress parsed)) st in
    if isSome (timings parsed) then set_lastTimings (timings parsed) st else st
  else st.

(** The visible-content delta. *)
Definition contentStep (aborted : bool) (parsed : ApiResponse) (st : StreamState)
  : StreamState :=
  if Js.truthy (chunkContent parsed)
  then processContent aborted (Js.orEmpty (chunkContent parsed)) st else st.

(** The delta of a dedicated reasoning field. *)
Definition reasoningStep (aborted : bool) (parsed : ApiResponse) (st : StreamState)
  : StreamState :=
  if Js.truthy (chunkReasoning parsed) then
    let st := finalizeOpenToolCallBatch st in
    let st := set_fullReasoningContent
                (fullReasoningContent st ++ Js.orEmpty (chunkReasoning parsed)) st in
    if negb aborted then emit (OnReasoningChunk (Js.orEmpty (chunkReasoning parsed))) st else st
  else st.

(** The tool-call deltas. *)
Definition toolStep (aborted : bool) (parsed : ApiResponse) (st : StreamState) : StreamState :=
  processToolCallDelta aborted (chunkToolCalls parsed) st.

(** ** What a trace of callbacks holds *)

Definition isOnModel (e : Event) : bool :=
  match e with OnModel _ => true | _ => false end.

Definition isOnFirstValidChunk (e : Event) : bool :=
  match e with OnFirstValidChunk => true | _ => false end.

Definition isOnToolCallChunk (e : Event) : bool :=
  match e with OnToolCallChunk _ => true | _ => false end.

(** [onChunk] and [onReasoningChunk]: text for display. *)
Definition isText (e : Event) : bool :=
  match e with OnChunk _ | OnReasoningChunk _ => true | _ => false end.

(** How many callbacks of a kind a trace holds. *)
Definition countB (f : Event -> bool) (evs : list Event) : nat :=
  length (List.filter f evs).

(** The text a callback hands over as visible content, and as reasoning. *)
Definition chunkOf (e : Event) : string :=
  match e with OnChunk s => s | _ => "" end.

Definition reasoningOf (e : Event) : string :=
  match e with OnReasoningChunk s => s | _ => "" end.

(** The payload of the last [onToolCallChunk]. *)
Fixpoint lastToolChunk (evs : list Event) : option (list ToolCall) :=
  match evs with
  | [] => None
  | e :: evs' =>
      match lastToolChunk evs' with
      | Some calls => Some calls
      | None => match e with OnToolCallChunk calls => Some calls | _ => None end
      end
  end.

(** The tool calls as [onComplete] and [onToolCallChunk] would carry them. *)
Definition snapshot (calls : list ToolCall) : option (list ToolCall) :=
  match calls with [] => None | _ => Some calls end.

(** The tool calls a trace has reported: those that were on display when
    visible text or reasoning was last reported (the settled ones), and the
    payload of the last [onToolCallChunk] (the current ones). *)
Definition callsStep (acc : list ToolCall * list ToolCall) (e : Event)
  : list ToolCall * list ToolCall :=
  match e with
  | OnToolCallChunk calls => (acc.1, calls)
  | OnChunk _ | OnReasoningChunk _ => (acc.2, acc.2)
  | _ => acc
  end.

Definition callsAfter (acc : list ToolCall * list ToolCall) (evs : list Event)
  : list ToolCall * list ToolCall :=
  fold_left callsStep evs acc.

(** An [onToolCallChunk] extends the settled calls. *)
Definition okEvent (acc : list ToolCall * list ToolCall) (e : Event) : Prop :=
  match e with
  | OnToolCallChunk calls => acc.1 `prefix_of` calls
  | _ => True
  end.

Fixpoint callsOk (acc : list ToolCall * list ToolCall) (evs : list Event) : Prop :=
  match evs with
  | [] => True
  | e :: evs' => okEvent acc e /\ callsOk (callsStep acc e) evs'
  end.

(** What holds of the decoder between two chunks while the signal is clear:
    the two one-time callbacks were invoked exactly if their flags are set;
    neither [onComplete] nor [onError] was invoked; the aggregated content
    and reasoning are what [onChunk] and [onReasoningChunk] received; the
    last [onToolCallChunk] carried the aggregated tool calls; the index
    offset is within the aggregated calls, at their end when no batch is
    open; and the settled calls lie below the offset and were extended by
    every [onToolCallChunk]. *)
Record orderly (st : StreamState) : Prop := mkOrderly {
  ord_model : countB isOnModel (events st) = Nat.b2n (modelEmitted st);
  ord_first : countB isOnFirstValidChunk (events st) = Nat.b2n (firstValidChunkEmitted st);
  ord_complete : existsb isOnComplete (events st) = false;
  ord_error : existsb isOnError (events st) = false;
  ord_content : aggregatedContent st = visibleText (events st);
  ord_reasoning : fullReasoningContent st = reasoningText (events st);
  ord_tools : lastToolChunk (events st)
              = snapshot (aggregatedToolCalls st);
  ord_offset : (toolCallIndexOffset st <= length (aggregatedToolCalls st))%nat;
  ord_closed : hasOpenToolCallBatch st = false ->
               toolCallIndexOffset st = length (aggregatedToolCalls st);
  ord_calls : callsOk ([], []) (events st);
  ord_current : (callsAfter ([], []) (events st)).2 = aggregatedToolCalls st;
  ord_settled : (callsAfter ([], []) (events st)).1
                `prefix_of` take (toolCallIndexOffset st) (aggregatedToolCalls st)
}.

(** The callbacks that end a response: [onComplete] and [onError]. *)
Definition terminal (e : Event) : bool := isOnComplete e || isOnError e.

(** ** A sample server *)

(** A chunk that carries one tool-call delta with index 0 and a function
    name. *)
Definition toolChunk (name : string) : ApiResponse :=
  mkApiResponse (Some "chat.completion.chunk") None
    [mkApiChoice
       (Some (mkApiMessage None None None
                (Some [mkDelta (Some 0) None None (Some (mkToolFn (Some name) None))]) None))
       None None]
    None None None.

(** A parser that knows three payloads: a content delta [Hi] and two
    tool-call deltas. *)
Definition parseSample (data : string) : option ApiResponse :=
  if String.eqb data "hi" then Some (contentChunk "Hi")
  else if String.eqb data "f" then Some (toolChunk "f")
  else if String.eqb data "g" then Some (toolChunk "g")
  else None.

(** A body that carries the content delta and the end marker in one read. *)
Definition hiBody : list Read :=
  [mkRead (ReadValue ("data: hi" ++ newline ++ doneLine ++ newline)) false 0;
   mkRead ReadDone false 0].

(** A body with a tool call, then text, then a second tool call. *)
Definition toolsBody : list Read :=
  [mkRead (ReadValue ("data: f" ++ newline ++ "data: hi" ++ newline
                      ++ "data: g" ++ newline ++ doneLine ++ newline)) false 0;
   mkRead ReadDone false 0].

(** ** Tool-call deltas *)

(** A delta whose [index] is missing or negative. *)
Definition unindexed (d : ToolCallDelta) : Prop :=
  match d_index d with Some i => i < 0 | None => True end.

(** The call a delta with only a function name opens. *)
Definition namedCall (name : string) : ToolCall :=
  mkToolCall None None (Some (mkToolFn (Some name) None)).

(** ** Failures *)

(** A read that delivers text while the signal is clear. *)
Definition delivers (r : Read) : Prop :=
  abortedAfter r = false /\ exists text, result r = ReadValue text.

(** The decoder after reads that deliver text. *)
Definition consume (JSON_parse : string -> option ApiResponse) (values : list Read)
    (st : StreamState) : StreamState :=
  fold_left (fun st r => processRead JSON_parse false (now r) (readText r) st) values st.

(** A server that answers every request with [resp]. *)
Definition answers (P : Platform) (resp : HttpResponse) : Prop :=
  forall attempt body, fetch P attempt body = Fulfilled resp.

(** A network on which every [fetch] fails with [e]. *)
Definition unreachable (P : Platform) (e : Error) : Prop :=
  forall attempt body, fetch P attempt body = Failed e.

(** The platform of a server that answers every request with [resp]. *)
Definition serverPlatform (resp : HttpResponse) : Platform :=
  mkPlatform noJSON parseSample (fun data => WithChoices <$> parseSample data) (fun _ => None)
    (fun _ _ => Fulfilled resp) 0 0 0 false id.

(** A body whose second read fails because the request was aborted. *)
Definition abortedBody : list Read :=
  [mkRead (ReadValue ("data: hi" ++ newline)) false 0;
   mkRead (ReadThrows (mkError "AbortError" "The user aborted a request.")) true 0].

(** A body whose end marker has arrived when the request is cancelled. *)
Definition cancelledBody : list Read :=
  [mkRead (ReadValue ("data: hi" ++ newline ++ doneLine ++ newline)) false 0;
   mkRead (ReadValue ("data: hi" ++ newline)) true 0;
   mkRead ReadDone true 0].
(** ** Controllers and their signals *)

(** Every aborted controller has been allocated. *)
Definition allocated (r : Registry) : Prop :=
  forall c, c ∈ abortedSignals r -> (c < nextController r)%nat.
(** ** Requests *)

(** The conversation without a system message of its own at the front. *)
Definition dropLeadingSystem (messages : list ChatMessage) : list ChatMessage :=
  match messages with
  | first :: rest => if String.eqb (role first) "system" then rest else messages
  | [] => []
  end.

(** A message that, if it is a system message, says something. *)
Definition properMessage (msg : ChatMessage) : Prop :=
  role msg = "system" ->
  exists text, msg_content msg = VStr text /\ Js.isEmpty (Js.trim text) = false.

(** The token limits and the reasoning effort of a request body are in
    order: at most one of [max_tokens] and [max_completion_tokens] is set,
    [max_tokens] is neither [null] nor [0], and [reasoning_effort] is not
    ['none']. *)
Definition limitsOk (body : gmap string JsVal) : Prop :=
  (isUndef (getField body "max_tokens") = true
   \/ isUndef (getField body "max_completion_tokens") = true)
  /\ getField body "max_tokens" <> VNull
  /\ getField body "max_tokens" <> VNum 0
  /\ getField body "reasoning_effort" <> VStr "none".

(** A conversation that opens with a blank system message, under settings
    that configure one. *)
Definition assistantConfig : Config :=
  mkConfig None None (Some " Be brief. ") false false None.

Definition blankSystemChat : list ChatMessage :=
  [mkMessage "system" (VStr "  "); mkMessage "system" (VStr "Old."); mkMessage "user" (VStr "Hi")].
(** ** Text around a think span *)

(** No ['<'] in the text. *)
Fixpoint noAngle (s : string) : bool :=
  match s with
  | EmptyString => true
  | String c s' => negb (Ascii.eqb "<" c) && noAngle s'
  end.

(** [st'] differs from [st] in nothing that the think-tag scanner reads,
    and reports no text. *)
Definition sameText (st st' : StreamState) : Prop :=
  insideThinkTag st' = insideThinkTag st
  /\ thinkBuffer st' = thinkBuffer st
  /\ visibleText (events st') = visibleText (events st)
  /\ reasoningText (events st') = reasoningText (events st).
(** ** A response that is all reasoning *)

(** [choices[0].message] carries no reasoning field of its own. *)
Definition noReasoningField (data : ApiResponse) : Prop :=
  Js.truthy (orElse (firstMessage data ≫= reasoning) (firstMessage data ≫= reasoning_content))
  = false.

(** A complete response whose content is one think span. *)
Definition thinkingOnly : ApiResponse :=
  mkApiResponse None None
    [mkApiChoice None
       (Some (mkApiMessage (Some ("" ++ "<think>" ++ "Let me see." ++ "</think>" ++ newline))
                None None None None))
       None]
    None None None.
(** ** Attachments *)

(** The parts that stand for one attachment. *)
Definition partsOf (e : Extra) : list JsVal :=
  (imageParts e ++ textFileParts e ++ legacyContextParts e ++ audioParts e ++ pdfParts e)%list.

(** The parts of a list of values. *)
Definition contentPartsOf (msg : ChatMessage) : list JsVal :=
  match msg_content msg with VArr parts => parts | _ => [] end.

(** A stored message with a picture between two text files. *)
Definition illustratedMessage : DatabaseMessage :=
  mkDbMessage "user" "Compare."
    (Some [TextFile "a.txt" "alpha"; ImageFile "data:image/png;base64,AAAA";
           TextFile "b.txt" "beta"]).

(** ** Saved parameters *)

(** A stand-in for the JSON text of the parameters, with the parser that
    reads it back. *)
Definition sampleSettings : gmap string JsVal :=
  {[ "temperature" := VNum 1; "theme" := VStr "dark" ]}.

Definition sampleStringify (v : JsVal) : string := "{temperature:1}".

Definition sampleParse (text : string) : option JsVal :=
  if String.eqb text "{temperature:1}" then Some (VObj (paramsToSave sampleSettings)) else None.

(** ** Tool calls in pieces *)

(** A chunk that carries only tool-call deltas. *)
Definition toolsChunk (deltas : list ToolCallDelta) : ApiResponse :=
  mkApiResponse (Some "chat.completion.chunk") None
    [mkApiChoice (Some (mkApiMessage None None None (Some deltas) None)) None None]
    None None None.

(** [st'] has the tool calls, the index offset, the content and the
    reasoning of [st]. *)
Definition sameCalls (st st' : StreamState) : Prop :=
  aggregatedToolCalls st' = aggregatedToolCalls st
  /\ toolCallIndexOffset st' = toolCallIndexOffset st
  /\ aggregatedContent st' = aggregatedContent st
  /\ fullReasoningContent st' = fullReasoningContent st.

(** ** Usage counts in a stream *)

(** The chunk that a line of the stream carries, if any: the parsed payload
    of a [data: ] line other than the end marker. *)
Definition lineChunk (JSON_parse : string -> option ApiResponse) (line : string)
  : option ApiResponse :=
  if Js.startsWith "data: " line then
    if String.eqb (Js.drop 6 line) "[DONE]" then None else JSON_parse (Js.drop 6 line)
  else None.







(** The last chunk of a stream from a server that counts tokens: a finish
    reason and the usage counts 10 and 90. *)
Definition usageChunk : ApiResponse :=
  mkApiResponse (Some "chat.completion.chunk") None
    [mkApiChoice (Some (mkApiMessage None None None None None)) None (Some "stop")]
    None None (Some (mkUsage (Some 10) (Some 90) (Some 100))).

(** A parser that knows a content delta [Hi] and the chunk with the usage
    counts. *)
Definition parseUsageSample (data : string) : option ApiResponse :=
  if String.eqb data "hi" then Some (contentChunk "Hi")
  else if String.eqb data "usage" then Some usageChunk
  else None.

(** A body whose content arrives at time 1100, followed by the usage counts
    and the end marker. *)
Definition usageBody : list Read :=
  [mkRead (ReadValue ("data: hi" ++ newline)) false 1100;
   mkRead (ReadValue ("data: usage" ++ newline ++ doneLine ++ newline)) false 1200].

(** A body with the usage counts and no content, so that no first token is
    timed. *)
Definition usageOnlyBody : list Read :=
  [mkRead (ReadValue ("data: usage" ++ newline ++ doneLine ++ newline)) false 1200].

(** A complete response with the content [hi] and the usage counts 10 and
    90. *)
Definition usageResponse : ApiResponse :=
  mkApiResponse None None
    [mkApiChoice None (Some (mkApiMessage (Some "hi") None None None None)) None]
    None None (Some (mkUsage (Some 10) (Some 90) (Some 100))).

(** * Properties *)

(** ** Sanity checks of the embedding *)

Example split_think : Js.split "<think>" "A<think>B</think>C" = ["A"; "B</think>C"].
Proof. reflexivity. Qed.

Example split_lines : Js.split (String "010" "") (String "a" (String "010" (String "010" "b"))) = ["a"; ""; "b"].
Proof. reflexivity. Qed.

Example trim_ex : Js.trim "  a b  " = "a b".
Proof. reflexivity. Qed.

Example ends_ex : Js.endsWith "/" "http://" = true /\ Js.dropLast "http://" = "http:/".
Proof. split; reflexivity. Qed.

Example merge_two_chunks :
  mergeToolCallDeltas (mergeToolCallDeltas [] [delta_f_open] 0) [delta_f_close] 0
  = [mkToolCall None None
       (Some (mkToolFn (Some "f") (Some ("{" ++ dquote ++ "x" ++ dquote ++ ":1}"))))].
Proof. reflexivity. Qed.

Example decode_whole :
  let st := decodeDeltas ["A<think>B</think>C"] in
  visibleText (events st) = "AC" /\ reasoningText (events st) = "B".
Proof. split; reflexivity. Qed.

Example decode_split_in_reasoning :
  let st := decodeDeltas ["A<think>B</"; "think>C"] in
  visibleText (events st) = "AC" /\ reasoningText (events st) = "B".
Proof. split; reflexivity. Qed.

Example decode_split_before_tag :
  let st := decodeDeltas ["A"; "<think>B</think>C"] in
  visibleText (events st) = "AAC" /\ reasoningText (events st) = "B".
Proof. split; reflexivity. Qed.

Example decode_split_in_open_tag :
  let st := decodeDeltas ["A<th"; "ink>B</think>C"] in
  visibleText (events st) = "A<thAC" /\ reasoningText (events st) = "B".
Proof. split; reflexivity. Qed.

Example parseThinkTags_two :
  parseThinkTags " x<think> a </think>y<think>b</think> "
  = ("xy", Some ("a" ++ newline ++ newline ++ "b")).
Proof. reflexivity. Qed.

(** ** Strings *)

Lemma append_cons (c : ascii) (s t : string) : String c s ++ t = String c (s ++ t).
Proof. reflexivity. Qed.

Lemma append_nil_l (s : string) : "" ++ s = s.
Proof. reflexivity. Qed.

Lemma append_nil_r (s : string) : s ++ "" = s.
Proof. induction s as [|c s IH]; [reflexivity | by rewrite append_cons, IH]. Qed.

Lemma append_assoc (s t u : string) : (s ++ t) ++ u = s ++ (t ++ u).
Proof. induction s as [|c s IH]; [reflexivity | by rewrite !append_cons, IH]. Qed.

Lemma length_append (s t : string) :
  String.length (s ++ t) = (String.length s + String.length t)%nat.
Proof. induction s as [|c s IH]; [reflexivity | rewrite append_cons; simpl; by rewrite IH]. Qed.

(** ** Tool-call merging *)

Lemma copyCall_id (call : ToolCall) : copyCall call = call.
Proof. destruct call as [i t [[n a]|]]; reflexivity. Qed.

Lemma map_copyCall (l : list ToolCall) : map copyCall l = l.
Proof. induction l as [|c l IH]; simpl; [reflexivity | by rewrite copyCall_id, IH]. Qed.

Lemma orEmpty_truthy (o : option string) : Js.truthy o = false -> Js.orEmpty o = "".
Proof. destruct o as [[|c s]|]; simpl; congruence. Qed.

Lemma applyDelta_arguments (d : ToolCallDelta) (c : ToolCall) :
  argumentsText (applyDelta d c) = argumentsText c ++ deltaArguments d.
Proof.
  unfold argumentsText, deltaArguments, applyDelta.
  destruct d as [ix di dt [[dn da]|]]; simpl; [|by rewrite append_nil_r].
  destruct (Js.truthy da) eqn:Ha; simpl.
  - destruct (Js.truthy dn), (tc_function c) as [[n a]|]; reflexivity.
  - rewrite (orEmpty_truthy da Ha), append_nil_r.
    destruct (Js.truthy dn), (tc_function c) as [[n a]|]; reflexivity.
Qed.

Lemma applyDelta_name (d : ToolCallDelta) (c : ToolCall) :
  functionName (applyDelta d c)
  = if Js.truthy (deltaName d) then deltaName d else functionName c.
Proof.
  unfold functionName, deltaName, applyDelta.
  destruct d as [ix di dt [[dn da]|]]; simpl; [|reflexivity].
  destruct (Js.truthy dn), (Js.truthy da), (tc_function c) as [[n a]|]; reflexivity.
Qed.

Lemma applyAll_arguments (ds : list ToolCallDelta) (c : ToolCall) :
  argumentsText (applyAll ds c) = argumentsText c ++ appendAll (map deltaArguments ds).
Proof.
  revert c. induction ds as [|d ds IH]; intros c; simpl.
  - by rewrite append_nil_r.
  - unfold applyAll in *. simpl. rewrite IH, applyDelta_arguments. apply append_assoc.
Qed.

Lemma applyAll_id (ds : list ToolCallDelta) (c : ToolCall) :
  tc_id (applyAll ds c) = latest (tc_id c) (map d_id ds).
Proof.
  revert c. induction ds as [|d ds IH]; intros c; [reflexivity|].
  unfold applyAll, latest in *. simpl. by rewrite IH.
Qed.

Lemma applyAll_type (ds : list ToolCallDelta) (c : ToolCall) :
  tc_type (applyAll ds c) = latest (tc_type c) (map d_type ds).
Proof.
  revert c. induction ds as [|d ds IH]; intros c; [reflexivity|].
  unfold applyAll, latest in *. simpl. by rewrite IH.
Qed.

Lemma applyAll_name (ds : list ToolCallDelta) (c : ToolCall) :
  functionName (applyAll ds c) = latest (functionName c) (map deltaName ds).
Proof.
  revert c. induction ds as [|d ds IH]; intros c; [reflexivity|].
  unfold applyAll, latest in *. simpl. by rewrite IH, applyDelta_name.
Qed.

Section MergeAtIndex.

Variables (i : Z) (indexOffset : nat).
Hypothesis i_nonneg : 0 <= i.

Let slot : nat := (Z.to_nat i + indexOffset)%nat.

Lemma deltaIndex_slot (result : list ToolCall) (d : ToolCallDelta) :
  d_index d = Some i -> deltaIndex indexOffset result d = slot.
Proof.
  intros Hd. unfold deltaIndex. rewrite Hd.
  destruct (0 <=? i) eqn:E; [reflexivity | lia].
Qed.

Lemma mergeDelta_slot (result : list ToolCall) (d : ToolCallDelta) :
  d_index d = Some i ->
  mergeDelta indexOffset result d !! slot
  = Some (applyDelta d (default emptyCall (result !! slot))).
Proof.
  intros Hd. unfold mergeDelta. rewrite (deltaIndex_slot _ _ Hd).
  rewrite list_lookup_alter_eq.
  destruct (decide (slot < length result)%nat) as [Hlt|Hge].
  - rewrite lookup_app_l by done.
    destruct (lookup_lt_is_Some_2 result slot Hlt) as [c Hc]. by rewrite Hc.
  - rewrite lookup_app_r by lia.
    rewrite lookup_replicate_2 by lia.
    rewrite (lookup_ge_None_2 result slot) by lia. reflexivity.
Qed.

Lemma mergeDelta_frame (result : list ToolCall) (d : ToolCallDelta) (j : nat) :
  d_index d = Some i -> j <> slot -> (j < length result)%nat ->
  mergeDelta indexOffset result d !! j = result !! j.
Proof.
  intros Hd Hj Hlt. unfold mergeDelta. rewrite (deltaIndex_slot _ _ Hd).
  rewrite list_lookup_alter_ne by done. by rewrite lookup_app_l.
Qed.

Lemma mergeDelta_length (result : list ToolCall) (d : ToolCallDelta) :
  (length result <= length (mergeDelta indexOffset result d))%nat.
Proof.
  unfold mergeDelta. rewrite length_alter, length_app. lia.
Qed.

Lemma merge_fold_slot (ds : list ToolCallDelta) (result : list ToolCall) :
  Forall (fun d => d_index d = Some i) ds -> ds <> [] ->
  fold_left (mergeDelta indexOffset) ds result !! slot
  = Some (applyAll ds (default emptyCall (result !! slot))).
Proof.
  intros Hall. revert result.
  induction Hall as [|d ds Hd Hall IH]; intros result Hne; [done|].
  simpl. destruct ds as [|d' ds'].
  - simpl. by apply mergeDelta_slot.
  - rewrite IH by done. by rewrite mergeDelta_slot.
Qed.

Lemma merge_fold_frame (ds : list ToolCallDelta) (result : list ToolCall) (j : nat) :
  Forall (fun d => d_index d = Some i) ds -> j <> slot -> (j < length result)%nat ->
  fold_left (mergeDelta indexOffset) ds result !! j = result !! j.
Proof.
  intros Hall Hj. revert result.
  induction Hall as [|d ds Hd Hall IH]; intros result Hlt; [done|].
  simpl. rewrite IH.
  - by apply mergeDelta_frame.
  - pose proof (mergeDelta_length result d). lia.
Qed.

End MergeAtIndex.

(** Merging chunk by chunk is merging the fragments in arrival order. *)
Lemma mergeToolCallDeltas_app (existing : list ToolCall) (ds1 ds2 : list ToolCallDelta)
    (indexOffset : nat) :
  mergeToolCallDeltas (mergeToolCallDeltas existing ds1 indexOffset) ds2 indexOffset
  = mergeToolCallDeltas existing (ds1 ++ ds2) indexOffset.
Proof.
  unfold mergeToolCallDeltas. by rewrite !map_copyCall, fold_left_app.
Qed.

(** C6.  Fragments that share one index are merged additively into the slot
    [index + offset]: the arguments text of the slot is its old text followed
    by the fragments' arguments in arrival order; id, type and function name
    are the last ones present; every other existing slot is untouched.  The
    two fragments of the example, delivered in two chunks, merge into one
    call whose arguments are the text [{"x":1}]. *)
Theorem mergeToolCallDeltas_additive
    (existing : list ToolCall) (ds : list ToolCallDelta) (i : Z) (indexOffset : nat) :
  0 <= i -> ds <> [] -> Forall (fun d => d_index d = Some i) ds ->
  let slot := (Z.to_nat i + indexOffset)%nat in
  let old := default emptyCall (existing !! slot) in
  (exists call,
      mergeToolCallDeltas existing ds indexOffset !! slot = Some call
      /\ argumentsText call = argumentsText old ++ appendAll (map deltaArguments ds)
      /\ tc_id call = latest (tc_id old) (map d_id ds)
      /\ tc_type call = latest (tc_type old) (map d_type ds)
      /\ functionName call = latest (functionName old) (map deltaName ds))
  /\ (forall j, j <> slot -> (j < length existing)%nat ->
        mergeToolCallDeltas existing ds indexOffset !! j = existing !! j)
  /\ mergeToolCallDeltas (mergeToolCallDeltas [] [delta_f_open] 0) [delta_f_close] 0
     = [mkToolCall None None
          (Some (mkToolFn (Some "f") (Some ("{" ++ dquote ++ "x" ++ dquote ++ ":1}"))))].
Proof.
  intros Hi Hne Hall slot old. unfold mergeToolCallDeltas. rewrite map_copyCall.
  split; [|split].
  - exists (applyAll ds old). split.
    + by apply (merge_fold_slot i indexOffset Hi).
    + auto using applyAll_arguments, applyAll_id, applyAll_type, applyAll_name.
  - intros j Hj Hlt. by apply (merge_fold_frame i indexOffset Hi).
  - reflexivity.
Qed.

Lemma mergeToolCallDeltas_additive_witness :
  exists call,
    mergeToolCallDeltas [] [delta_f_open; delta_f_close] 0 !! 0%nat = Some call
    /\ argumentsText call = "{" ++ dquote ++ "x" ++ dquote ++ ":1}".
Proof.
  destruct (mergeToolCallDeltas_additive [] [delta_f_open; delta_f_close] 0 0)
    as [[call (Hcall & Hargs & _)] _].
  - lia.
  - discriminate.
  - repeat constructor.
  - exists call. split; [exact Hcall | exact Hargs].
Defined.

(** ** Timing estimation *)


(** The split is exact on a whole number of hundredths of a second. *)
Lemma split_exact (k : Z) : floorTenth (10 * k) + floorNineTenths (10 * k) = 10 * k.
Proof.
  unfold floorTenth, floorNineTenths.
  replace (9 * (10 * k)) with (9 * k * 10) by lia.
  replace (10 * k) with (k * 10) by lia.
  rewrite !Z.div_mul by lia. lia.
Qed.

Example split_25 : floorTenth 25 = 2 /\ floorNineTenths 25 = 22.
Proof. split; reflexivity. Qed.

Lemma events_finalizeOpenToolCallBatch (st : StreamState) :
  events (finalizeOpenToolCallBatch st) = events st.
Proof. unfold finalizeOpenToolCallBatch. destruct st. simpl. by destruct hasOpenToolCallBatch0. Qed.


(** ** The stream decoder never completes without [data: [DONE]] *)

Lemma quietStep_refl (st : StreamState) : quietStep st st.
Proof. repeat split. exists []. by rewrite app_nil_r. Qed.

Lemma quietStep_trans (st1 st2 st3 : StreamState) :
  quietStep st1 st2 -> quietStep st2 st3 -> quietStep st1 st3.
Proof.
  intros (Hf1 & Hc1 & evs1 & He1 & Hq1) (Hf2 & Hc2 & evs2 & He2 & Hq2).
  repeat split; [congruence | congruence |].
  exists (evs1 ++ evs2)%list. split.
  - by rewrite He2, He1, app_assoc.
  - by apply Forall_app.
Qed.

(** An update that leaves the three observed fields alone is quiet. *)
Lemma quietStep_silent (g : StreamState -> StreamState) (st0 st : StreamState) :
  (forall s, streamFinished (g s) = streamFinished s
             /\ chunk (g s) = chunk s /\ events (g s) = events s) ->
  quietStep st0 st -> quietStep st0 (g st).
Proof.
  intros Hg H. apply (quietStep_trans _ st); [done|].
  destruct (Hg st) as (? & ? & He). repeat split; [done | done |].
  exists []. by rewrite He, app_nil_r.
Qed.

Lemma quietStep_emit (e : Event) (st0 st : StreamState) :
  quietEvent e -> quietStep st0 st -> quietStep st0 (emit e st).
Proof.
  intros He H. apply (quietStep_trans _ st); [done|].
  destruct st; simpl. repeat split. exists [e]. split; [done | by constructor].
Qed.

Lemma quietStep_let (v : StreamState) (f : StreamState -> StreamState) (st0 : StreamState) :
  quietStep st0 v -> (forall x, quietStep st0 x -> quietStep st0 (f x)) ->
  quietStep st0 (let x := v in f x).
Proof. intros Hv Hf. by apply Hf. Qed.

(** Walk through a composition of updates, callback invocations, branches and
    local bindings. *)
Ltac quiet :=
  repeat first
    [ assumption
    | apply quietStep_refl
    | apply quietStep_emit; [reflexivity|]
    | match goal with
      | |- quietStep _ (let x := ?v in @?f x) =>
          apply (quietStep_let v f); [|intros ? ?; cbv beta]
      | |- quietStep _ (if ?b then _ else _) => destruct b
      | |- quietStep _ (match ?x with _ => _ end) => destruct x
      | |- quietStep _ (?g ?x) =>
          apply (quietStep_silent g); [intros []; by repeat split|]
      end ].

Lemma quiet_finalizeOpenToolCallBatch (st0 st : StreamState) :
  quietStep st0 st -> quietStep st0 (finalizeOpenToolCallBatch st).
Proof. intros H. unfold finalizeOpenToolCallBatch. quiet. Qed.

Lemma quiet_processToolCallDelta (aborted : bool) (toolCalls : option (list ToolCallDelta))
    (st0 st : StreamState) :
  quietStep st0 st -> quietStep st0 (processToolCallDelta aborted toolCalls st).
Proof. intros H. unfold processToolCallDelta. quiet. Qed.

Ltac quiet_calls :=
  repeat first
    [ apply quiet_finalizeOpenToolCallBatch
    | apply quiet_processToolCallDelta
    | progress quiet ].

Lemma quiet_processContent (aborted : bool) (content : string) (st0 st : StreamState) :
  quietStep st0 st -> quietStep st0 (processContent aborted content st).
Proof. intros H. unfold processContent. quiet_calls. Qed.

Lemma quiet_processChunk (aborted : bool) (now : Z) (parsed : ApiResponse)
    (st0 st : StreamState) :
  quietStep st0 st -> quietStep st0 (processChunk aborted now parsed st).
Proof.
  intros H. unfold processChunk.
  repeat first [ apply quiet_processContent | progress quiet_calls ].
Qed.

(** *** Line reassembly *)

Lemma startsWith_drop (p s : string) :
  Js.startsWith p s = true -> s = p ++ Js.drop (String.length p) s.
Proof.
  revert s. induction p as [|a p IH]; intros s H; [reflexivity|].
  destruct s as [|b s]; [discriminate|]. simpl in H.
  apply andb_true_iff in H as [Hab Hp]. apply Ascii.eqb_eq in Hab. subst b.
  rewrite append_cons. simpl. f_equal. by apply IH.
Qed.

Lemma breakOn_newline_cons (c : ascii) (s : string) :
  Js.breakOn newline (String c s)
  = if Ascii.eqb "010" c then Some ("", s)
    else match Js.breakOn newline s with
         | Some (a, b) => Some (String c a, b)
         | None => None
         end.
Proof.
  unfold newline. cbn [Js.breakOn Js.startsWith Js.drop String.length].
  by rewrite andb_true_r.
Qed.

Lemma breakOn_newline_nil : Js.breakOn newline "" = None.
Proof. reflexivity. Qed.

Lemma breakOn_newline_length (s a b : string) :
  Js.breakOn newline s = Some (a, b) ->
  String.length s = S (String.length a + String.length b).
Proof.
  revert a b. induction s as [|c s IH]; intros a b H; [discriminate|].
  rewrite breakOn_newline_cons in H. destruct (Ascii.eqb "010" c).
  - by inversion H.
  - destruct (Js.breakOn newline s) as [[a' b']|]; [|discriminate].
    inversion H; subst. simpl. by rewrite (IH a' b).
Qed.

Lemma breakOn_newline_app_Some (s t a b : string) :
  Js.breakOn newline s = Some (a, b) ->
  Js.breakOn newline (s ++ t) = Some (a, b ++ t).
Proof.
  revert a b. induction s as [|c s IH]; intros a b H; [discriminate|].
  rewrite append_cons, breakOn_newline_cons. rewrite breakOn_newline_cons in H.
  destruct (Ascii.eqb "010" c).
  - by inversion H.
  - destruct (Js.breakOn newline s) as [[a' b']|]; [|discriminate].
    inversion H; subst. by rewrite (IH a' b).
Qed.

Lemma breakOn_newline_app_None (s t : string) :
  Js.breakOn newline s = None ->
  Js.breakOn newline (s ++ t)
  = match Js.breakOn newline t with
    | Some (a, b) => Some (s ++ a, b)
    | None => None
    end.
Proof.
  induction s as [|c s IH]; intros H.
  - rewrite append_nil_l. by destruct (Js.breakOn newline t) as [[a b]|].
  - rewrite append_cons, breakOn_newline_cons. rewrite breakOn_newline_cons in H.
    destruct (Ascii.eqb "010" c); [discriminate|].
    destruct (Js.breakOn newline s) as [[a' b']|]; [discriminate|].
    rewrite IH by done. by destruct (Js.breakOn newline t) as [[a b]|].
Qed.

(** Any fuel that covers the length gives the same pieces. *)
Lemma split_aux_fuel (f1 f2 : nat) (s : string) :
  (String.length s <= f1)%nat -> (String.length s <= f2)%nat ->
  Js.split_aux f1 newline s = Js.split_aux f2 newline s.
Proof.
  revert f2 s. induction f1 as [|f1 IH]; intros f2 s H1 H2.
  - destruct s; [|simpl in H1; lia]. by destruct f2.
  - destruct f2 as [|f2].
    + destruct s; [reflexivity | simpl in H2; lia].
    + simpl. destruct (Js.breakOn newline s) as [[a b]|] eqn:E; [|reflexivity].
      apply breakOn_newline_length in E. f_equal. apply IH; lia.
Qed.

Lemma split_newline_unfold (s : string) :
  Js.split newline s
  = match Js.breakOn newline s with
    | Some (a, b) => a :: Js.split newline b
    | None => [s]
    end.
Proof.
  unfold Js.split. destruct s as [|c s].
  - reflexivity.
  - change (String.length (String c s)) with (S (String.length s)).
    cbn [Js.split_aux].
    destruct (Js.breakOn newline (String c s)) as [[a b]|] eqn:E; [|reflexivity].
    apply breakOn_newline_length in E. simpl in E. f_equal. apply split_aux_fuel; lia.
Qed.

Lemma split_newline_nonempty (s : string) : Js.split newline s <> [].
Proof. rewrite split_newline_unfold. by destruct (Js.breakOn newline s) as [[a b]|]. Qed.

(** Splitting a text that grows: the complete lines stay, and the trailing
    partial line is split again with the new text behind it. *)
Lemma split_newline_app (s t : string) :
  Js.split newline (s ++ t)
  = (completeLines s ++ Js.split newline (List.last (Js.split newline s) "" ++ t))%list.
Proof.
  unfold completeLines.
  remember (String.length s) as n eqn:Hn.
  revert s Hn. induction n as [n IH] using lt_wf_ind. intros s Hn.
  rewrite (split_newline_unfold s).
  destruct (Js.breakOn newline s) as [[a b]|] eqn:E.
  - rewrite (split_newline_unfold (s ++ t)), (breakOn_newline_app_Some _ _ _ _ E).
    pose proof (breakOn_newline_length _ _ _ E) as Hlen.
    rewrite (IH (String.length b)) by (done || lia).
    pose proof (split_newline_nonempty b) as Hne.
    destruct (Js.split newline b) as [|x l]; [done|]. reflexivity.
  - reflexivity.
Qed.

(** *** The loop invariant *)

Lemma deliveredText_cons (r : Read) (reads : list Read) :
  deliveredText (r :: reads) = readText r ++ deliveredText reads.
Proof. reflexivity. Qed.

Lemma decoded_initial : decoded "" initialState.
Proof. repeat split; [constructor | discriminate]. Qed.

Section DecoderInvariant.

Variable JSON_parse : string -> option ApiResponse.

Lemma lineStep_of_quiet (st st' : StreamState) : quietStep st st' -> lineStep [] st st'.
Proof. intros (Hf & Hc & He). repeat split; [done | done |]. rewrite Hf. auto. Qed.

Lemma processLine_step (now : Z) (line : string) (st : StreamState) :
  lineStep [line] st (processLine JSON_parse false now line st).
Proof.
  unfold processLine.
  destruct (Js.startsWith "data: " line) eqn:Hp.
  - destruct (String.eqb (Js.drop 6 line) "[DONE]") eqn:Hd.
    + apply String.eqb_eq in Hd. apply startsWith_drop in Hp.
      change (String.length "data: ") with 6%nat in Hp. rewrite Hd in Hp.
      destruct st; simpl. repeat split.
      * exists []. by rewrite app_nil_r.
      * intros _. right. left. by rewrite Hp.
    + destruct (JSON_parse (Js.drop 6 line)) as [parsed|].
      * destruct (lineStep_of_quiet st (processChunk false now parsed st))
          as (Hc & He & Hf); [apply quiet_processChunk, quietStep_refl|].
        repeat split; [done | done |]. intros H. destruct (Hf H) as [?|[]]. by left.
      * repeat split; [exists []; by rewrite app_nil_r | auto].
  - repeat split; [exists []; by rewrite app_nil_r | auto].
Qed.

Lemma forLines_step (now : Z) (lines : list string) (st : StreamState) :
  lineStep lines st (forLines JSON_parse false now lines st).
Proof.
  revert st. induction lines as [|line lines IH]; intros st; simpl.
  - repeat split; [exists []; by rewrite app_nil_r | auto].
  - destruct (IH (processLine JSON_parse false now line st)) as (Hc & (evs & He & Hq) & Hf).
    destruct (processLine_step now line st) as (Hc1 & (evs1 & He1 & Hq1) & Hf1).
    repeat split.
    + congruence.
    + exists (evs1 ++ evs)%list. split; [by rewrite He, He1, app_assoc | by apply Forall_app].
    + intros H. destruct (Hf H) as [H1|H1]; [|by right; right].
      destruct (Hf1 H1) as [?|[<-|[]]]; [by left | by right; left].
Qed.

Lemma processRead_decoded (now : Z) (text new : string) (st : StreamState) :
  decoded text st -> decoded (text ++ new) (processRead JSON_parse false now new st).
Proof.
  intros (Hq & Hbuf & Hfin). unfold processRead.
  set (lines := Js.split newline (chunk st ++ new)).
  assert (Hsplit : Js.split newline (text ++ new) = (completeLines text ++ lines)%list).
  { rewrite split_newline_app. unfold lines. by rewrite Hbuf. }
  assert (Hne : lines <> []) by apply split_newline_nonempty.
  destruct (forLines_step now (removelast lines) (set_chunk (List.last lines "") st))
    as (Hc & (evs & He & Hq') & Hf).
  assert (Hev : events (set_chunk (List.last lines "") st) = events st) by by destruct st.
  assert (Hch : chunk (set_chunk (List.last lines "") st) = List.last lines "") by by destruct st.
  assert (Hsf : streamFinished (set_chunk (List.last lines "") st) = streamFinished st)
    by by destruct st.
  repeat split.
  - rewrite He, Hev. by apply Forall_app.
  - rewrite Hc, Hch, Hsplit.
    rewrite (app_removelast_last "" Hne) at 2. by rewrite app_assoc, last_last.
  - intros H. unfold completeLines. rewrite Hsplit, removelast_app by done.
    apply in_or_app. destruct (Hf H) as [H1|H1]; [left | by right].
    apply Hfin. by rewrite <- Hsf.
Qed.

(** Every way out of the read loop leaves [onComplete] uninvoked; the loop
    is left by [break] with the signal clear only at the end of the body,
    after every read before it delivered text with the signal clear. *)
Lemma readLoop_decoded (reads : list Read) (aborted : bool) (st st' : StreamState)
    (text : string) (exit : LoopExit) :
  decoded text st ->
  readLoop JSON_parse aborted reads st = (exit, st') ->
  Forall quietEvent (events st')
  /\ (exit = Broke false ->
      aborted = false
      /\ exists values done rest,
          reads = (values ++ done :: rest)%list
          /\ Forall (fun r => abortedAfter r = false /\ exists t, result r = ReadValue t) values
          /\ result done = ReadDone /\ abortedAfter done = false
          /\ decoded (text ++ deliveredText values) st').
Proof.
  revert aborted st text. induction reads as [|r reads IH]; intros aborted st text Hdec H.
  - simpl in H. destruct aborted; inversion H; subst; split; try apply Hdec; discriminate.
  - simpl in H. destruct aborted.
    { inversion H; subst. split; [apply Hdec | discriminate]. }
    destruct (result r) as [new| |e] eqn:Hr.
    + destruct (abortedAfter r) eqn:Ha.
      { inversion H; subst. split; [apply Hdec | discriminate]. }
      destruct (IH _ _ _ (processRead_decoded (now r) text new st Hdec) H) as [Hq Hexit].
      split; [done|]. intros ->. destruct (Hexit eq_refl) as (_ & values & d & rest & -> & Hall & Hd & Had & Hdec').
      split; [done|]. exists (r :: values), d, rest.
      split; [done|]. split; [constructor; eauto|]. split; [done|]. split; [done|].
      rewrite deliveredText_cons. unfold readText. rewrite Hr.
      by rewrite <- append_assoc.
    + inversion H; subst. split; [apply Hdec|]. intros Hb. inversion Hb as [Ha].
      split; [done|]. exists [], r, reads.
      split; [done|]. split; [constructor|]. split; [done|]. split; [done|].
      unfold deliveredText. simpl. by rewrite append_nil_r.
    + inversion H; subst. split; [apply Hdec | discriminate].
Qed.

End DecoderInvariant.

Lemma quiet_existsb (evs : list Event) :
  Forall quietEvent evs -> existsb isOnComplete evs = false.
Proof.
  induction 1 as [|e evs He _ IH]; [reflexivity|]. simpl. by rewrite He, IH.
Qed.

(** C4.  [onComplete] is invoked only if the response has a body, the abort
    signal was clear on entry and after every read, the body was read to its
    end, and one of the complete lines of the delivered text is the literal
    [data: [DONE]]. *)
Theorem onComplete_requires_DONE
    (JSON_parse : string -> option ApiResponse) (body : option (list Read))
    (entryAborted : bool) (startTime endTime : Z) :
  existsb isOnComplete
    (snd (handleStreamResponse JSON_parse body entryAborted startTime endTime)) = true ->
  entryAborted = false
  /\ exists reads values done rest,
      body = Some reads
      /\ reads = (values ++ done :: rest)%list
      /\ Forall (fun r => abortedAfter r = false /\ exists t, result r = ReadValue t) values
      /\ result done = ReadDone /\ abortedAfter done = false
      /\ In doneLine (completeLines (deliveredText values)).
Proof.
  unfold handleStreamResponse. destruct body as [reads|]; [|discriminate].
  destruct (readLoop JSON_parse entryAborted reads initialState) as [exit st] eqn:Hloop.
  destruct (readLoop_decoded JSON_parse _ _ _ _ "" _ decoded_initial Hloop) as [Hq Hexit].
  destruct exit as [[|]|e|]; simpl; intros H.
  - by rewrite (quiet_existsb _ Hq) in H.
  - destruct (Hexit eq_refl) as (-> & values & d & rest & -> & Hall & Hd & Had & _ & _ & Hfin).
    rewrite append_nil_l in Hfin.
    destruct (streamFinished st) eqn:Hsf.
    + split; [done|]. exists (values ++ d :: rest)%list, values, d, rest. auto 10.
    + simpl in H. by rewrite (quiet_existsb _ Hq) in H.
  - rewrite existsb_app, (quiet_existsb _ Hq) in H. discriminate.
  - by rewrite (quiet_existsb _ Hq) in H.
Qed.

Lemma onComplete_requires_DONE_witness :
  false = false
  /\ exists reads values done rest,
      Some [mkRead (ReadValue (doneLine ++ newline)) false 0; mkRead ReadDone false 0]
      = Some reads
      /\ reads = (values ++ done :: rest)%list
      /\ Forall (fun r => abortedAfter r = false /\ exists t, result r = ReadValue t) values
      /\ result done = ReadDone /\ abortedAfter done = false
      /\ In doneLine (completeLines (deliveredText values)).
Proof.
  apply (onComplete_requires_DONE (fun _ => None)
           (Some [mkRead (ReadValue (doneLine ++ newline)) false 0; mkRead ReadDone false 0])
           false 0 0).
  reflexivity.
Defined.

(** A body that ends right after [data: [DONE]], without the newline that
    completes the line, never completes. *)
Example truncated_DONE :
  handleStreamResponse (fun _ => None)
    (Some [mkRead (ReadValue doneLine) false 0; mkRead ReadDone false 0]) false 0 0
  = (Resolved (), []).
Proof. reflexivity. Qed.

(** ** C1: think tags across chunk boundaries *)

(** C1.  Delivered as the two deltas ["A"] and ["<think>B</think>C"], the
    content [A<think>B</think>C] reaches [onChunk] as [AAC]: the text before
    the opening tag is handed over when it arrives and once more when the tag
    is found in the buffer.  The reasoning callback receives [B]. *)
Theorem think_split_before_tag :
  appendAll ["A"; "<think>B</think>C"] = "A<think>B</think>C"
  /\ visibleText (events (decodeDeltas ["A"; "<think>B</think>C"])) = "AAC"
  /\ visibleText (events (decodeDeltas ["A"; "<think>B</think>C"])) <> "AC"
  /\ reasoningText (events (decodeDeltas ["A"; "<think>B</think>C"])) = "B".
Proof.
  split; [reflexivity|]. split; [vm_compute; reflexivity|].
  split; [|vm_compute; reflexivity].
  intros H. vm_compute in H. discriminate H.
Qed.

(** ** Every decomposition of the example *)

Lemma append_eq_nil (x y : string) : x ++ y = "" -> x = "" /\ y = "".
Proof. destruct x; [by intros <- | discriminate]. Qed.

Lemma appendAll_cons (s : string) (l : list string) : appendAll (s :: l) = s ++ appendAll l.
Proof. reflexivity. Qed.

Lemma appendAll_empty (d : list string) :
  Forall (fun s => s <> "") d -> appendAll d = "" -> d = [].
Proof.
  destruct 1 as [|s d Hs _]; [done|]. rewrite appendAll_cons.
  intros H. apply append_eq_nil in H as [? _]. done.
Qed.

Lemma allCuts_sound {S : Type} (step : S -> string -> S) (P : nat -> S -> bool)
    (rest : string) :
  forall (first : option nat) (st : S) (cur : string),
    allCuts step P first st cur rest = true ->
    forall (x : string) (d : list string),
      rest = x ++ appendAll d -> Forall (fun s => s <> "") d ->
      P (firstLength first (cur ++ x)) (fold_left step d (step st (cur ++ x))) = true.
Proof.
  induction rest as [|c rest IH]; intros first st cur H x d Hrest Hd.
  - symmetry in Hrest. apply append_eq_nil in Hrest as [-> Hnil].
    rewrite (appendAll_empty d Hd Hnil), append_nil_r. exact H.
  - cbn [allCuts] in H. apply andb_true_iff in H as [Hgrow Hcut].
    destruct x as [|c' x].
    + rewrite append_nil_l in Hrest. rewrite append_nil_r.
      destruct Hd as [|y d Hy Hd]; [discriminate|].
      destruct y as [|c' y]; [done|].
      rewrite appendAll_cons, append_cons in Hrest. inversion Hrest; subst.
      exact (IH _ _ _ Hcut y d eq_refl Hd).
    + rewrite append_cons in Hrest. inversion Hrest; subst.
      specialize (IH _ _ _ Hgrow x d eq_refl Hd).
      by rewrite append_assoc in IH.
Qed.

(** Cut into non-empty deltas, the content [A<think>B</think>C] is decoded
    as the specification says exactly when the first delta reaches past the opening
    tag; every cut before or inside the opening tag gives another visible
    text. *)
Theorem think_split_characterization (deltas : list string) :
  Forall (fun s => s <> "") deltas ->
  appendAll deltas = "A<think>B</think>C" ->
  (visibleText (events (decodeDeltas deltas)) = "AC"
   /\ reasoningText (events (decodeDeltas deltas)) = "B")
  <-> (8 <= String.length (hd "" deltas))%nat.
Proof.
  intros Hd Hall.
  destruct Hd as [|p d Hp Hd]; [discriminate|].
  destruct p as [|a p]; [done|].
  rewrite appendAll_cons, append_cons in Hall. inversion Hall as [[Ha Hrest]].
  assert (Hcuts : allCuts feed (fun n st => Bool.eqb (cleanSplit st) (8 <=? n)%nat)
                    None initialState "A" "<think>B</think>C" = true)
    by (vm_compute; reflexivity).
  pose proof (allCuts_sound _ _ _ _ _ _ Hcuts p d (eq_sym Hrest) Hd) as H.
  apply Bool.eqb_prop in H. cbn [firstLength] in H.
  change (fold_left feed d (feed initialState ("A" ++ p)))
    with (decodeDeltas (String "A" p :: d)) in H.
  change (String.length ("A" ++ p)) with (String.length (String "A" p)) in H.
  cbn [hd]. rewrite <- Nat.leb_le, <- H. unfold cleanSplit.
  rewrite andb_true_iff, !String.eqb_eq. reflexivity.
Qed.

(** ** The registry *)

Lemma wellFormed_empty : wellFormed emptyRegistry.
Proof. split; intros *; simpl; by rewrite lookup_empty. Qed.

Lemma wellFormed_register (requestId : string) (r : Registry) :
  wellFormed r -> wellFormed (fst (registerRequest requestId r)).
Proof.
  intros [Hinj Hlt]. split; simpl.
  - intros k1 k2 c. rewrite !lookup_insert.
    repeat case_decide; subst; intros H1 H2; simplify_eq; try done.
    + apply Hlt in H2. lia.
    + apply Hlt in H1. lia.
    + eauto.
  - intros k c. rewrite lookup_insert. case_decide; intros Hk; simplify_eq; [lia|].
    apply Hlt in Hk. lia.
Qed.

Lemma wellFormed_release (requestId : string) (r : Registry) :
  wellFormed r -> wellFormed (releaseRequest requestId r).
Proof.
  intros [Hinj Hlt]. split; simpl.
  - intros k1 k2 c. rewrite !lookup_delete.
    repeat case_decide; subst; intros H1 H2; simplify_eq. eauto.
  - intros k c. rewrite lookup_delete. case_decide; intros Hk; simplify_eq. eauto.
Qed.

Lemma wellFormed_abort (conversationId : option string) (r : Registry) :
  wellFormed r -> wellFormed (abort conversationId r).
Proof.
  intros Hwf. unfold abort. destruct (Js.truthy conversationId).
  - destruct (abortControllers r !! Js.orEmpty conversationId) eqn:E; [|done].
    apply (wellFormed_release (Js.orEmpty conversationId)) in Hwf.
    destruct Hwf as [Hinj Hlt]. split; simpl in *; eauto.
  - split; simpl; intros *; by rewrite lookup_empty.
Qed.

Lemma reachable_wellFormed (r : Registry) : reachable r -> wellFormed r.
Proof.
  induction 1;
    auto using wellFormed_empty, wellFormed_register, wellFormed_release, wellFormed_abort.
Qed.

(** C7.  In a well-formed registry (every registry the service reaches is
    one), [abort] with a conversation id removes
    that id's entry and aborts its controller, and leaves every other entry
    in place with its signal as it was; [abort] without an id (or with the
    empty string, which the service treats as no id) aborts every tracked
    controller and empties the map. *)
Theorem abort_frame (r : Registry) :
  wellFormed r ->
  (forall conversationId : string,
      conversationId <> "" ->
      let r' := abort (Some conversationId) r in
      abortControllers r' !! conversationId = None
      /\ (forall c, abortControllers r !! conversationId = Some c ->
                    signalAborted c r' = true)
      /\ (forall k, k <> conversationId ->
                    abortControllers r' !! k = abortControllers r !! k)
      /\ (forall k c, k <> conversationId -> abortControllers r !! k = Some c ->
                      signalAborted c r' = signalAborted c r))
  /\ (forall conversationId : option string,
      conversationId = None \/ conversationId = Some "" ->
      let r' := abort conversationId r in
      abortControllers r' = ∅
      /\ (forall k c, abortControllers r !! k = Some c -> signalAborted c r' = true)).
Proof.
  intros [Hinj _]. split.
  - intros cid Hcid r'. subst r'. unfold abort.
    assert (Ht : Js.truthy (Some cid) = true) by by destruct cid.
    rewrite Ht. simpl. destruct (abortControllers r !! cid) as [c0|] eqn:E; simpl.
    + split; [apply lookup_delete_eq|]. split; [|split].
      * intros c Hc. simplify_eq. unfold signalAborted. simpl.
        apply bool_decide_eq_true. set_solver.
      * intros k Hk. by rewrite lookup_delete_ne.
      * intros k c Hk Hc. unfold signalAborted. simpl. apply bool_decide_ext.
        assert (c <> c0) by (intros ->; by apply Hk, (Hinj k cid c0)).
        rewrite elem_of_union, elem_of_singleton.
        split; [intros [?|?]; done | by right].
    + by repeat split.
  - intros cid Hcid r'. subst r'.
    assert (Ht : Js.truthy cid = false) by by destruct Hcid as [-> | ->].
    unfold abort. rewrite Ht. simpl. split; [done|].
    intros k c Hc. unfold signalAborted. simpl. apply bool_decide_eq_true.
    apply elem_of_union_l, elem_of_map_img. eauto.
Qed.

Lemma abort_frame_witness :
  (forall conversationId : string,
      conversationId <> "" ->
      let r' := abort (Some conversationId) twoInFlight in
      abortControllers r' !! conversationId = None
      /\ (forall c, abortControllers twoInFlight !! conversationId = Some c ->
                    signalAborted c r' = true)
      /\ (forall k, k <> conversationId ->
                    abortControllers r' !! k = abortControllers twoInFlight !! k)
      /\ (forall k c, k <> conversationId -> abortControllers twoInFlight !! k = Some c ->
                      signalAborted c r' = signalAborted c twoInFlight))
  /\ (forall conversationId : option string,
      conversationId = None \/ conversationId = Some "" ->
      let r' := abort conversationId twoInFlight in
      abortControllers r' = ∅
      /\ (forall k c, abortControllers twoInFlight !! k = Some c ->
                      signalAborted c r' = true)).
Proof.
  apply (abort_frame twoInFlight).
  apply wellFormed_register, wellFormed_register, wellFormed_empty.
Defined.

Example abort_c1_keeps_c2 :
  let r' := abort (Some "c1") twoInFlight in
  abortControllers r' !! "c1" = None
  /\ abortControllers r' !! "c2" = Some 1%nat
  /\ signalAborted 0 r' = true
  /\ signalAborted 1 r' = false.
Proof. repeat split; vm_compute; reflexivity. Qed.

(** ** C10: the registry after [sendMessage] *)



(** ** The request body *)

(** With every parameter unset, the body for the local server still carries
    [reasoning_format]. *)
Lemma unset_body_has_reasoning_format :
  wireBody noJSON localConfig [] (unsetOptions (VBool true)) !! "reasoning_format"
  = Some (VStr "auto")
  /\ dom (wireBody noJSON localConfig [] (unsetOptions (VBool true)))
     <> ({["messages"; "stream"]} : gset string).
Proof.
  split; [vm_compute; reflexivity|].
  intros H.
  assert (Hin : "reasoning_format" ∈ dom (wireBody noJSON localConfig [] (unsetOptions (VBool true)))).
  { apply elem_of_dom. eexists. vm_compute. reflexivity. }
  rewrite H in Hin. set_solver.
Qed.

(** C3 (as amended).  With every generation and sampling parameter unset and
    no custom JSON, the body for a same-origin server has exactly the fields
    [messages], [stream] and [reasoning_format], and [model] when a model is
    selected; for an external provider the allow-list filter leaves
    [messages], [stream] when it is defined, and [model] when a model is
    selected. *)
Theorem unset_body_fields (JSON_parseValue : string -> option JsVal) (cfg : Config)
    (messages : list ChatMessage) (s : JsVal) :
  let body := wireBody JSON_parseValue cfg messages (unsetOptions s) in
  dom body
  = if isExternalApi (resolveBaseUrl cfg)
    then {["messages"]} ∪ (if isUndef s then ∅ else {["stream"]}) ∪ modelField cfg
    else {["messages"; "stream"; "reasoning_format"]} ∪ modelField cfg.
Proof.
  unfold wireBody, buildRequestBody, modelField.
  generalize (map messageValue
                 (injectSystemMessage cfg (List.filter keepMessage messages))).
  intros msgs. cbn [unsetOptions temperature max_tokens max_completion_tokens reasoning_effort
    max_context dynatemp_range dynatemp_exponent top_k top_p min_p xtc_probability
    xtc_threshold typ_p repeat_last_n repeat_penalty presence_penalty frequency_penalty
    dry_multiplier dry_base dry_allowed_length dry_penalty_last_n samplers custom
    timings_per_token stream setIfDefined isUndef negb truthyVal andb].
  generalize (Js.orEmpty (if modelSelectorEnabled cfg then selectedModelName cfg else None)).
  generalize (if disableReasoningFormat cfg then "none" else "auto").
  intros format name.
  destruct (isExternalApi (resolveBaseUrl cfg)), (modelSelectorEnabled cfg),
    (Js.truthy (selectedModelName cfg)); cbn [andb].
  all: try (rewrite !dom_insert_L, dom_empty_L; set_solver).
  all: destruct s; vm_compute; reflexivity.
Qed.

(** ** The allow-list filter *)

Lemma dom_assign (target : gmap string JsVal) (source : list (string * JsVal)) :
  dom (assign target source) = dom target ∪ list_to_set (source.*1).
Proof.
  revert target. induction source as [|[k v] source IH]; intros target; simpl.
  - set_solver.
  - unfold assign in *. simpl. rewrite IH, dom_insert_L. set_solver.
Qed.

Lemma filterExternal_dom (body : gmap string JsVal) :
  dom (filterExternal body) ⊆ list_to_set standardFields.
Proof.
  unfold filterExternal.
  set (params := List.filter _ _).
  assert (Hsub : dom (assign ∅ params) ⊆ list_to_set standardFields).
  { rewrite dom_assign, dom_empty_L. intros k. rewrite elem_of_union.
    intros [Hk|Hk]; [by apply elem_of_empty in Hk|].
    apply elem_of_list_to_set, list_elem_of_fmap in Hk as ([k' v] & -> & Hin).
    apply list_elem_of_In, filter_In in Hin as [Hin _].
    apply in_map_iff in Hin as (key & Heq & Hkey). inversion Heq; subst.
    apply elem_of_list_to_set, list_elem_of_In, Hkey. }
  destruct (isNum (-1) (getField (assign ∅ params) "max_tokens")); [|done].
  rewrite dom_delete_L. intros k Hk. apply elem_of_difference in Hk as [Hk _].
  by apply Hsub.
Qed.

Lemma filterExternal_max_tokens (body : gmap string JsVal) :
  filterExternal body !! "max_tokens" <> Some (VNum (-1)).
Proof.
  unfold filterExternal.
  set (filtered := assign ∅ _).
  destruct (isNum (-1) (getField filtered "max_tokens")) eqn:E.
  - by rewrite lookup_delete_eq.
  - intros H. unfold getField in E. rewrite H in E. discriminate.
Qed.

(** The body sent for the base URL [http://] is not filtered. *)
Lemma scheme_only_url_not_filtered :
  Js.startsWith "http://" "http://" = true
  /\ isExternalApi (resolveBaseUrl schemeOnlyConfig) = false
  /\ ~ (dom (wireBody noJSON schemeOnlyConfig [] (unsetOptions (VBool true)))
        ⊆ list_to_set standardFields).
Proof.
  split; [reflexivity|]. split; [reflexivity|].
  intros H.
  assert (Hin : "reasoning_format"
                ∈ dom (wireBody noJSON schemeOnlyConfig [] (unsetOptions (VBool true)))).
  { apply elem_of_dom. eexists. vm_compute. reflexivity. }
  apply H in Hin. vm_compute in Hin. set_solver.
Qed.

Lemma isExternalApi_prefix (u : string) :
  Js.startsWith "http://" u = true \/ Js.startsWith "https://" u = true ->
  isExternalApi u = true.
Proof.
  intros Hurl. unfold isExternalApi.
  destruct Hurl as [H|H]; apply startsWith_drop in H; rewrite H; reflexivity.
Qed.

(** The body of a request to an external provider. *)
Lemma wireBody_external (JSON_parseValue : string -> option JsVal) (cfg : Config)
    (messages : list ChatMessage) (o : Options) :
  isExternalApi (resolveBaseUrl cfg) = true ->
  dom (wireBody JSON_parseValue cfg messages o) ⊆ list_to_set standardFields
  /\ wireBody JSON_parseValue cfg messages o !! "max_tokens" <> Some (VNum (-1)).
Proof.
  intros Hext. unfold wireBody. rewrite Hext.
  split; [apply filterExternal_dom | apply filterExternal_max_tokens].
Qed.

(** C5 (as amended).  When the base URL, after [trim] and the removal of one
    trailing slash, begins with [http://] or [https://], the body sent holds
    only fields of the allow-list and never a [max_tokens] of [-1]. *)
Theorem external_body_filtered (JSON_parseValue : string -> option JsVal) (cfg : Config)
    (messages : list ChatMessage) (o : Options) :
  Js.startsWith "http://" (resolveBaseUrl cfg) = true
  \/ Js.startsWith "https://" (resolveBaseUrl cfg) = true ->
  let body := wireBody JSON_parseValue cfg messages o in
  dom body ⊆ list_to_set standardFields
  /\ body !! "max_tokens" <> Some (VNum (-1)).
Proof.
  intros Hurl. by apply wireBody_external, isExternalApi_prefix.
Qed.

Lemma external_body_filtered_witness :
  let body := wireBody noJSON providerConfig [mkMessage "user" (VStr "hi")] samplingOptions in
  dom body ⊆ list_to_set standardFields
  /\ body !! "max_tokens" <> Some (VNum (-1)).
Proof.
  apply (external_body_filtered noJSON providerConfig [mkMessage "user" (VStr "hi")]
           samplingOptions).
  right. reflexivity.
Defined.

Example provider_body_fields :
  dom (wireBody noJSON providerConfig [mkMessage "user" (VStr "hi")] samplingOptions)
  = ({["messages"; "model"; "stream"; "temperature"; "reasoning_effort"]} : gset string).
Proof. vm_compute. reflexivity. Qed.

(** ** Which configured URLs are external *)

Lemma startsWith_nil_r (p : string) : Js.startsWith p "" = true -> p = "".
Proof. by destruct p. Qed.

Lemma startsWith_cons (a b : ascii) (p s : string) :
  Js.startsWith (String a p) (String b s) = true <-> a = b /\ Js.startsWith p s = true.
Proof.
  cbn [Js.startsWith]. rewrite andb_true_iff, Ascii.eqb_eq. reflexivity.
Qed.

(** [trimEnd] keeps a prefix that ends in something other than white space. *)
Lemma trimEnd_prefix (p s : string) :
  Js.startsWith p s = true -> lastNonSpace p = true ->
  Js.startsWith p (Js.trimEnd s) = true.
Proof.
  revert s. induction p as [|a p IH]; intros s Hp Hlast; [discriminate|].
  destruct s as [|b s]; [discriminate|].
  apply startsWith_cons in Hp as [<- Hp]. cbn [Js.trimEnd].
  destruct p as [|a' p].
  - cbn [lastNonSpace] in Hlast. apply negb_true_iff in Hlast. rewrite Hlast.
    destruct (Js.trimEnd s); apply startsWith_cons; done.
  - specialize (IH s Hp Hlast).
    destruct (Js.trimEnd s) as [|c t]; [discriminate|].
    apply startsWith_cons. done.
Qed.

Lemma dropLast_prefix (p s : string) :
  Js.startsWith p s = true -> (String.length p < String.length s)%nat ->
  Js.startsWith p (Js.dropLast s) = true.
Proof.
  revert s. induction p as [|a p IH]; intros s Hp Hlen; [reflexivity|].
  destruct s as [|b s]; [discriminate|].
  apply startsWith_cons in Hp as [<- Hp]. simpl in Hlen.
  destruct s as [|c s]; [simpl in Hlen; lia|].
  change (Js.dropLast (String a (String c s))) with (String a (Js.dropLast (String c s))).
  apply startsWith_cons. split; [done|]. apply IH; [done | lia].
Qed.

Lemma startsWith_longer (p s : string) :
  Js.startsWith p s = true -> s <> p -> (String.length p < String.length s)%nat.
Proof.
  intros Hp Hne. apply startsWith_drop in Hp.
  destruct (Js.drop (String.length p) s) as [|c t] eqn:E.
  - rewrite append_nil_r in Hp. done.
  - rewrite Hp, length_append. simpl. lia.
Qed.

(** A configured URL that begins with a scheme prefix, and is more than the
    prefix, still begins with it when [sendMessage] is done with it. *)
Lemma resolveBaseUrl_prefix (cfg : Config) (u p : string) :
  apiBaseUrl cfg = Some u ->
  p = "http://" \/ p = "https://" ->
  Js.startsWith p u = true -> Js.trim u <> p ->
  Js.startsWith p (resolveBaseUrl cfg) = true.
Proof.
  intros Hu Hscheme Hp Hne. unfold resolveBaseUrl. rewrite Hu. cbn [Js.orEmpty].
  assert (Ht : Js.startsWith p (Js.trim u) = true).
  { unfold Js.trim.
    assert (Hstart : Js.trimStart u = u).
    { destruct Hscheme as [-> | ->]; apply startsWith_drop in Hp; rewrite Hp; reflexivity. }
    rewrite Hstart. apply trimEnd_prefix; [done|].
    destruct Hscheme as [-> | ->]; reflexivity. }
  destruct (Js.isEmpty (Js.trim u)) eqn:Hempty.
  { destruct (Js.trim u); [|discriminate]. apply startsWith_nil_r in Ht.
    destruct Hscheme; congruence. }
  destruct (negb (String.eqb (Js.trim u) ".") && Js.endsWith "/" (Js.trim u)); [|done].
  apply dropLast_prefix; [done|]. by apply startsWith_longer.
Qed.

(** The same on the URL as configured: a base URL that begins with
    [http://] or [https://] and, white space aside, is more than that
    prefix. *)
Corollary external_body_filtered_configured
    (JSON_parseValue : string -> option JsVal) (cfg : Config)
    (messages : list ChatMessage) (o : Options) (u : string) :
  apiBaseUrl cfg = Some u ->
  Js.startsWith "http://" u = true \/ Js.startsWith "https://" u = true ->
  Js.trim u <> "http://" -> Js.trim u <> "https://" ->
  let body := wireBody JSON_parseValue cfg messages o in
  dom body ⊆ list_to_set standardFields
  /\ body !! "max_tokens" <> Some (VNum (-1)).
Proof.
  intros Hu Hscheme Hhttp Hhttps. apply wireBody_external, isExternalApi_prefix.
  destruct Hscheme as [H|H]; [left | right];
    eapply resolveBaseUrl_prefix; eauto.
Qed.

(** ** The retry loop *)

Lemma getField_delete_eq (body : gmap string JsVal) (k : string) :
  getField (delete k body) k = VUndef.
Proof. unfold getField. by rewrite lookup_delete_eq. Qed.

Lemma getField_delete_ne (body : gmap string JsVal) (k k' : string) :
  k <> k' -> getField (delete k body) k' = getField body k'.
Proof. intros H. unfold getField. by rewrite lookup_delete_ne. Qed.

Lemma getField_insert_ne (body : gmap string JsVal) (k k' : string) (v : JsVal) :
  k <> k' -> getField (<[k := v]> body) k' = getField body k'.
Proof. intros H. unfold getField. by rewrite lookup_insert_ne. Qed.


Section RetryLoop.

Variable fetch : nat -> gmap string JsVal -> FetchResult.


Lemma fetchLoop_step (remaining attempts : nat) (body : gmap string JsVal)
    (response : option HttpResponse) (sent0 : list (gmap string JsVal)) :
  fetchLoop fetch (S remaining) attempts body response sent0
  = match fetch (S attempts) body with
    | Failed e => mkLoop (inl e) body (sent0 ++ [body])%list
    | Fulfilled resp =>
        if ok resp then mkLoop (inr (Some resp)) body (sent0 ++ [body])%list
        else if status resp =? 400 then
          let '(body', retrying) := retryFixes (bodyText resp) body in
          if retrying
          then fetchLoop fetch remaining (S attempts) body' (Some resp) (sent0 ++ [body])%list
          else mkLoop (inr (Some resp)) body' (sent0 ++ [body])%list
        else mkLoop (inr (Some resp)) body (sent0 ++ [body])%list
    end.
Proof. reflexivity. Qed.

End RetryLoop.

Lemma sendMessage_sent (P : Platform) (cfg : Config) (messages : list ChatMessage)
    (o : Options) (conversationId : option string) (r : Registry) :
  sent (sendMessage P cfg messages o conversationId r)
  = lr_sent (fetchLoop (fetch P) maxAttempts 0
               (wireBody (JSON_parseValue P) cfg messages o) None []).
Proof.
  unfold sendMessage, tryBlock, wireBody.
  destruct (registerRequest (requestKey conversationId) r) as [r1 c].
  set (loop := fetchLoop _ _ _ _ _ _).
  destruct (lr_response loop) as [e|response]; simpl.
  - by destruct (String.eqb (err_name e) "AbortError").
  - destruct (negb (isSome response) || negb (ok _)); simpl.
    + by destruct (String.eqb _ "AbortError").
    + destruct (truthyVal (stream o)).
      * destruct (handleStreamResponse _ _ _ _ _) as [[v|e|] evs]; simpl; try reflexivity.
        by destruct (String.eqb (err_name e) "AbortError").
      * by destruct (handleNonStreamResponse _ _ _ _) as [p evs].
Qed.



(** ** Empty responses *)




Lemma space_not_angle (c : ascii) : Js.isSpace c = true -> Ascii.eqb "<" c = false.
Proof. destruct c as [[] [] [] [] [] [] [] []]; (reflexivity || discriminate). Qed.






(** * Further properties of the service *)

(** ** The decoder, step by step *)

(** [processChunk] is its six steps in sequence. *)
Lemma processChunk_steps (aborted : bool) (now : Z) (parsed : ApiResponse) (st : StreamState) :
  processChunk aborted now parsed st
  = toolStep aborted parsed
      (reasoningStep aborted parsed
         (contentStep aborted parsed
            (noteTimings now parsed
               (reportModel parsed (notifyFirstValidChunk aborted parsed st))))).
Proof. reflexivity. Qed.

Lemma countB_snoc (f : Event -> bool) (evs : list Event) (e : Event) :
  countB f (evs ++ [e]) = (countB f evs + Nat.b2n (f e))%nat.
Proof.
  unfold countB. rewrite List.filter_app, length_app. simpl. by destruct (f e).
Qed.

Lemma existsb_snoc (f : Event -> bool) (evs : list Event) (e : Event) :
  existsb f (evs ++ [e]) = existsb f evs || f e.
Proof. rewrite existsb_app. simpl. by rewrite orb_false_r. Qed.

Lemma visibleText_snoc (evs : list Event) (e : Event) :
  visibleText (evs ++ [e]) = visibleText evs ++ chunkOf e.
Proof.
  induction evs as [|e' evs IH].
  - destruct e; simpl; by rewrite ?append_nil_r.
  - destruct e'; simpl; rewrite ?IH; try reflexivity. by rewrite append_assoc.
Qed.

Lemma reasoningText_snoc (evs : list Event) (e : Event) :
  reasoningText (evs ++ [e]) = reasoningText evs ++ reasoningOf e.
Proof.
  induction evs as [|e' evs IH].
  - destruct e; simpl; by rewrite ?append_nil_r.
  - destruct e'; simpl; rewrite ?IH; try reflexivity. by rewrite append_assoc.
Qed.

Lemma lastToolChunk_snoc (evs : list Event) (e : Event) :
  lastToolChunk (evs ++ [e])
  = match e with OnToolCallChunk calls => Some calls | _ => lastToolChunk evs end.
Proof.
  induction evs as [|e' evs IH]; [by destruct e|].
  simpl. rewrite IH. by destruct e.
Qed.

Lemma callsAfter_snoc (acc : list ToolCall * list ToolCall) (evs : list Event) (e : Event) :
  callsAfter acc (evs ++ [e]) = callsStep (callsAfter acc evs) e.
Proof. unfold callsAfter. by rewrite fold_left_app. Qed.

Lemma callsOk_app (acc : list ToolCall * list ToolCall) (evs1 evs2 : list Event) :
  callsOk acc (evs1 ++ evs2) <-> callsOk acc evs1 /\ callsOk (callsAfter acc evs1) evs2.
Proof.
  revert acc. induction evs1 as [|e evs1 IH]; intros acc; simpl; [tauto|].
  rewrite IH. tauto.
Qed.

Lemma callsOk_snoc (acc : list ToolCall * list ToolCall) (evs : list Event) (e : Event) :
  callsOk acc (evs ++ [e]) <-> callsOk acc evs /\ okEvent (callsAfter acc evs) e.
Proof. rewrite callsOk_app. simpl. tauto. Qed.

Lemma prefix_take_all {A} (l k : list A) (n : nat) :
  l `prefix_of` take n k -> l `prefix_of` take (length k) k.
Proof. intros H. rewrite firstn_all. etrans; [exact H|]. apply prefix_take. Qed.

Lemma prefix_of_take {A} (l k : list A) (n : nat) :
  l `prefix_of` take n k -> l `prefix_of` k.
Proof. intros H. etrans; [exact H|]. apply prefix_take. Qed.

Ltac st_cbn :=
  cbn [aggregatedContent fullReasoningContent aggregatedToolCalls lastTimings streamFinished
       modelEmitted firstValidChunkEmitted toolCallIndexOffset hasOpenToolCallBatch thinkBuffer
       insideThinkTag firstTokenTime usageData chunk events
       set_aggregatedContent set_fullReasoningContent set_aggregatedToolCalls set_lastTimings
       set_streamFinished set_modelEmitted set_firstValidChunkEmitted set_toolCallIndexOffset
       set_hasOpenToolCallBatch set_thinkBuffer set_insideThinkTag set_firstTokenTime
       set_usageData set_chunk emit negb andb orb
       isOnModel isOnFirstValidChunk isOnComplete isOnError chunkOf reasoningOf Nat.b2n
       callsStep okEvent fst snd] in *.

Ltac ev_rewrite :=
  rewrite ?countB_snoc, ?existsb_snoc, ?visibleText_snoc, ?reasoningText_snoc,
    ?lastToolChunk_snoc, ?callsOk_snoc, ?callsAfter_snoc; st_cbn;
  rewrite ?append_nil_r, ?Nat.add_0_r, ?orb_false_r.

Ltac orderly_step :=
  let H := fresh "H" in
  intros H; destruct H; st_cbn;
  repeat match goal with
         | |- context [negb ?b] => is_var b; destruct b
         | |- context [if ?b then _ else _] => is_var b; destruct b
         | |- context [?b && _] => is_var b; destruct b
         end; st_cbn;
  repeat (case_match; st_cbn);
  simplify_eq; constructor; st_cbn; ev_rewrite; simplify_eq;
  try done; try lia; try congruence;
  repeat match goal with
         | H : ?b = ?b -> _ |- _ => specialize (H eq_refl)
         | H : (callsAfter _ _).2 = _ |- _ => rewrite H
         end;
  subst; rewrite ?firstn_all; try done; eauto using prefix_take_all, prefix_of_take.

Lemma orderly_initial : orderly initialState.
Proof. constructor; try done. Qed.

Lemma orderly_notifyFirstValidChunk (parsed : ApiResponse) (st : StreamState) :
  orderly st -> orderly (notifyFirstValidChunk false parsed st).
Proof. unfold notifyFirstValidChunk. destruct st. orderly_step. Qed.

Lemma orderly_reportModel (parsed : ApiResponse) (st : StreamState) :
  orderly st -> orderly (reportModel parsed st).
Proof. unfold reportModel. destruct st. orderly_step. Qed.

Lemma orderly_noteTimings (now : Z) (parsed : ApiResponse) (st : StreamState) :
  orderly st -> orderly (noteTimings now parsed st).
Proof. unfold noteTimings. destruct st. orderly_step. Qed.

Lemma orderly_finalizeOpenToolCallBatch (st : StreamState) :
  orderly st -> orderly (finalizeOpenToolCallBatch st).
Proof. unfold finalizeOpenToolCallBatch. destruct st. orderly_step. Qed.

Lemma orderly_reasoningStep (parsed : ApiResponse) (st : StreamState) :
  orderly st -> orderly (reasoningStep false parsed st).
Proof. unfold reasoningStep, finalizeOpenToolCallBatch. destruct st. orderly_step. Qed.

Lemma orderly_contentStep (parsed : ApiResponse) (st : StreamState) :
  orderly st -> orderly (contentStep false parsed st).
Proof.
  unfold contentStep, processContent, finalizeOpenToolCallBatch. destruct st. orderly_step.
Qed.

Lemma mergeDelta_length_index (indexOffset : nat) (result : list ToolCall) (d : ToolCallDelta) :
  (deltaIndex indexOffset result d < length (mergeDelta indexOffset result d))%nat.
Proof. unfold mergeDelta. rewrite length_alter, length_app, length_replicate. lia. Qed.

Lemma mergeDelta_grows (indexOffset : nat) (result : list ToolCall) (d : ToolCallDelta) :
  (length result <= length (mergeDelta indexOffset result d))%nat.
Proof. unfold mergeDelta. rewrite length_alter, length_app. lia. Qed.

Lemma merge_fold_length (indexOffset : nat) (ds : list ToolCallDelta) (result : list ToolCall) :
  (length result <= length (fold_left (mergeDelta indexOffset) ds result))%nat.
Proof.
  revert result. induction ds as [|d ds IH]; intros result; simpl; [lia|].
  pose proof (IH (mergeDelta indexOffset result d)).
  pose proof (mergeDelta_grows indexOffset result d). lia.
Qed.

Lemma mergeToolCallDeltas_length (existing : list ToolCall) (ds : list ToolCallDelta)
    (indexOffset : nat) :
  (length existing <= length (mergeToolCallDeltas existing ds indexOffset))%nat.
Proof.
  unfold mergeToolCallDeltas. rewrite map_copyCall. apply merge_fold_length.
Qed.

Lemma mergeToolCallDeltas_nonempty (existing : list ToolCall) (d : ToolCallDelta)
    (ds : list ToolCallDelta) (indexOffset : nat) :
  (0 < length (mergeToolCallDeltas existing (d :: ds) indexOffset))%nat.
Proof.
  unfold mergeToolCallDeltas. rewrite map_copyCall. simpl.
  pose proof (merge_fold_length indexOffset ds (mergeDelta indexOffset existing d)).
  pose proof (mergeDelta_length_index indexOffset existing d). lia.
Qed.

Lemma deltaIndex_ge (indexOffset : nat) (result : list ToolCall) (d : ToolCallDelta) (n : nat) :
  (n <= indexOffset)%nat -> (n <= length result)%nat ->
  (n <= deltaIndex indexOffset result d)%nat.
Proof. intros. unfold deltaIndex. repeat case_match; lia. Qed.

Lemma mergeDelta_take (indexOffset : nat) (result : list ToolCall) (d : ToolCallDelta) (n : nat) :
  (n <= indexOffset)%nat -> (n <= length result)%nat ->
  take n (mergeDelta indexOffset result d) = take n result.
Proof.
  intros Hoff Hlen. unfold mergeDelta.
  rewrite take_alter_ge by by apply deltaIndex_ge.
  by rewrite take_app_le.
Qed.

Lemma merge_fold_take (indexOffset : nat) (ds : list ToolCallDelta) (result : list ToolCall)
    (n : nat) :
  (n <= indexOffset)%nat -> (n <= length result)%nat ->
  take n (fold_left (mergeDelta indexOffset) ds result) = take n result.
Proof.
  intros Hoff. revert result. induction ds as [|d ds IH]; intros result Hlen; simpl; [done|].
  rewrite IH.
  - by apply mergeDelta_take.
  - pose proof (mergeDelta_grows indexOffset result d). lia.
Qed.

Lemma mergeToolCallDeltas_take (existing : list ToolCall) (ds : list ToolCallDelta)
    (indexOffset n : nat) :
  (n <= indexOffset)%nat -> (n <= length existing)%nat ->
  take n (mergeToolCallDeltas existing ds indexOffset) = take n existing.
Proof.
  intros. unfold mergeToolCallDeltas. rewrite map_copyCall. by apply merge_fold_take.
Qed.

Lemma snapshot_nonempty (calls : list ToolCall) :
  (0 < length calls)%nat -> snapshot calls = Some calls.
Proof. destruct calls; simpl; [lia|done]. Qed.

Lemma orderly_toolStep (parsed : ApiResponse) (st : StreamState) :
  orderly st -> orderly (toolStep false parsed st).
Proof.
  unfold toolStep, processToolCallDelta.
  destruct (chunkToolCalls parsed) as [[|d ds]|]; try done.
  destruct st as [ac fr calls lt sf me fv off ho tb it ft ud ch evs]. intros []. st_cbn.
  pose proof (mergeToolCallDeltas_nonempty calls d ds off) as Hpos.
  pose proof (mergeToolCallDeltas_length calls (d :: ds) off) as Hlen.
  destruct (Nat.eqb_spec (length (mergeToolCallDeltas calls (d :: ds) off)) 0) as [H0|_]; [lia|].
  constructor; st_cbn; ev_rewrite; try done; try lia.
  - by rewrite snapshot_nonempty.
  - split; [done|]. etrans; [exact ord_settled0|].
    rewrite <- (mergeToolCallDeltas_take calls (d :: ds) off off) by done. apply prefix_take.
  - by rewrite mergeToolCallDeltas_take.
Qed.

Lemma orderly_processChunk (now : Z) (parsed : ApiResponse) (st : StreamState) :
  orderly st -> orderly (processChunk false now parsed st).
Proof.
  intros H. rewrite processChunk_steps.
  apply orderly_toolStep, orderly_reasoningStep, orderly_contentStep, orderly_noteTimings,
    orderly_reportModel, orderly_notifyFirstValidChunk, H.
Qed.

Lemma orderly_set_streamFinished (b : bool) (st : StreamState) :
  orderly st -> orderly (set_streamFinished b st).
Proof. destruct st. intros []. by constructor. Qed.

Lemma orderly_set_chunk (s : string) (st : StreamState) :
  orderly st -> orderly (set_chunk s st).
Proof. destruct st. intros []. by constructor. Qed.

Section DecoderOrder.

Variable JSON_parse : string -> option ApiResponse.

Lemma orderly_processLine (now : Z) (line : string) (st : StreamState) :
  orderly st -> orderly (processLine JSON_parse false now line st).
Proof.
  intros H. unfold processLine. repeat case_match; try done.
  - by apply orderly_set_streamFinished.
  - by apply orderly_processChunk.
Qed.

Lemma orderly_forLines (now : Z) (lines : list string) (st : StreamState) :
  orderly st -> orderly (forLines JSON_parse false now lines st).
Proof.
  revert st. induction lines as [|line lines IH]; intros st H; simpl; [done|].
  by apply IH, orderly_processLine.
Qed.

Lemma orderly_processRead (now : Z) (text : string) (st : StreamState) :
  orderly st -> orderly (processRead JSON_parse false now text st).
Proof. intros H. unfold processRead. by apply orderly_forLines, orderly_set_chunk. Qed.

Lemma orderly_readLoop (reads : list Read) (aborted : bool) (st : StreamState) :
  orderly st -> orderly (readLoop JSON_parse aborted reads st).2.
Proof.
  revert aborted st. induction reads as [|r reads IH]; intros aborted st H.
  - by destruct aborted.
  - destruct aborted; [done|]. cbn [readLoop].
    destruct (result r); [|done..].
    destruct (abortedAfter r) eqn:E; [done|].
    by apply IH, orderly_processRead.
Qed.

End DecoderOrder.

Lemma countB_none (f : Event -> bool) (evs : list Event) :
  existsb f evs = false -> countB f evs = 0%nat.
Proof.
  unfold countB. induction evs as [|e evs IH]; [done|]. simpl.
  destruct (f e); [done|]. exact IH.
Qed.

Lemma existsb_In (f : Event -> bool) (evs : list Event) (e : Event) :
  In e evs -> f e = true -> existsb f evs = true.
Proof. intros Hin He. apply existsb_exists. eauto. Qed.

Lemma existsb_terminal (evs : list Event) :
  existsb isOnComplete evs = false -> existsb isOnError evs = false ->
  existsb terminal evs = false.
Proof.
  induction evs as [|e evs IH]; [done|]. simpl. unfold terminal at 1.
  intros [-> H1]%orb_false_iff [-> H2]%orb_false_iff. by apply IH.
Qed.

Lemma finalizeStream_events (startTime endTime : Z) (st : StreamState) :
  exists timings,
    events (finalizeStream startTime endTime st)
    = (events st
       ++ [OnComplete (aggregatedContent st)
             (if Js.isEmpty (fullReasoningContent st) then None
              else Some (fullReasoningContent st))
             timings (snapshot (aggregatedToolCalls st))])%list.
Proof.
  unfold finalizeStream, finalizeOpenToolCallBatch.
  destruct st as [ac fr calls lt sf me fv off ho tb it ft ud ch evs]. st_cbn.
  assert ((if (0 <? length calls)%nat then Some calls else None) = snapshot calls) as Hs
    by by destruct calls.
  destruct ho; st_cbn; rewrite Hs; destruct ud, lt; st_cbn; eauto.
Qed.

Section StreamOutcome.

Variable JSON_parse : string -> option ApiResponse.
Variables (reads : list Read) (entryAborted : bool) (startTime endTime : Z).

Let out : Settled unit * list Event :=
  handleStreamResponse JSON_parse (Some reads) entryAborted startTime endTime.

(** The trace of [handleStreamResponse] is the trace of the loop, followed by
    at most one of [onComplete] and [onError]. *)
Lemma handleStreamResponse_trace :
  exists st final,
    orderly st /\ out.2 = (events st ++ final)%list
    /\ (final = [] /\ (forall err, out.1 <> Rejected err)
        \/ (exists timings,
              final = [OnComplete (aggregatedContent st)
                         (if Js.isEmpty (fullReasoningContent st) then None
                          else Some (fullReasoningContent st))
                         timings (snapshot (aggregatedToolCalls st))]
              /\ out.1 = Resolved ())
        \/ (exists err, final = [OnError err] /\ out.1 = Rejected err)).
Proof.
  subst out. unfold handleStreamResponse.
  pose proof (orderly_readLoop JSON_parse reads entryAborted initialState orderly_initial) as Hord.
  destruct (readLoop JSON_parse entryAborted reads initialState) as [exit st].
  exists st. cbn [snd] in Hord.
  destruct exit as [[|]|e|].
  - exists []. rewrite app_nil_r. split_and!; [done..|]. left. by split.
  - destruct (streamFinished st).
    + destruct (finalizeStream_events startTime endTime st) as [timings Hev].
      eexists. split_and!; [done|exact Hev|]. right; left. by exists timings.
    + exists []. rewrite app_nil_r. split_and!; [done..|]. left. by split.
  - exists [OnError e]. split_and!; [done..|]. right; right. by exists e.
  - exists []. rewrite app_nil_r. split_and!; [done..|]. left. by split.
Qed.

(** X1.  What [onComplete] receives is what was streamed: its content is the
    concatenation of the texts passed to [onChunk], its reasoning the
    concatenation of the texts passed to [onReasoningChunk] (absent when that
    is empty), and its tool calls are the payload of the last
    [onToolCallChunk] (absent when there was none). *)
Theorem onComplete_is_streamed_text (content : string) (reasoning : option string)
    (timings : option Timings) (toolCalls : option (list ToolCall)) :
  In (OnComplete content reasoning timings toolCalls) out.2 ->
  content = visibleText out.2
  /\ reasoning = (if Js.isEmpty (reasoningText out.2) then None
                  else Some (reasoningText out.2))
  /\ toolCalls = lastToolChunk out.2.
Proof.
  destruct handleStreamResponse_trace as (st & final & Hord & -> & Hfinal).
  destruct Hord. intros Hin. apply in_app_or in Hin as [Hin|Hin].
  { by rewrite (existsb_In isOnComplete _ _ Hin) in ord_complete0. }
  destruct Hfinal as [[-> _]|[(t & -> & _)|(err & -> & _)]]; [done| |by destruct Hin as [|[]]].
  destruct Hin as [Heq|[]]. simplify_eq.
  rewrite visibleText_snoc, reasoningText_snoc, lastToolChunk_snoc. simpl.
  rewrite !append_nil_r, <- ord_content0, <- ord_reasoning0.
  by split_and!.
Qed.

(** X2.  The callback discipline of the streaming path: [onModel] and
    [onFirstValidChunk] are invoked at most once; at most one of
    [onComplete] and [onError] is invoked, at most once, and it is the last
    callback; the promise rejects with an error exactly if [onError] was
    invoked with it, and [onComplete] is invoked only when it resolves. *)
Theorem stream_callback_discipline :
  (countB isOnModel out.2 <= 1)%nat
  /\ (countB isOnFirstValidChunk out.2 <= 1)%nat
  /\ (countB terminal out.2 <= 1)%nat
  /\ (forall e, In e out.2 -> terminal e = true -> last out.2 = Some e)
  /\ (forall err, out.1 = Rejected err <-> In (OnError err) out.2)
  /\ (forall content reasoning timings toolCalls,
        In (OnComplete content reasoning timings toolCalls) out.2 -> out.1 = Resolved ()).
Proof.
  destruct handleStreamResponse_trace as (st & final & Hord & -> & Hfinal).
  destruct Hord.
  pose proof (existsb_terminal _ ord_complete0 ord_error0) as Hterm.
  assert (Hquiet : forall e, In e (events st) -> terminal e = false).
  { intros e Hin. destruct (terminal e) eqn:E; [|done].
    by rewrite (existsb_In terminal _ _ Hin E) in Hterm. }
  destruct Hfinal as [[-> Hres]|[(t & -> & Hres)|(err & -> & Hres)]];
    rewrite ?app_nil_r, ?countB_snoc, ?last_snoc, ?ord_model0, ?ord_first0,
      ?(countB_none _ _ Hterm); simpl.
  - split_and!.
    + destruct (modelEmitted st); simpl; lia.
    + destruct (firstValidChunkEmitted st); simpl; lia.
    + lia.
    + intros e Hin He. by rewrite (Hquiet e Hin) in He.
    + intros err. split; [by intros ?%Hres|].
      intros Hin. by rewrite (existsb_In isOnError _ _ Hin) in ord_error0.
    + intros c r t tc Hin. by rewrite (existsb_In isOnComplete _ _ Hin) in ord_complete0.
  - split_and!.
    + destruct (modelEmitted st); simpl; lia.
    + destruct (firstValidChunkEmitted st); simpl; lia.
    + lia.
    + intros e [Hin|[<-|[]]]%in_app_or He; [|done]. by rewrite (Hquiet e Hin) in He.
    + intros err. rewrite Hres. split; [done|].
      intros [Hin|[?|[]]]%in_app_or; [|done].
      by rewrite (existsb_In isOnError _ _ Hin) in ord_error0.
    + done.
  - split_and!.
    + destruct (modelEmitted st); simpl; lia.
    + destruct (firstValidChunkEmitted st); simpl; lia.
    + lia.
    + intros e [Hin|[<-|[]]]%in_app_or He; [|done]. by rewrite (Hquiet e Hin) in He.
    + intros err'. rewrite Hres. split.
      * intros [= ->]. apply in_or_app. right. by left.
      * intros [Hin|[?|[]]]%in_app_or; [|by simplify_eq].
        by rewrite (existsb_In isOnError _ _ Hin) in ord_error0.
    + intros c r t tc [Hin|[?|[]]]%in_app_or; [|done].
      by rewrite (existsb_In isOnComplete _ _ Hin) in ord_complete0.
Qed.

End StreamOutcome.

Lemma onComplete_is_streamed_text_witness :
  In (OnComplete "Hi" None None None) (handleStreamResponse parseSample (Some hiBody) false 0 0).2
  /\ "Hi" = visibleText (handleStreamResponse parseSample (Some hiBody) false 0 0).2
  /\ None = (if Js.isEmpty (reasoningText (handleStreamResponse parseSample (Some hiBody) false 0 0).2)
             then None
             else Some (reasoningText (handleStreamResponse parseSample (Some hiBody) false 0 0).2))
  /\ None = lastToolChunk (handleStreamResponse parseSample (Some hiBody) false 0 0).2.
Proof.
  assert (In (OnComplete "Hi" None None None)
            (handleStreamResponse parseSample (Some hiBody) false 0 0).2) as Hin.
  { vm_compute. right. right. by left. }
  split; [exact Hin|].
  exact (onComplete_is_streamed_text parseSample hiBody false 0 0 "Hi" None None None Hin).
Defined.

(** ** The transport may cut the body anywhere *)

Ltac commute_step :=
  st_cbn;
  repeat match goal with
         | |- context [negb ?b] => is_var b; destruct b
         | |- context [if ?b then _ else _] => is_var b; destruct b
         | |- context [?b && _] => is_var b; destruct b
         end; st_cbn;
  repeat (case_match; st_cbn); simplify_eq; try reflexivity.

Lemma notifyFirstValidChunk_set_chunk (aborted : bool) (parsed : ApiResponse) (s : string)
    (st : StreamState) :
  notifyFirstValidChunk aborted parsed (set_chunk s st)
  = set_chunk s (notifyFirstValidChunk aborted parsed st).
Proof. unfold notifyFirstValidChunk. destruct st. commute_step. Qed.

Lemma reportModel_set_chunk (parsed : ApiResponse) (s : string) (st : StreamState) :
  reportModel parsed (set_chunk s st) = set_chunk s (reportModel parsed st).
Proof. unfold reportModel. destruct st. commute_step. Qed.

Lemma noteTimings_set_chunk (now : Z) (parsed : ApiResponse) (s : string) (st : StreamState) :
  noteTimings now parsed (set_chunk s st) = set_chunk s (noteTimings now parsed st).
Proof. unfold noteTimings. destruct st. commute_step. Qed.

Lemma contentStep_set_chunk (aborted : bool) (parsed : ApiResponse) (s : string)
    (st : StreamState) :
  contentStep aborted parsed (set_chunk s st) = set_chunk s (contentStep aborted parsed st).
Proof.
  unfold contentStep, processContent, finalizeOpenToolCallBatch. destruct st. commute_step.
Qed.

Lemma reasoningStep_set_chunk (aborted : bool) (parsed : ApiResponse) (s : string)
    (st : StreamState) :
  reasoningStep aborted parsed (set_chunk s st) = set_chunk s (reasoningStep aborted parsed st).
Proof. unfold reasoningStep, finalizeOpenToolCallBatch. destruct st. commute_step. Qed.

Lemma toolStep_set_chunk (aborted : bool) (parsed : ApiResponse) (s : string)
    (st : StreamState) :
  toolStep aborted parsed (set_chunk s st) = set_chunk s (toolStep aborted parsed st).
Proof. unfold toolStep, processToolCallDelta. destruct st. commute_step. Qed.

Lemma processChunk_set_chunk (aborted : bool) (now : Z) (parsed : ApiResponse) (s : string)
    (st : StreamState) :
  processChunk aborted now parsed (set_chunk s st)
  = set_chunk s (processChunk aborted now parsed st).
Proof.
  rewrite !processChunk_steps.
  by rewrite notifyFirstValidChunk_set_chunk, reportModel_set_chunk, noteTimings_set_chunk,
    contentStep_set_chunk, reasoningStep_set_chunk, toolStep_set_chunk.
Qed.

Lemma set_chunk_set_chunk (s t : string) (st : StreamState) :
  set_chunk t (set_chunk s st) = set_chunk t st.
Proof. by destruct st. Qed.

Lemma set_streamFinished_set_chunk (b : bool) (s : string) (st : StreamState) :
  set_streamFinished b (set_chunk s st) = set_chunk s (set_streamFinished b st).
Proof. by destruct st. Qed.

Lemma removelast_app_ne {A} (l1 l2 : list A) :
  l2 <> [] -> removelast (l1 ++ l2) = (l1 ++ removelast l2)%list.
Proof. intros H. by apply removelast_app. Qed.

Lemma List_last_app {A} (l1 l2 : list A) (d : A) :
  l2 <> [] -> List.last (l1 ++ l2) d = List.last l2 d.
Proof.
  intros H. rewrite (app_removelast_last d H) at 1.
  by rewrite app_assoc, last_last, (app_removelast_last d H) at 1; rewrite ?last_last.
Qed.

Section Rechunking.

Variable JSON_parse : string -> option ApiResponse.

Lemma processLine_set_chunk (aborted : bool) (now : Z) (line s : string) (st : StreamState) :
  processLine JSON_parse aborted now line (set_chunk s st)
  = set_chunk s (processLine JSON_parse aborted now line st).
Proof.
  unfold processLine. repeat case_match; try done.
  - apply set_streamFinished_set_chunk.
  - apply processChunk_set_chunk.
Qed.

Lemma forLines_set_chunk (now : Z) (lines : list string) (s : string) (st : StreamState) :
  forLines JSON_parse false now lines (set_chunk s st)
  = set_chunk s (forLines JSON_parse false now lines st).
Proof.
  revert st. induction lines as [|line lines IH]; intros st; simpl; [done|].
  by rewrite processLine_set_chunk, IH.
Qed.

Lemma forLines_app (now : Z) (lines1 lines2 : list string) (st : StreamState) :
  forLines JSON_parse false now (lines1 ++ lines2) st
  = forLines JSON_parse false now lines2 (forLines JSON_parse false now lines1 st).
Proof.
  revert st. induction lines1 as [|line lines1 IH]; intros st; simpl; [done|]. apply IH.
Qed.

Lemma chunk_forLines (now : Z) (lines : list string) (st : StreamState) :
  chunk (forLines JSON_parse false now lines st) = chunk st.
Proof.
  by destruct (forLines_step JSON_parse now lines st) as (Hc & _).
Qed.

Lemma processRead_app (now : Z) (text1 text2 : string) (st : StreamState) :
  processRead JSON_parse false now text2 (processRead JSON_parse false now text1 st)
  = processRead JSON_parse false now (text1 ++ text2) st.
Proof.
  unfold processRead.
  set (lines1 := Js.split newline (chunk st ++ text1)).
  rewrite chunk_forLines.
  assert (chunk (set_chunk (List.last lines1 "") st) = List.last lines1 "") as -> by by destruct st.
  set (lines2 := Js.split newline (List.last lines1 "" ++ text2)).
  assert (Js.split newline (chunk st ++ text1 ++ text2)
          = (removelast lines1 ++ lines2)%list) as ->.
  { rewrite <- append_assoc. apply split_newline_app. }
  assert (lines2 <> []) as Hne by apply split_newline_nonempty.
  rewrite removelast_app_ne, List_last_app, forLines_app by done.
  by rewrite !forLines_set_chunk, set_chunk_set_chunk.
Qed.

(** A read of [text1] followed by a read of [text2] leaves the loop where one
    read of [text1 ++ text2] does. *)
Lemma readLoop_merge (now : Z) (text1 text2 : string) (rest : list Read) (st : StreamState) :
  readLoop JSON_parse false
    (mkRead (ReadValue text1) false now :: mkRead (ReadValue text2) false now :: rest) st
  = readLoop JSON_parse false (mkRead (ReadValue (text1 ++ text2)) false now :: rest) st.
Proof. cbn -[processRead]. by rewrite processRead_app. Qed.

Lemma readLoop_app_value (aborted : bool) (before after1 after2 : list Read) (st : StreamState) :
  (forall st', readLoop JSON_parse false after1 st' = readLoop JSON_parse false after2 st') ->
  after1 <> [] -> after2 <> [] ->
  readLoop JSON_parse aborted (before ++ after1)%list st
  = readLoop JSON_parse aborted (before ++ after2)%list st.
Proof.
  intros Heq Hne1 Hne2. revert aborted st.
  induction before as [|r before IH]; intros aborted st.
  - destruct aborted; [|apply Heq]. simpl. by destruct after1, after2.
  - destruct aborted; [done|]. cbn [app readLoop].
    destruct (result r); [|done..]. destruct (abortedAfter r) eqn:E; [done|]. apply IH.
Qed.

(** X3.  The decoder does not depend on how the transport cuts the body:
    two consecutive reads deliver what one read of their concatenation
    does, wherever in the body they occur.  (The clock is read once per
    resumption; the two pieces are taken to arrive at the same reading.) *)
Theorem stream_independent_of_read_boundaries (before rest : list Read)
    (text1 text2 : string) (now : Z) (entryAborted : bool) (startTime endTime : Z) :
  handleStreamResponse JSON_parse
    (Some (before ++ mkRead (ReadValue text1) false now
                     :: mkRead (ReadValue text2) false now :: rest)%list)
    entryAborted startTime endTime
  = handleStreamResponse JSON_parse
      (Some (before ++ mkRead (ReadValue (text1 ++ text2)) false now :: rest)%list)
      entryAborted startTime endTime.
Proof.
  unfold handleStreamResponse.
  rewrite (readLoop_app_value entryAborted before
             (mkRead (ReadValue text1) false now :: mkRead (ReadValue text2) false now :: rest)
             (mkRead (ReadValue (text1 ++ text2)) false now :: rest)); try done.
  intros st'. apply readLoop_merge.
Qed.

End Rechunking.

(** ** Tool calls that are complete stay as they are *)

(** With an index offset at or beyond the end of the existing calls,
    merging changes none of them: the result is the existing calls followed
    by new ones. *)
Lemma mergeToolCallDeltas_keeps_existing (existing : list ToolCall)
    (ds : list ToolCallDelta) (indexOffset : nat) :
  (length existing <= indexOffset)%nat ->
  exists added, mergeToolCallDeltas existing ds indexOffset = (existing ++ added)%list.
Proof.
  intros Hoff.
  exists (drop (length existing) (mergeToolCallDeltas existing ds indexOffset)).
  rewrite <- (take_drop (length existing) (mergeToolCallDeltas existing ds indexOffset)) at 1.
  rewrite mergeToolCallDeltas_take by done. by rewrite firstn_all.
Qed.

Lemma mergeDelta_unindexed (indexOffset : nat) (result : list ToolCall) (d : ToolCallDelta) :
  unindexed d -> mergeDelta indexOffset result d = (result ++ [applyDelta d emptyCall])%list.
Proof.
  intros Hd. unfold mergeDelta.
  assert (deltaIndex indexOffset result d = length result) as ->.
  { unfold deltaIndex, unindexed in *. repeat case_match; lia. }
  replace (S (length result) - length result)%nat with 1%nat by lia. simpl.
  by rewrite (alter_app_r_alt _ result [emptyCall] (length result)), Nat.sub_diag.
Qed.

(** X5.  Deltas that carry no usable index are not merged with one another:
    each opens a call of its own behind the existing ones, whatever the
    index offset. *)
Theorem mergeToolCallDeltas_unindexed (existing : list ToolCall) (ds : list ToolCallDelta)
    (indexOffset : nat) :
  Forall unindexed ds ->
  mergeToolCallDeltas existing ds indexOffset
  = (existing ++ map (fun d => applyDelta d emptyCall) ds)%list.
Proof.
  unfold mergeToolCallDeltas. rewrite map_copyCall. intros Hall. revert existing.
  induction Hall as [|d ds Hd Hall IH]; intros existing; simpl.
  - by rewrite app_nil_r.
  - rewrite IH, (mergeDelta_unindexed _ _ _ Hd). by rewrite <- app_assoc.
Qed.

Lemma callsAfter_app (acc : list ToolCall * list ToolCall) (evs1 evs2 : list Event) :
  callsAfter acc (evs1 ++ evs2) = callsAfter (callsAfter acc evs1) evs2.
Proof. unfold callsAfter. by rewrite fold_left_app. Qed.

(** Along a trace in which every [onToolCallChunk] extends the settled
    calls, the settled calls only grow, and stay below the current ones. *)
Lemma callsAfter_grows (evs : list Event) (acc : list ToolCall * list ToolCall) :
  callsOk acc evs -> acc.1 `prefix_of` acc.2 ->
  acc.1 `prefix_of` (callsAfter acc evs).1
  /\ (callsAfter acc evs).1 `prefix_of` (callsAfter acc evs).2.
Proof.
  revert acc. induction evs as [|e evs IH]; intros [s c] Hok Hsc; [done|].
  destruct Hok as [He Hok]. cbn [callsAfter fold_left]. fold (callsAfter (callsStep (s, c) e) evs).
  destruct e; cbn [callsStep okEvent fst snd] in *;
    try (by apply IH);
    try (destruct (IH (c, c) Hok (reflexivity _)) as [H1 H2]; split; [by etrans|done]).
Qed.

(** Without an [onToolCallChunk] the current calls stay. *)
Lemma callsAfter_current (evs : list Event) (acc : list ToolCall * list ToolCall) :
  existsb isOnToolCallChunk evs = false -> (callsAfter acc evs).2 = acc.2.
Proof.
  revert acc. induction evs as [|e evs IH]; intros acc H; [done|].
  simpl in H. apply orb_false_iff in H as [He H].
  cbn [callsAfter fold_left]. fold (callsAfter (callsStep acc e) evs). rewrite IH by done.
  by destruct e.
Qed.

Lemma callsOk_settled (before between after rest : list Event) (calls later : list ToolCall)
    (text : Event) (acc : list ToolCall * list ToolCall) :
  callsOk acc (before ++ OnToolCallChunk calls :: between
                 ++ text :: after ++ OnToolCallChunk later :: rest) ->
  existsb isOnToolCallChunk between = false -> isText text = true ->
  calls `prefix_of` later.
Proof.
  intros Hok Hbetween Htext.
  apply callsOk_app in Hok as [_ Hok]. destruct Hok as [_ Hok].
  apply callsOk_app in Hok as [_ Hok]. destruct Hok as [_ Hok].
  apply callsOk_app in Hok as [Hafter Hok]. destruct Hok as [Hlater _].
  set (acc1 := callsStep (callsAfter acc before) (OnToolCallChunk calls)) in *.
  assert ((callsAfter acc1 between).2 = calls) as Hcur by by rewrite callsAfter_current.
  assert (callsStep (callsAfter acc1 between) text = (calls, calls)) as Hacc.
  { destruct text; try done; cbn [callsStep]; by rewrite Hcur. }
  rewrite Hacc in Hafter, Hlater.
  destruct (callsAfter_grows after (calls, calls) Hafter (reflexivity _)) as [Hgrow _].
  cbn [okEvent fst] in *. by etrans.
Qed.

Section SettledCalls.

Variable JSON_parse : string -> option ApiResponse.
Variables (reads : list Read) (entryAborted : bool) (startTime endTime : Z).

(** X4.  Tool calls that were on display when visible text or reasoning was
    reported are settled: every later [onToolCallChunk] carries them
    unchanged, followed by the calls that came after. *)
Theorem reported_tool_calls_settled (before between after rest : list Event)
    (calls later : list ToolCall) (text : Event) :
  (handleStreamResponse JSON_parse (Some reads) entryAborted startTime endTime).2
  = (before ++ OnToolCallChunk calls :: between
       ++ text :: after ++ OnToolCallChunk later :: rest)%list ->
  existsb isOnToolCallChunk between = false -> isText text = true ->
  exists added, later = (calls ++ added)%list.
Proof.
  intros Htrace Hbetween Htext.
  apply (callsOk_settled before between after rest calls later text ([], [])); try done.
  rewrite <- Htrace.
  destruct (handleStreamResponse_trace JSON_parse reads entryAborted startTime endTime)
    as (st & final & Hord & -> & Hfinal).
  apply callsOk_app. split; [apply Hord|].
  by destruct Hfinal as [[-> _]|[(t & -> & _)|(err & -> & _)]].
Qed.

End SettledCalls.

Lemma reported_tool_calls_settled_witness :
  exists added, [namedCall "f"; namedCall "g"] = ([namedCall "f"] ++ added)%list.
Proof.
  apply (reported_tool_calls_settled parseSample toolsBody false 0 0
           [OnFirstValidChunk] [] []
           [OnComplete "Hi" None None (Some [namedCall "f"; namedCall "g"])]
           [namedCall "f"] [namedCall "f"; namedCall "g"] (OnChunk "Hi"));
    reflexivity.
Defined.

Lemma mergeToolCallDeltas_unindexed_witness :
  mergeToolCallDeltas [namedCall "f"]
    [mkDelta None None None (Some (mkToolFn (Some "g") None));
     mkDelta (Some (-1)) None None (Some (mkToolFn None (Some "{}")))] 0
  = [namedCall "f"; namedCall "g"; mkToolCall None None (Some (mkToolFn None (Some "{}")))].
Proof.
  apply (mergeToolCallDeltas_unindexed [namedCall "f"]
           [mkDelta None None None (Some (mkToolFn (Some "g") None));
            mkDelta (Some (-1)) None None (Some (mkToolFn None (Some "{}")))] 0).
  repeat constructor.
Defined.

(** ** How failures are reported *)

Section ReadFailure.

Variable JSON_parse : string -> option ApiResponse.

(** Reads that deliver text take the loop to the read behind them. *)
Lemma readLoop_consume (values rest : list Read) (st : StreamState) :
  Forall delivers values ->
  readLoop JSON_parse false (values ++ rest) st
  = readLoop JSON_parse false rest (consume JSON_parse values st).
Proof.
  intros Hall. revert st. induction Hall as [|r values [Hab [text Hr]] _ IH]; intros st; [done|].
  cbn [app readLoop consume fold_left]. unfold readText. rewrite Hr, Hab. apply IH.
Qed.

Lemma orderly_consume (values : list Read) (st : StreamState) :
  orderly st -> orderly (consume JSON_parse values st).
Proof.
  revert st. induction values as [|r values IH]; intros st H; [done|].
  by apply IH, orderly_processRead.
Qed.

Lemma handleStreamResponse_throws (values rest : list Read) (e : Error) (after : bool)
    (clock startTime endTime : Z) :
  Forall delivers values ->
  exists streamed,
    handleStreamResponse JSON_parse
      (Some (values ++ mkRead (ReadThrows e) after clock :: rest)%list) false startTime endTime
    = (Rejected e, (streamed ++ [OnError e])%list)
    /\ existsb terminal streamed = false.
Proof.
  intros Hall. unfold handleStreamResponse. rewrite readLoop_consume by done.
  exists (events (consume JSON_parse values initialState)). split; [done|].
  destruct (orderly_consume values initialState orderly_initial). by apply existsb_terminal.
Qed.

(** X16.  An abort ends the stream quietly.  When the signal is found set
    after a read, the promise resolves, the text of that read and whatever
    the body still holds are ignored, and neither [onComplete] nor [onError]
    is invoked, even when the end marker had been decoded before. *)
Theorem abort_ends_stream_quietly (values rest : list Read) (r : Read)
    (startTime endTime : Z) :
  Forall delivers values -> abortedAfter r = true ->
  (forall e, result r <> ReadThrows e) ->
  handleStreamResponse JSON_parse (Some (values ++ r :: rest)%list) false startTime endTime
  = (Resolved (),
     (handleStreamResponse JSON_parse (Some values) false startTime endTime).2)
  /\ existsb terminal
       (handleStreamResponse JSON_parse (Some values) false startTime endTime).2 = false.
Proof.
  intros Hall Hab Hr. unfold handleStreamResponse.
  rewrite (readLoop_consume values (r :: rest)) by done.
  rewrite <- (app_nil_r values) at 2 3. rewrite (readLoop_consume values []) by done.
  cbn [readLoop]. rewrite Hab.
  destruct (orderly_consume values initialState orderly_initial).
  destruct (result r) as [text| |e] eqn:E; [| |by destruct (Hr e)];
    (split; [done|by apply existsb_terminal]).
Qed.

End ReadFailure.

Lemma fetchLoop_answers (fetch : nat -> gmap string JsVal -> FetchResult) (resp : HttpResponse)
    (remaining attempts : nat) (body : gmap string JsVal) (response : option HttpResponse)
    (sent0 : list (gmap string JsVal)) :
  (forall attempt b, fetch attempt b = Fulfilled resp) ->
  (response = Some resp \/ (0 < remaining)%nat) ->
  lr_response (fetchLoop fetch remaining attempts body response sent0) = inr (Some resp).
Proof.
  intros Hfetch. revert attempts body response sent0.
  induction remaining as [|remaining IH]; intros attempts body response sent0 Hresp.
  - destruct Hresp as [->|?]; [done|lia].
  - rewrite fetchLoop_step, Hfetch.
    destruct (ok resp); [done|]. destruct (status resp =? 400); [|done].
    destruct (retryFixes (bodyText resp) body) as [body' retrying].
    destruct retrying; [|done]. apply IH. by left.
Qed.

Lemma parseErrorResponse_name (JSON_parseError : string -> option ApiErrorResponse)
    (resp : HttpResponse) :
  String.eqb (err_name (parseErrorResponse JSON_parseError resp)) "AbortError" = false.
Proof. unfold parseErrorResponse. by repeat case_match. Qed.

(** What the non-streaming handler leaves behind when it succeeds. *)
Lemma nonStreamBody_returns (JSON_parse : string -> option ResponseBody)
    (responseText : string) (startTime : option Z) (endTime : Z) (content : string)
    (evs : list Event) :
  nonStreamBody JSON_parse responseText startTime endTime = (evs, inr content) ->
  exists before reasoningContent timings toolCalls,
    evs = (before ++ [OnComplete content reasoningContent timings toolCalls])%list
    /\ (Js.isEmpty (Js.trim content) = false \/ isSome toolCalls = true).
Proof.
  unfold nonStreamBody. intros H.
  repeat case_match; simplify_eq;
    match goal with
    | H : _ && _ = false |- _ => apply andb_false_iff in H as [H|H%negb_false_iff]
    end;
    do 4 eexists; split; try reflexivity; auto.
Qed.

Section Reporting.

Variables (P : Platform) (cfg : Config) (messages : list ChatMessage) (o : Options).
Variables (conversationId : option string) (r : Registry).

Let call : SendResult := sendMessage P cfg messages o conversationId r.

(** X6.  An HTTP error is reported twice: when the server's last answer is
    not a success, [onError] is invoked with the parsed error by the code
    that detects it and again, with the user-friendly form of the same
    error, by the [catch] block; the promise rejects with the latter. *)
Theorem http_error_reported_twice (resp : HttpResponse) :
  answers P resp -> ok resp = false ->
  let error := parseErrorResponse (JSON_parseError P) resp in
  callbacks call = [OnError error; OnError (userFriendlyError error)]
  /\ settled call = Rejected (userFriendlyError error).
Proof.
  intros Hans Hok. subst call. unfold sendMessage, tryBlock.
  destruct (registerRequest (requestKey conversationId) r) as [r1 c].
  rewrite (fetchLoop_answers (fetch P) resp) by (done || (right; unfold maxAttempts; lia)).
  cbn [default from_option id isSome negb orb]. rewrite Hok. cbn [negb].
  rewrite parseErrorResponse_name. done.
Qed.

(** X7.  A failure of [fetch] itself is reported once, in its user-friendly
    form, after a single request; when the failure is an [AbortError]
    nothing is reported and the promise resolves. *)
Theorem fetch_failure_reported_once (e : Error) :
  unreachable P e ->
  sent call = [wireBody (JSON_parseValue P) cfg messages o]
  /\ (if String.eqb (err_name e) "AbortError"
      then callbacks call = [] /\ settled call = Resolved None
      else callbacks call = [OnError (userFriendlyError e)]
           /\ settled call = Rejected (userFriendlyError e)).
Proof.
  intros Hun. subst call.
  assert (fetchLoop (fetch P) maxAttempts 0 (wireBody (JSON_parseValue P) cfg messages o) None []
          = mkLoop (inl e) (wireBody (JSON_parseValue P) cfg messages o)
              [wireBody (JSON_parseValue P) cfg messages o]) as Hloop.
  { unfold maxAttempts. by rewrite fetchLoop_step, Hun. }
  rewrite sendMessage_sent, Hloop. split; [done|].
  unfold sendMessage, tryBlock. fold (wireBody (JSON_parseValue P) cfg messages o).
  destruct (registerRequest (requestKey conversationId) r) as [r1 c].
  rewrite Hloop. cbn [lr_response lr_sent].
  by destruct (String.eqb (err_name e) "AbortError").
Qed.

(** X8.  A read of the stream that fails is reported by the decoder, also
    when the failure is the [AbortError] of a cancelled request: then the
    promise resolves although [onError] was invoked.  Any other failure is
    reported a second time by the [catch] block, and the promise rejects. *)
Theorem stream_read_failure_reported (resp : HttpResponse) (values rest : list Read)
    (e : Error) (after : bool) (clock : Z) :
  answers P resp -> ok resp = true -> truthyVal (stream o) = true ->
  abortedOnEntry P = false ->
  bodyReads resp = Some (values ++ mkRead (ReadThrows e) after clock :: rest)%list ->
  Forall delivers values ->
  exists streamed,
    existsb terminal streamed = false
    /\ (if String.eqb (err_name e) "AbortError"
        then callbacks call = (streamed ++ [OnError e])%list
             /\ settled call = Resolved None
        else callbacks call = (streamed ++ [OnError e; OnError (userFriendlyError e)])%list
             /\ settled call = Rejected (userFriendlyError e)).
Proof.
  intros Hans Hok Hstream Hentry Hbody Hall. subst call. unfold sendMessage, tryBlock.
  destruct (registerRequest (requestKey conversationId) r) as [r1 c].
  rewrite (fetchLoop_answers (fetch P) resp) by (done || (right; unfold maxAttempts; lia)).
  cbn [default from_option id isSome negb orb]. rewrite Hok, Hstream, Hbody, Hentry. cbn [negb].
  destruct (handleStreamResponse_throws (JSON_parse P) values rest e after clock
              (streamStartTime P) (endTime P) Hall) as (streamed & -> & Hquiet).
  exists streamed. split; [done|].
  destruct (String.eqb (err_name e) "AbortError"); cbn [callbacks settled]; [done|].
  by rewrite <- app_assoc.
Qed.

(** X9.  How the promise settles shows in the last callback: it rejects
    with an error only after [onError] was invoked with that error, and it
    resolves with a text (the non-streaming path) only after [onComplete] was
    invoked with that text, which is not blank unless tool calls come with
    it. *)
Theorem settled_after_last_callback :
  (forall e, settled call = Rejected e -> last (callbacks call) = Some (OnError e))
  /\ (forall content,
        settled call = Resolved (Some content) ->
        exists reasoningContent timings toolCalls,
          last (callbacks call) = Some (OnComplete content reasoningContent timings toolCalls)
          /\ (Js.isEmpty (Js.trim content) = false \/ isSome toolCalls = true)).
Proof.
  subst call. unfold sendMessage, tryBlock.
  destruct (registerRequest (requestKey conversationId) r) as [r1 c].
  set (loop := fetchLoop _ _ _ _ _ _).
  destruct (lr_response loop) as [e|response].
  { destruct (String.eqb (err_name e) "AbortError"); cbn [settled callbacks]; split;
      intros; simplify_eq; by rewrite ?last_snoc. }
  destruct (negb (isSome response) || negb (ok _)).
  { rewrite parseErrorResponse_name. cbn [settled callbacks]. split;
      intros; simplify_eq; by rewrite ?last_snoc. }
  destruct (truthyVal (stream o)).
  - destruct (handleStreamResponse _ _ _ _ _) as [[v|e|] evs]; cbn [settled callbacks];
      try (split; intros; simplify_eq; fail).
    destruct (String.eqb (err_name e) "AbortError"); cbn [settled callbacks]; split;
      intros; simplify_eq; by rewrite ?last_snoc.
  - unfold handleNonStreamResponse.
    destruct (nonStreamBody _ _ _ _) as [evs [err|content]] eqn:E; cbn [settled callbacks].
    + split; intros; simplify_eq. by rewrite last_snoc.
    + split; intros; simplify_eq.
      destruct (nonStreamBody_returns _ _ _ _ _ _ E) as (before & rc & t & tc & -> & Hne).
      exists rc, t, tc. by rewrite last_snoc.
Qed.

End Reporting.

Lemma http_error_reported_twice_witness :
  callbacks (sendMessage (serverPlatform (mkResponse 503 "Service Unavailable" "" None))
               localConfig [] (unsetOptions (VBool true)) None emptyRegistry)
  = [OnError (mkError "HttpError" "Server error (503): Service Unavailable");
     OnError (mkError "HttpError" "Server error (503): Service Unavailable")]
  /\ settled (sendMessage (serverPlatform (mkResponse 503 "Service Unavailable" "" None))
                localConfig [] (unsetOptions (VBool true)) None emptyRegistry)
     = Rejected (mkError "HttpError" "Server error (503): Service Unavailable").
Proof.
  apply (http_error_reported_twice (serverPlatform (mkResponse 503 "Service Unavailable" "" None))
           localConfig [] (unsetOptions (VBool true)) None emptyRegistry
           (mkResponse 503 "Service Unavailable" "" None)).
  - intros attempt body. reflexivity.
  - reflexivity.
Defined.

Lemma fetch_failure_reported_once_witness :
  sent (sendMessage offlinePlatform localConfig [] (unsetOptions (VBool true)) None emptyRegistry)
  = [wireBody noJSON localConfig [] (unsetOptions (VBool true))]
  /\ callbacks (sendMessage offlinePlatform localConfig [] (unsetOptions (VBool true)) None
                  emptyRegistry)
     = [OnError (mkError "NetworkError"
                   "Unable to connect to server - please check if the server is running")]
  /\ settled (sendMessage offlinePlatform localConfig [] (unsetOptions (VBool true)) None
                emptyRegistry)
     = Rejected (mkError "NetworkError"
                   "Unable to connect to server - please check if the server is running").
Proof.
  apply (fetch_failure_reported_once offlinePlatform localConfig []
           (unsetOptions (VBool true)) None emptyRegistry
           (mkError "TypeError" "Failed to fetch")).
  intros attempt body. reflexivity.
Defined.

Lemma stream_read_failure_reported_witness :
  exists streamed,
    existsb terminal streamed = false
    /\ callbacks (sendMessage (serverPlatform (mkResponse 200 "OK" "" (Some abortedBody)))
                    localConfig [] (unsetOptions (VBool true)) None emptyRegistry)
       = (streamed ++ [OnError (mkError "AbortError" "The user aborted a request.")])%list
    /\ settled (sendMessage (serverPlatform (mkResponse 200 "OK" "" (Some abortedBody)))
                  localConfig [] (unsetOptions (VBool true)) None emptyRegistry)
       = Resolved None.
Proof.
  apply (stream_read_failure_reported (serverPlatform (mkResponse 200 "OK" "" (Some abortedBody)))
           localConfig [] (unsetOptions (VBool true)) None emptyRegistry
           (mkResponse 200 "OK" "" (Some abortedBody))
           [mkRead (ReadValue ("data: hi" ++ newline)) false 0] []
           (mkError "AbortError" "The user aborted a request.") true 0).
  - intros attempt body. reflexivity.
  - reflexivity.
  - reflexivity.
  - reflexivity.
  - reflexivity.
  - repeat constructor. by exists ("data: hi" ++ newline).
Defined.

Lemma abort_ends_stream_quietly_witness :
  handleStreamResponse parseSample (Some cancelledBody) false 0 0
  = (Resolved (), [OnFirstValidChunk; OnChunk "Hi"])
  /\ existsb terminal [OnFirstValidChunk; OnChunk "Hi"] = false.
Proof.
  apply (abort_ends_stream_quietly parseSample
           [mkRead (ReadValue ("data: hi" ++ newline ++ doneLine ++ newline)) false 0]
           [mkRead ReadDone true 0]
           (mkRead (ReadValue ("data: hi" ++ newline)) true 0) 0 0).
  - repeat constructor. by eexists.
  - reflexivity.
  - intros e. discriminate.
Defined.

(** ** Requests that share a conversation *)

Lemma allocated_register (requestId : string) (r : Registry) :
  wellFormed r -> allocated r -> allocated (fst (registerRequest requestId r)).
Proof.
  intros [_ Hlt] Hall c. simpl.
  destruct (abortControllers r !! requestId) as [previous|] eqn:E.
  - rewrite elem_of_union, elem_of_singleton. intros [->|Hc].
    + apply Hlt in E. lia.
    + apply Hall in Hc. lia.
  - intros Hc. apply Hall in Hc. lia.
Qed.

Lemma allocated_release (requestId : string) (r : Registry) :
  allocated r -> allocated (releaseRequest requestId r).
Proof. done. Qed.

Lemma allocated_abort (conversationId : option string) (r : Registry) :
  wellFormed r -> allocated r -> allocated (abort conversationId r).
Proof.
  intros [_ Hlt] Hall. unfold abort. destruct (Js.truthy conversationId).
  - destruct (abortControllers r !! Js.orEmpty conversationId) as [c'|] eqn:E; [|done].
    intros c. simpl. rewrite elem_of_union, elem_of_singleton. intros [->|Hc]; eauto.
  - intros c. simpl. rewrite elem_of_union, elem_of_map_img. intros [[k Hk]|Hc]; eauto.
Qed.

Lemma reachable_allocated (r : Registry) : reachable r -> allocated r.
Proof.
  induction 1 as [|k r Hr IH|k r Hr IH|cid r Hr IH].
  - intros c. simpl. set_solver.
  - by apply allocated_register; [apply reachable_wellFormed|].
  - by apply allocated_release.
  - by apply allocated_abort; [apply reachable_wellFormed|].
Qed.

(** What the head of [sendMessage] does to the registry. *)
Lemma new_request_supersedes_aux (requestId : string) (r : Registry) :
  reachable r ->
  let r' := fst (registerRequest requestId r) in
  let controller := snd (registerRequest requestId r) in
  abortControllers r' !! requestId = Some controller
  /\ signalAborted controller r' = false
  /\ (forall previous,
        abortControllers r !! requestId = Some previous -> signalAborted previous r' = true)
  /\ (forall key c,
        key <> requestId -> abortControllers r !! key = Some c ->
        abortControllers r' !! key = Some c /\ signalAborted c r' = signalAborted c r).
Proof.
  intros Hr. pose proof (reachable_wellFormed r Hr) as [Hinj Hlt].
  pose proof (reachable_allocated r Hr) as Hall.
  cbn [registerRequest fst snd abortControllers abortedSignals]. unfold signalAborted. simpl.
  split_and!.
  - by rewrite lookup_insert_eq.
  - apply bool_decide_eq_false.
    destruct (abortControllers r !! requestId) as [previous|] eqn:E.
    + rewrite elem_of_union, elem_of_singleton. intros [Heq|Hc].
      * apply Hlt in E. lia.
      * apply Hall in Hc. lia.
    + intros Hc. apply Hall in Hc. lia.
  - intros previous ->. apply bool_decide_eq_true. set_solver.
  - intros key c Hne Hkey. rewrite lookup_insert_ne by done. split; [done|].
    destruct (abortControllers r !! requestId) as [previous|] eqn:E; [|done].
    apply bool_decide_ext. rewrite elem_of_union, elem_of_singleton.
    split; [|tauto]. intros [->|Hc]; [|done].
    by destruct Hne; apply (Hinj key requestId previous).
Qed.

(** X10.  A new request supersedes the request tracked under the same key:
    it is tracked in its place with a signal that is clear, the request it
    replaces is aborted, and the requests of other conversations stay tracked
    with their signals as they were. *)
Theorem new_request_supersedes (requestId : string) (r : Registry) :
  reachable r ->
  let r' := fst (registerRequest requestId r) in
  let controller := snd (registerRequest requestId r) in
  abortControllers r' !! requestId = Some controller
  /\ signalAborted controller r' = false
  /\ (forall previous,
        abortControllers r !! requestId = Some previous -> signalAborted previous r' = true)
  /\ (forall key c,
        key <> requestId -> abortControllers r !! key = Some c ->
        abortControllers r' !! key = Some c /\ signalAborted c r' = signalAborted c r).
Proof. apply new_request_supersedes_aux. Qed.

(** X11.  A superseded request untracks its successor.  When a second
    request for the same key starts while the first is in flight, the
    [finally] block of the first (which the abort by the second sets off)
    deletes the entry that by then belongs to the second: afterwards neither
    [abort] with the conversation id nor [abort] without one aborts the
    second request. *)
Theorem superseded_request_untracks_successor (requestId : string) (r : Registry) :
  reachable r ->
  let first := registerRequest requestId r in
  let second := registerRequest requestId (fst first) in
  let after := releaseRequest requestId (fst second) in
  signalAborted (snd first) after = true
  /\ abortControllers after !! requestId = None
  /\ forall conversationId, signalAborted (snd second) (abort conversationId after) = false.
Proof.
  intros Hr first second after.
  assert (reachable (fst first)) as Hr1 by by constructor.
  assert (reachable (fst second)) as Hr2 by by constructor.
  assert (reachable after) as Hr3 by by constructor.
  destruct (new_request_supersedes_aux requestId (fst first) Hr1) as (Hnew & Hclear & Hprev & _).
  split_and!.
  - apply (Hprev (snd first)). subst first. simpl. by rewrite lookup_insert_eq.
  - subst after. simpl. by rewrite lookup_delete_eq.
  - intros conversationId.
    pose proof (reachable_wellFormed _ Hr2) as [Hinj Hlt].
    assert (forall key, abortControllers after !! key <> Some (snd second)) as Hfree.
    { intros key Hkey. subst after. cbn [releaseRequest abortControllers] in Hkey.
      apply lookup_delete_Some in Hkey as [Hne Hkey].
      by destruct Hne; apply (Hinj requestId key (snd second)). }
    assert (signalAborted (snd second) after = false) as Hafter by exact Hclear.
    unfold abort. destruct (Js.truthy conversationId).
    + destruct (abortControllers after !! Js.orEmpty conversationId) as [c|] eqn:E; [|done].
      unfold signalAborted in *. apply bool_decide_eq_false. apply bool_decide_eq_false in Hafter.
      cbn [abortedSignals]. rewrite elem_of_union, elem_of_singleton.
      intros [Heq|Hc]; [|done]. apply (Hfree (Js.orEmpty conversationId)). by rewrite E, Heq.
    + unfold signalAborted in *. apply bool_decide_eq_false. apply bool_decide_eq_false in Hafter.
      cbn [abortedSignals]. rewrite elem_of_union, elem_of_map_img.
      intros [[key Hkey]|Hc]; [|done]. by apply (Hfree key).
Qed.

Lemma new_request_supersedes_witness :
  abortControllers (fst (registerRequest "c1" twoInFlight)) !! "c1" = Some 2%nat
  /\ signalAborted 2 (fst (registerRequest "c1" twoInFlight)) = false
  /\ (forall previous,
        abortControllers twoInFlight !! "c1" = Some previous ->
        signalAborted previous (fst (registerRequest "c1" twoInFlight)) = true)
  /\ (forall key c,
        key <> "c1" -> abortControllers twoInFlight !! key = Some c ->
        abortControllers (fst (registerRequest "c1" twoInFlight)) !! key = Some c
        /\ signalAborted c (fst (registerRequest "c1" twoInFlight)) = signalAborted c twoInFlight).
Proof.
  apply (new_request_supersedes "c1" twoInFlight).
  unfold twoInFlight. repeat constructor.
Defined.

Lemma superseded_request_untracks_successor_witness :
  signalAborted 0
    (releaseRequest "c1" (fst (registerRequest "c1" (fst (registerRequest "c1" emptyRegistry)))))
  = true
  /\ abortControllers
       (releaseRequest "c1" (fst (registerRequest "c1" (fst (registerRequest "c1" emptyRegistry)))))
     !! "c1" = None
  /\ forall conversationId,
       signalAborted 1
         (abort conversationId
            (releaseRequest "c1"
               (fst (registerRequest "c1" (fst (registerRequest "c1" emptyRegistry))))))
       = false.
Proof.
  apply (superseded_request_untracks_successor "c1" emptyRegistry).
  constructor.
Defined.

(** ** What a request carries *)

Lemma getField_insert_eq (body : gmap string JsVal) (k : string) (v : JsVal) :
  getField (<[k := v]> body) k = v.
Proof. unfold getField. by rewrite lookup_insert_eq. Qed.

Lemma getField_setIfDefined_ne (body : gmap string JsVal) (k k' : string) (v : JsVal) :
  k <> k' -> getField (setIfDefined k v body) k' = getField body k'.
Proof. intros H. unfold setIfDefined. destruct (isUndef v); [done|]. by apply getField_insert_ne. Qed.

Lemma isUndef_eq (v : JsVal) : isUndef v = true -> v = VUndef.
Proof. by destruct v. Qed.

Lemma getField_empty (k : string) : getField ∅ k = VUndef.
Proof. done. Qed.

Lemma getField_if (c : bool) (a b : gmap string JsVal) (k : string) :
  getField (if c then a else b) k = if c then getField a k else getField b k.
Proof. by destruct c. Qed.

Lemma if_same {A} (c : bool) (x : A) : (if c then x else x) = x.
Proof. by destruct c. Qed.

Ltac field_solve :=
  cbv zeta;
  repeat first
    [ rewrite getField_setIfDefined_ne by done
    | rewrite getField_insert_ne by done
    | rewrite getField_insert_eq
    | rewrite getField_empty
    | rewrite getField_if
    | rewrite if_same ].

(** The fields of the body that [buildRequestBody] assembles, when no custom
    parameters are configured. *)
Lemma buildRequestBody_messages (JSON_parseValue : string -> option JsVal) (cfg : Config)
    (messages : list ChatMessage) (o : Options) :
  truthyVal (custom o) = false ->
  getField (buildRequestBody JSON_parseValue cfg messages o) "messages"
  = VArr (map messageValue (injectSystemMessage cfg (List.filter keepMessage messages))).
Proof.
  intros Hcustom. unfold buildRequestBody. rewrite Hcustom. by field_solve.
Qed.

Lemma buildRequestBody_limits (JSON_parseValue : string -> option JsVal) (cfg : Config)
    (messages : list ChatMessage) (o : Options) :
  truthyVal (custom o) = false ->
  limitsOk (buildRequestBody JSON_parseValue cfg messages o).
Proof.
  intros Hcustom. unfold buildRequestBody, limitsOk. rewrite Hcustom. field_solve.
  split_and!.
  - destruct (isUndef (max_tokens o)); cbn [negb]; [by left|right].
    by field_solve.
  - destruct (max_tokens o) as [| |b|n|s|l|l]; cbn [isUndef negb isNum]; try done.
    by destruct (n =? 0).
  - destruct (max_tokens o) as [| |b|n|s|l|l]; cbn [isUndef negb isNum]; try done.
    destruct (n =? 0) eqn:E; [done|]. intros [= ->]. done.
  - destruct (reasoning_effort o) as [| |b|n|s|l|l]; cbn [isUndef negb isStr andb]; try done.
    destruct (String.eqb_spec s "none") as [->|Hne]; cbn [negb]; [done|]. by intros [= ->].
Qed.

Lemma assign_cons (target : gmap string JsVal) (kv : string * JsVal)
    (source : list (string * JsVal)) :
  assign target (kv :: source) = assign (<[kv.1 := kv.2]> target) source.
Proof. reflexivity. Qed.

(** Copying the defined fields [keys] of an object [f] onto [target]. *)
Lemma getField_assign_defined (f : string -> JsVal) (keys : list string)
    (target : gmap string JsVal) (k : string) :
  getField (assign target
              (List.filter (fun kv => negb (isUndef kv.2)) (map (fun key => (key, f key)) keys))) k
  = if bool_decide (k ∈ keys) && negb (isUndef (f k)) then f k else getField target k.
Proof.
  revert target. induction keys as [|a keys IH]; intros target; [done|].
  cbn [map List.filter snd].
  destruct (decide (k = a)) as [->|Hne].
  - rewrite (bool_decide_eq_true_2 (a ∈ a :: keys)) by left. cbn [andb].
    destruct (isUndef (f a)) eqn:E; cbn [negb].
    + rewrite IH. cbn [negb]. by rewrite andb_false_r.
    + rewrite assign_cons, IH. cbn [negb fst snd].
      rewrite getField_insert_eq. by destruct (bool_decide (a ∈ keys)).
  - assert (bool_decide (k ∈ a :: keys) = bool_decide (k ∈ keys)) as ->.
    { apply bool_decide_ext. rewrite elem_of_cons. naive_solver. }
    destruct (isUndef (f a)) eqn:E; cbn [negb]; [apply IH|].
    rewrite assign_cons, IH. cbn [fst snd]. by rewrite getField_insert_ne.
Qed.

(** The external filter changes no value: a field of the allow-list keeps
    the value it had, except a [max_tokens] of [-1]; every other field is
    gone. *)
Lemma getField_filterExternal (body : gmap string JsVal) (k : string) :
  getField (filterExternal body) k
  = if bool_decide (k ∈ standardFields)
    then if String.eqb k "max_tokens" && isNum (-1) (getField body k)
         then VUndef else getField body k
    else VUndef.
Proof.
  unfold filterExternal.
  pose proof (getField_assign_defined (getField body) standardFields ∅) as Hget.
  set (filtered := assign ∅ _) in *.
  assert (forall key, getField filtered key
                      = if bool_decide (key ∈ standardFields) then getField body key else VUndef)
    as Hfiltered.
  { intros key. rewrite Hget. destruct (bool_decide (key ∈ standardFields)); [|done].
    cbn [andb]. destruct (isUndef (getField body key)) eqn:E; [|done].
    by rewrite (isUndef_eq _ E). }
  assert (bool_decide ("max_tokens" ∈ standardFields) = true) as Hmax.
  { by vm_compute. }
  rewrite (Hfiltered "max_tokens"), Hmax.
  destruct (String.eqb_spec k "max_tokens") as [->|Hne].
  - rewrite Hmax. cbn [andb].
    destruct (isNum (-1) (getField body "max_tokens")) eqn:E.
    + by rewrite getField_delete_eq.
    + by rewrite Hfiltered, Hmax.
  - cbn [andb].
    destruct (isNum (-1) (getField body "max_tokens")).
    + rewrite getField_delete_ne by done. apply Hfiltered.
    + apply Hfiltered.
Qed.

Lemma limitsOk_filterExternal (body : gmap string JsVal) :
  limitsOk body -> limitsOk (filterExternal body).
Proof.
  unfold limitsOk. rewrite !getField_filterExternal.
  assert (bool_decide ("max_tokens" ∈ standardFields) = true) as -> by by vm_compute.
  assert (bool_decide ("max_completion_tokens" ∈ standardFields) = true) as -> by by vm_compute.
  assert (bool_decide ("reasoning_effort" ∈ standardFields) = true) as -> by by vm_compute.
  assert (String.eqb "max_tokens" "max_tokens" = true) as -> by by vm_compute.
  assert (String.eqb "max_completion_tokens" "max_tokens" = false) as -> by by vm_compute.
  assert (String.eqb "reasoning_effort" "max_tokens" = false) as -> by by vm_compute.
  cbn [andb].
  intros (Hone & Hnull & Hzero & Heffort).
  destruct (isNum (-1) (getField body "max_tokens")); split_and!; try done. by left.
Qed.

Lemma limitsOk_retryFixes (errorText : string) (body : gmap string JsVal) :
  limitsOk body -> limitsOk (fst (retryFixes errorText body)).
Proof.
  unfold limitsOk, retryFixes. intros (Hone & Hnull & Hzero & Heffort).
  repeat case_match; simplify_eq; cbn [fst];
    repeat first [ rewrite getField_delete_eq | rewrite getField_delete_ne by done
                 | rewrite getField_insert_ne by done | rewrite getField_insert_eq ];
    split_and!; try done; by left.
Qed.

Section SentBodies.

Variable fetch : nat -> gmap string JsVal -> FetchResult.

Lemma fetchLoop_limits (remaining attempts : nat) (body : gmap string JsVal)
    (response : option HttpResponse) (sent0 : list (gmap string JsVal)) :
  limitsOk body -> Forall limitsOk sent0 ->
  Forall limitsOk (lr_sent (fetchLoop fetch remaining attempts body response sent0)).
Proof.
  revert attempts body response sent0.
  induction remaining as [|remaining IH]; intros attempts body response sent0 Hbody Hsent;
    [done|].
  assert (Forall limitsOk (sent0 ++ [body])) as Hsent'.
  { apply Forall_app. split; [done|]. by constructor. }
  rewrite fetchLoop_step. repeat case_match; try done.
  apply IH; [|done].
  match goal with H : retryFixes ?t ?b = (?b', _) |- _ =>
    change b' with (fst (b', true)); rewrite <- H end.
  by apply limitsOk_retryFixes.
Qed.

End SentBodies.

(** X12.  Without custom parameters every body that [sendMessage] sends, on
    the first attempt and on every retry, to a local or an external server,
    carries at most one of [max_tokens] and [max_completion_tokens], never a
    [max_tokens] of [null] or [0], and never the reasoning effort
    ['none']. *)
Theorem sent_bodies_limits (P : Platform) (cfg : Config) (messages : list ChatMessage)
    (o : Options) (conversationId : option string) (r : Registry) :
  truthyVal (custom o) = false ->
  Forall limitsOk (sent (sendMessage P cfg messages o conversationId r)).
Proof.
  intros Hcustom. rewrite sendMessage_sent. apply fetchLoop_limits; [|done].
  unfold wireBody.
  pose proof (buildRequestBody_limits (JSON_parseValue P) cfg messages o Hcustom) as Hok.
  destruct (isExternalApi (resolveBaseUrl cfg)); [by apply limitsOk_filterExternal|done].
Qed.

Lemma sent_bodies_limits_witness :
  Forall limitsOk
    (sent (sendMessage twoRejectionsPlatform providerConfig [] effortAndLimit None emptyRegistry)).
Proof.
  apply (sent_bodies_limits twoRejectionsPlatform providerConfig [] effortAndLimit None
           emptyRegistry).
  reflexivity.
Defined.

(** The messages of the body handed to [fetch]. *)
Lemma wireBody_messages (JSON_parseValue : string -> option JsVal) (cfg : Config)
    (messages : list ChatMessage) (o : Options) :
  truthyVal (custom o) = false ->
  getField (wireBody JSON_parseValue cfg messages o) "messages"
  = VArr (map messageValue (injectSystemMessage cfg (List.filter keepMessage messages))).
Proof.
  intros Hcustom. unfold wireBody.
  destruct (isExternalApi (resolveBaseUrl cfg)).
  - rewrite getField_filterExternal.
    assert (bool_decide ("messages" ∈ standardFields) = true) as -> by by vm_compute.
    assert (String.eqb "messages" "max_tokens" = false) as -> by by vm_compute.
    by apply buildRequestBody_messages.
  - by apply buildRequestBody_messages.
Qed.

Lemma injectSystemMessage_configured (cfg : Config) (messages : list ChatMessage) :
  Js.isEmpty (Js.trim (Js.orEmpty (systemMessage cfg))) = false ->
  injectSystemMessage cfg messages
  = mkMessage "system" (VStr (Js.trim (Js.orEmpty (systemMessage cfg))))
      :: dropLeadingSystem messages.
Proof.
  intros Hsys. unfold injectSystemMessage, dropLeadingSystem. rewrite Hsys.
  destruct messages as [|[who content] rest]; [done|]. cbn [role msg_content].
  destruct (String.eqb_spec who "system") as [->|Hne]; [|done].
  destruct (isStr _ content) eqn:E; cbn [negb]; [|done].
  destruct content; try discriminate. cbn [isStr] in E.
  by apply String.eqb_eq in E as ->.
Qed.

(** X13.  A configured system message leads every request: when the
    settings hold a system message that is not blank, the messages sent are
    that message, trimmed, followed by the conversation without its blank
    system messages and without a system message of its own at the front. *)
Theorem configured_system_message_leads (JSON_parseValue : string -> option JsVal)
    (cfg : Config) (messages : list ChatMessage) (o : Options) :
  truthyVal (custom o) = false ->
  Js.isEmpty (Js.trim (Js.orEmpty (systemMessage cfg))) = false ->
  getField (wireBody JSON_parseValue cfg messages o) "messages"
  = VArr (map messageValue
            (mkMessage "system" (VStr (Js.trim (Js.orEmpty (systemMessage cfg))))
               :: dropLeadingSystem (List.filter keepMessage messages))).
Proof.
  intros Hcustom Hsys. rewrite wireBody_messages by done.
  by rewrite injectSystemMessage_configured.
Qed.

Lemma trimEnd_cons (c : ascii) (s : string) :
  Js.trimEnd (String c s)
  = match Js.trimEnd s with
    | EmptyString => if Js.isSpace c then EmptyString else String c EmptyString
    | t => String c t
    end.
Proof. reflexivity. Qed.

Lemma trimEnd_idem (s : string) : Js.trimEnd (Js.trimEnd s) = Js.trimEnd s.
Proof.
  induction s as [|c s IH]; [done|]. rewrite trimEnd_cons.
  destruct (Js.trimEnd s) as [|d t] eqn:E.
  - destruct (Js.isSpace c) eqn:Hc; [done|]. rewrite trimEnd_cons. cbn [Js.trimEnd].
    by rewrite Hc.
  - rewrite trimEnd_cons. by rewrite IH.
Qed.

Lemma trimStart_head (s : string) :
  Js.trimStart s = "" \/ exists c t, Js.trimStart s = String c t /\ Js.isSpace c = false.
Proof.
  induction s as [|c s IH]; [by left|]. cbn [Js.trimStart].
  destruct (Js.isSpace c) eqn:Hc; [done|]. right. by exists c, s.
Qed.

Lemma trimStart_trim (s : string) : Js.trimStart (Js.trim s) = Js.trim s.
Proof.
  unfold Js.trim. destruct (trimStart_head s) as [->|(c & t & -> & Hc)]; [done|].
  rewrite trimEnd_cons, Hc. by destruct (Js.trimEnd t); cbn [Js.trimStart]; rewrite Hc.
Qed.

(** Trimming twice is trimming once. *)
Lemma trim_idem (s : string) : Js.trim (Js.trim s) = Js.trim s.
Proof.
  unfold Js.trim at 1. rewrite trimStart_trim. unfold Js.trim. apply trimEnd_idem.
Qed.

Lemma keepMessage_proper (msg : ChatMessage) : keepMessage msg = true -> properMessage msg.
Proof.
  unfold keepMessage, properMessage. intros Hkeep Hrole. rewrite Hrole in Hkeep.
  cbn [String.eqb Ascii.eqb Bool.eqb andb] in Hkeep.
  destruct (msg_content msg) as [| |b|n|text|l|l]; try discriminate.
  exists text. split; [done|]. by apply negb_true_iff.
Qed.

Lemma injectSystemMessage_proper (cfg : Config) (messages : list ChatMessage) :
  Forall properMessage messages -> Forall properMessage (injectSystemMessage cfg messages).
Proof.
  intros Hall.
  destruct (Js.isEmpty (Js.trim (Js.orEmpty (systemMessage cfg)))) eqn:Hsys.
  - unfold injectSystemMessage. by rewrite Hsys.
  - rewrite injectSystemMessage_configured by done. constructor.
    + intros _. eexists. split; [done|]. by rewrite trim_idem.
    + unfold dropLeadingSystem. destruct Hall as [|first rest Hfirst Hrest]; [done|].
      destruct (String.eqb (role first) "system"); [done|]. by constructor.
Qed.

(** X14.  No request carries a system message that is blank or whose
    content is not a string, whatever the conversation and the settings
    hold. *)
Theorem no_blank_system_message_sent (JSON_parseValue : string -> option JsVal)
    (cfg : Config) (messages : list ChatMessage) (o : Options) :
  truthyVal (custom o) = false ->
  exists sentMessages,
    getField (wireBody JSON_parseValue cfg messages o) "messages"
    = VArr (map messageValue sentMessages)
    /\ Forall properMessage sentMessages.
Proof.
  intros Hcustom. eexists. split; [by apply wireBody_messages|].
  apply injectSystemMessage_proper, List.Forall_forall. intros msg Hin.
  apply filter_In in Hin as [_ Hkeep]. by apply keepMessage_proper.
Qed.

Lemma configured_system_message_leads_witness :
  getField (wireBody noJSON assistantConfig blankSystemChat (unsetOptions (VBool true)))
    "messages"
  = VArr (map messageValue
            [mkMessage "system" (VStr "Be brief."); mkMessage "user" (VStr "Hi")]).
Proof.
  apply (configured_system_message_leads noJSON assistantConfig blankSystemChat
           (unsetOptions (VBool true))); reflexivity.
Defined.

Lemma no_blank_system_message_sent_witness :
  exists sentMessages,
    getField (wireBody noJSON localConfig blankSystemChat (unsetOptions (VBool true))) "messages"
    = VArr (map messageValue sentMessages)
    /\ Forall properMessage sentMessages.
Proof.
  apply (no_blank_system_message_sent noJSON localConfig blankSystemChat
           (unsetOptions (VBool true))).
  reflexivity.
Defined.

(** ** One think span in a complete response *)

Lemma startsWith_app (p s : string) : Js.startsWith p (p ++ s) = true.
Proof.
  induction p as [|a p IH]; [done|]. rewrite append_cons. cbn [Js.startsWith].
  by rewrite Ascii.eqb_refl, IH.
Qed.

Lemma drop_app (p s : string) : Js.drop (String.length p) (p ++ s) = s.
Proof. induction p as [|a p IH]; [done|]. rewrite append_cons. exact IH. Qed.

Lemma breakOn_unfold (sep s : string) :
  Js.breakOn sep s
  = if Js.startsWith sep s then Some (EmptyString, Js.drop (String.length sep) s)
    else match s with
         | EmptyString => None
         | String c s' =>
             match Js.breakOn sep s' with
             | Some (a, b) => Some (String c a, b)
             | None => None
             end
         end.
Proof. by destruct s. Qed.

(** A separator that begins with ['<'] is found right behind a text without
    ['<']. *)
Lemma breakOn_noAngle (p a rest : string) :
  noAngle a = true ->
  Js.breakOn (String "<" p) (a ++ String "<" p ++ rest) = Some (a, rest).
Proof.
  intros Ha. induction a as [|c a IH].
  - by rewrite append_nil_l, breakOn_unfold, startsWith_app, drop_app.
  - cbn [noAngle] in Ha. apply andb_true_iff in Ha as [Hc Ha].
    rewrite append_cons. cbn [Js.breakOn Js.startsWith].
    apply negb_true_iff in Hc. rewrite Hc. cbn [andb]. by rewrite (IH Ha).
Qed.

Lemma breakOn_noAngle_None (p s : string) :
  noAngle s = true -> Js.breakOn (String "<" p) s = None.
Proof.
  induction s as [|c s IH]; [done|]. cbn [noAngle]. intros [Hc Hs]%andb_true_iff.
  cbn [Js.breakOn Js.startsWith]. apply negb_true_iff in Hc. rewrite Hc. cbn [andb].
  by rewrite (IH Hs).
Qed.

(** No opening tag in what follows the opening tag of a single span. *)
Lemma breakOn_open_in_rest (b c : string) :
  noAngle b = true -> noAngle c = true ->
  Js.breakOn "<think>" (b ++ "</think>" ++ c) = None.
Proof.
  intros Hb Hc. induction b as [|x b IH].
  - rewrite append_nil_l, !append_cons, append_nil_l.
    cbn [Js.breakOn Js.startsWith Ascii.eqb Bool.eqb andb].
    by rewrite (breakOn_noAngle_None "think>" c Hc).
  - cbn [noAngle] in Hb. apply andb_true_iff in Hb as [Hx Hb].
    rewrite append_cons. cbn [Js.breakOn Js.startsWith].
    apply negb_true_iff in Hx. rewrite Hx. cbn [andb]. by rewrite (IH Hb).
Qed.

Lemma removeTags_aux_step (fuel : nat) (s : string) :
  removeTags_aux (S fuel) s
  = if Js.startsWith "<think>" s then removeTags_aux fuel (Js.drop 7 s)
    else if Js.startsWith "</think>" s then removeTags_aux fuel (Js.drop 8 s)
    else match s with
         | EmptyString => EmptyString
         | String c s' => String c (removeTags_aux fuel s')
         end.
Proof. reflexivity. Qed.

Lemma startsWith_other (p : string) (c : ascii) (s : string) :
  Ascii.eqb "<" c = false -> Js.startsWith (String "<" p) (String c s) = false.
Proof. intros H. cbn [Js.startsWith]. by rewrite H. Qed.

Lemma removeTags_aux_close (fuel : nat) (b : string) :
  noAngle b = true -> (String.length b < fuel)%nat ->
  removeTags_aux fuel (b ++ "</think>") = b.
Proof.
  revert fuel. induction b as [|x b IH]; intros fuel Hb Hfuel.
  - destruct fuel as [|fuel]; [simpl in Hfuel; lia|]. rewrite append_nil_l.
    rewrite removeTags_aux_step.
    assert (Js.startsWith "<think>" "</think>" = false) as -> by done.
    assert (Js.startsWith "</think>" "</think>" = true) as -> by done.
    assert (Js.drop 8 "</think>" = "") as -> by done. by destruct fuel.
  - cbn [noAngle] in Hb. apply andb_true_iff in Hb as [Hx Hb]. apply negb_true_iff in Hx.
    destruct fuel as [|fuel]; [simpl in Hfuel; lia|]. rewrite append_cons.
    rewrite removeTags_aux_step, !startsWith_other by done.
    rewrite IH; [done|done|]. simpl in Hfuel. lia.
Qed.

Lemma removeTags_span (b : string) :
  noAngle b = true -> removeTags ("<think>" ++ b ++ "</think>") = b.
Proof.
  intros Hb. unfold removeTags.
  destruct (String.length ("<think>" ++ b ++ "</think>")) as [|fuel] eqn:Hlen.
  { rewrite !length_append in Hlen. simpl in Hlen. lia. }
  rewrite removeTags_aux_step, startsWith_app.
  change 7%nat with (String.length "<think>"). rewrite drop_app.
  apply removeTags_aux_close; [done|].
  rewrite !length_append in Hlen. simpl in Hlen. lia.
Qed.

(** One think span between texts without ['<']. *)
Lemma parseThinkTags_span (before inner after : string) :
  noAngle before = true -> noAngle inner = true -> noAngle after = true ->
  parseThinkTags (before ++ "<think>" ++ inner ++ "</think>" ++ after)
  = (Js.trim (before ++ after), Some (Js.trim inner)).
Proof.
  intros Ha Hb Hc. unfold parseThinkTags.
  set (content := before ++ "<think>" ++ inner ++ "</think>" ++ after).
  assert (thinkScan (String.length content) content
          = (["<think>" ++ inner ++ "</think>"], before ++ after)) as ->.
  { destruct (String.length content) as [|fuel] eqn:Hlen.
    { subst content. rewrite !length_append in Hlen. simpl in Hlen. lia. }
    cbn [thinkScan]. subst content.
    rewrite (breakOn_noAngle "think>" before _ Ha).
    rewrite (breakOn_noAngle "/think>" inner _ Hb).
    assert (thinkScan fuel after = ([], after)) as ->.
    { destruct fuel; [done|]. cbn [thinkScan].
      by rewrite (breakOn_noAngle_None "think>" after Hc). }
    done. }
  cbn [map Js.join]. by rewrite removeTags_span.
Qed.

(** X15.  A complete response with one think span: [parseThinkTags] takes
    [before<think>inner</think>after] apart into the trimmed visible text
    [before ++ after] and the trimmed reasoning [inner], for texts that
    hold no ['<'] of their own. *)
Theorem parseThinkTags_one_span (before inner after : string) :
  noAngle before = true -> noAngle inner = true -> noAngle after = true ->
  parseThinkTags (before ++ "<think>" ++ inner ++ "</think>" ++ after)
  = (Js.trim (before ++ after), Some (Js.trim inner)).
Proof. apply parseThinkTags_span. Qed.

Lemma parseThinkTags_one_span_witness :
  parseThinkTags ("Sure. " ++ "<think>" ++ " 2+2=4 " ++ "</think>" ++ " It is 4. ")
  = ("Sure.  It is 4.", Some "2+2=4").
Proof.
  apply (parseThinkTags_one_span "Sure. " " 2+2=4 " " It is 4. "); reflexivity.
Defined.

(** ** The model name *)

Lemma getTrimmedString_Some (value : option string) (name : string) :
  getTrimmedString value = Some name ->
  exists raw, value = Some raw /\ name = Js.trim raw /\ Js.isEmpty name = false.
Proof.
  unfold getTrimmedString. destruct value as [raw|]; [|done].
  destruct (Js.isEmpty (Js.trim raw)) eqn:E; [done|]. intros [= <-]. by exists raw.
Qed.

(** X17.  The model name that [extractModelName] reports is never blank and
    has no white space around it; it is the trimmed [model] of the response
    or, when that is missing or blank, of the first choice's [delta] or
    [message]. *)
Theorem extractModelName_trimmed (data : ApiResponse) (name : string) :
  extractModelName data = Some name ->
  Js.isEmpty name = false
  /\ Js.trim name = name
  /\ exists raw,
       name = Js.trim raw
       /\ (model data = Some raw
           \/ exists firstChoice,
                head (choices data) = Some firstChoice
                /\ (delta firstChoice ≫= msg_model = Some raw
                    \/ message firstChoice ≫= msg_model = Some raw)).
Proof.
  unfold extractModelName. intros H.
  assert (exists raw,
             name = Js.trim raw /\ Js.isEmpty name = false
             /\ (model data = Some raw
                 \/ exists firstChoice,
                      head (choices data) = Some firstChoice
                      /\ (delta firstChoice ≫= msg_model = Some raw
                          \/ message firstChoice ≫= msg_model = Some raw)))
    as (raw & -> & Hne & Hfrom).
  { destruct (getTrimmedString (model data)) as [rootModel|] eqn:Hroot.
    { simplify_eq. apply getTrimmedString_Some in Hroot as (raw & ? & ? & ?). eauto 6. }
    destruct (head (choices data)) as [firstChoice|]; [|done].
    destruct (getTrimmedString (delta firstChoice ≫= msg_model)) as [deltaModel|] eqn:Hdelta.
    { simplify_eq. apply getTrimmedString_Some in Hdelta as (raw & ? & ? & ?). eauto 8. }
    apply getTrimmedString_Some in H as (raw & ? & ? & ?). eauto 8. }
  split_and!; [done|apply trim_idem|by exists raw].
Qed.

Lemma extractModelName_trimmed_witness :
  Js.isEmpty "llama-3" = false
  /\ Js.trim "llama-3" = "llama-3"
  /\ exists raw,
       "llama-3" = Js.trim raw
       /\ (model (mkApiResponse None (Some "  ")
                    [mkApiChoice (Some (mkApiMessage None None None None (Some " llama-3 ")))
                       None None] None None None) = Some raw
           \/ exists firstChoice,
                head (choices (mkApiResponse None (Some "  ")
                                 [mkApiChoice
                                    (Some (mkApiMessage None None None None (Some " llama-3 ")))
                                    None None] None None None)) = Some firstChoice
                /\ (delta firstChoice ≫= msg_model = Some raw
                    \/ message firstChoice ≫= msg_model = Some raw)).
Proof.
  apply (extractModelName_trimmed
           (mkApiResponse None (Some "  ")
              [mkApiChoice (Some (mkApiMessage None None None None (Some " llama-3 ")))
                 None None] None None None) "llama-3").
  reflexivity.
Defined.

(** ** Content without tags, and a think span that is never closed *)

Lemma noAngle_app (s t : string) : noAngle (s ++ t) = noAngle s && noAngle t.
Proof.
  induction s as [|c s IH]; [done|]. rewrite append_cons. cbn [noAngle].
  by rewrite IH, andb_assoc.
Qed.

Lemma includes_noAngle (p s : string) :
  noAngle s = true -> Js.includes (String "<" p) s = false.
Proof. intros H. unfold Js.includes. by rewrite breakOn_noAngle_None. Qed.

Ltac same_text :=
  st_cbn; repeat (case_match; st_cbn); unfold sameText; st_cbn;
  rewrite ?visibleText_snoc, ?reasoningText_snoc; st_cbn; rewrite ?append_nil_r; done.

Lemma sameText_notifyFirstValidChunk (parsed : ApiResponse) (st : StreamState) :
  sameText st (notifyFirstValidChunk false parsed st).
Proof. unfold notifyFirstValidChunk. destruct st. same_text. Qed.

Lemma sameText_reportModel (parsed : ApiResponse) (st : StreamState) :
  sameText st (reportModel parsed st).
Proof. unfold reportModel. destruct st. same_text. Qed.

Lemma sameText_noteTimings (now : Z) (parsed : ApiResponse) (st : StreamState) :
  sameText st (noteTimings now parsed st).
Proof. unfold noteTimings. destruct st. same_text. Qed.

(** A delta without ['<'], with nothing but such text in the buffer: outside
    a think span it is reported as it is, inside it is held back. *)
Lemma processContent_noAngle (st : StreamState) (d : string) :
  noAngle (thinkBuffer st) = true -> noAngle d = true ->
  let st' := processContent false d st in
  insideThinkTag st' = insideThinkTag st
  /\ thinkBuffer st' = thinkBuffer st ++ d
  /\ visibleText (events st')
     = visibleText (events st) ++ (if insideThinkTag st then "" else d)
  /\ reasoningText (events st') = reasoningText (events st).
Proof.
  intros Hbuf Hd.
  destruct st as [ac fr calls lt sf me fv off ho tb it ft ud ch evs]. st_cbn.
  assert (noAngle (tb ++ d) = true) as Hboth by by rewrite noAngle_app, Hbuf, Hd.
  pose proof (includes_noAngle "think>" _ Hboth) as Hopen.
  pose proof (includes_noAngle "/think>" _ Hboth) as Hclose.
  unfold processContent, finalizeOpenToolCallBatch.
  destruct ho, it; do 3 (st_cbn; rewrite ?Hopen, ?Hclose); st_cbn;
    rewrite ?visibleText_snoc, ?reasoningText_snoc; st_cbn; rewrite ?append_nil_r; done.
Qed.

Lemma feed_noAngle (st : StreamState) (d : string) :
  noAngle (thinkBuffer st) = true -> noAngle d = true ->
  let st' := feed st d in
  insideThinkTag st' = insideThinkTag st
  /\ noAngle (thinkBuffer st') = true
  /\ visibleText (events st')
     = visibleText (events st) ++ (if insideThinkTag st then "" else d)
  /\ reasoningText (events st') = reasoningText (events st).
Proof.
  intros Hbuf Hd. unfold feed. rewrite processChunk_steps.
  set (parsed := contentChunk d).
  set (st1 := notifyFirstValidChunk false parsed st).
  set (st2 := reportModel parsed st1).
  set (st3 := noteTimings 0 parsed st2).
  destruct (sameText_notifyFirstValidChunk parsed st) as (Hi1 & Hb1 & Hv1 & Hr1).
  destruct (sameText_reportModel parsed st1) as (Hi2 & Hb2 & Hv2 & Hr2).
  destruct (sameText_noteTimings 0 parsed st2) as (Hi3 & Hb3 & Hv3 & Hr3).
  fold st1 in Hi1, Hb1, Hv1, Hr1. fold st2 in Hi2, Hb2, Hv2, Hr2.
  fold st3 in Hi3, Hb3, Hv3, Hr3.
  assert (insideThinkTag st3 = insideThinkTag st) as Hi by congruence.
  assert (thinkBuffer st3 = thinkBuffer st) as Hb by congruence.
  assert (visibleText (events st3) = visibleText (events st)) as Hv by congruence.
  assert (reasoningText (events st3) = reasoningText (events st)) as Hr by congruence.
  change (toolStep false parsed ?s) with s. change (reasoningStep false parsed ?s) with s.
  unfold contentStep. change (chunkContent parsed) with (Some d).
  destruct d as [|c d].
  - cbn [Js.truthy]. rewrite Hi, Hb, Hv, Hr. split_and!; try done.
    destruct (insideThinkTag st); by rewrite append_nil_r.
  - remember (String c d) as text eqn:Htext.
    assert (Js.truthy (Some text) = true) as -> by by subst.
    cbn [Js.orEmpty].
    destruct (processContent_noAngle st3 text) as (Hi' & Hb' & Hv' & Hr'); [congruence|done|].
    rewrite Hi', Hb', Hv', Hr', Hi, Hb, Hv, Hr. split_and!; try done.
    by rewrite noAngle_app, Hbuf, Hd.
Qed.

Lemma fold_feed_noAngle (ds : list string) (st : StreamState) :
  noAngle (thinkBuffer st) = true -> Forall (fun d => noAngle d = true) ds ->
  let st' := fold_left feed ds st in
  insideThinkTag st' = insideThinkTag st
  /\ visibleText (events st')
     = visibleText (events st) ++ (if insideThinkTag st then "" else appendAll ds)
  /\ reasoningText (events st') = reasoningText (events st).
Proof.
  intros Hbuf Hall. revert st Hbuf.
  induction Hall as [|d ds Hd Hall IH]; intros st Hbuf.
  - cbn [fold_left appendAll fold_right]. split_and!; try done.
    destruct (insideThinkTag st); by rewrite append_nil_r.
  - cbn [fold_left].
    destruct (feed_noAngle st d Hbuf Hd) as (Hi & Hb & Hv & Hr).
    destruct (IH (feed st d) Hb) as (Hi' & Hv' & Hr').
    rewrite Hi', Hv', Hr', Hi, Hv, Hr. split_and!; try done.
    destruct (insideThinkTag st); [by rewrite !append_nil_r|].
    cbn [appendAll fold_right]. by rewrite append_assoc.
Qed.

Lemma decodeDeltas_fold (ds : list string) : decodeDeltas ds = fold_left feed ds initialState.
Proof. reflexivity. Qed.

(** X18.  Content without tags is streamed as it is: when no content delta
    holds a ['<'], [onChunk] receives the deltas themselves, so that the
    visible text is their concatenation, and nothing is reported as
    reasoning. *)
Theorem plain_content_streamed_verbatim (ds : list string) :
  Forall (fun d => noAngle d = true) ds ->
  visibleText (events (decodeDeltas ds)) = appendAll ds
  /\ reasoningText (events (decodeDeltas ds)) = "".
Proof.
  intros Hall. rewrite decodeDeltas_fold.
  destruct (fold_feed_noAngle ds initialState eq_refl Hall) as (_ & Hv & Hr). by split.
Qed.

Lemma split_open_tag (before rest : string) :
  noAngle before = true -> noAngle rest = true ->
  Js.split "<think>" (before ++ "<think>" ++ rest) = [before; rest].
Proof.
  intros Ha Hb. unfold Js.split.
  destruct (String.length (before ++ "<think>" ++ rest)) as [|fuel] eqn:Hlen.
  { rewrite !length_append in Hlen. simpl in Hlen. lia. }
  cbn [Js.split_aux]. rewrite (breakOn_noAngle "think>" before rest Ha).
  destruct fuel; [done|]. cbn [Js.split_aux]. by rewrite (breakOn_noAngle_None "think>" rest Hb).
Qed.

(** A delta that opens a think span and does not close it, on a decoder
    with an empty buffer. *)
Lemma processContent_open_tag (st : StreamState) (before inner : string) :
  insideThinkTag st = false -> thinkBuffer st = "" ->
  noAngle before = true -> noAngle inner = true ->
  let st' := processContent false (before ++ "<think>" ++ inner) st in
  insideThinkTag st' = true
  /\ thinkBuffer st' = inner
  /\ visibleText (events st') = visibleText (events st) ++ before
  /\ reasoningText (events st') = reasoningText (events st).
Proof.
  intros Hin Hbuf Ha Hb.
  destruct st as [ac fr calls lt sf me fv off ho tb it ft ud ch evs]. st_cbn. subst it tb.
  set (text := before ++ "<think>" ++ inner).
  assert (Js.includes "<think>" text = true) as Hopen.
  { unfold Js.includes, text. by rewrite (breakOn_noAngle "think>" before inner Ha). }
  pose proof (split_open_tag before inner Ha Hb) as Hsplit. fold text in Hsplit.
  pose proof (includes_noAngle "/think>" inner Hb) as Hclose.
  clearbody text.
  unfold processContent, finalizeOpenToolCallBatch.
  destruct ho; st_cbn; rewrite ?append_nil_l, ?Hopen; st_cbn; rewrite ?Hsplit;
    cbn [Js.at_ nth_error Js.orEmpty]; st_cbn;
    (destruct before as [|c before]; cbn [Js.truthy]; st_cbn; rewrite ?Hclose; st_cbn;
     rewrite ?Hclose; st_cbn; rewrite ?visibleText_snoc, ?reasoningText_snoc; st_cbn;
     rewrite ?append_nil_r; done).
Qed.

Lemma feed_open_tag (before inner : string) :
  noAngle before = true -> noAngle inner = true ->
  let st' := feed initialState (before ++ "<think>" ++ inner) in
  insideThinkTag st' = true
  /\ thinkBuffer st' = inner
  /\ visibleText (events st') = before
  /\ reasoningText (events st') = "".
Proof.
  intros Ha Hb. unfold feed. rewrite processChunk_steps.
  set (text := before ++ "<think>" ++ inner).
  assert (Js.truthy (Some text) = true) as Htruthy.
  { unfold text. destruct before; by rewrite ?append_cons, ?append_nil_l. }
  set (parsed := contentChunk text).
  set (st1 := notifyFirstValidChunk false parsed initialState).
  set (st2 := reportModel parsed st1).
  set (st3 := noteTimings 0 parsed st2).
  destruct (sameText_notifyFirstValidChunk parsed initialState) as (Hi1 & Hb1 & Hv1 & Hr1).
  destruct (sameText_reportModel parsed st1) as (Hi2 & Hb2 & Hv2 & Hr2).
  destruct (sameText_noteTimings 0 parsed st2) as (Hi3 & Hb3 & Hv3 & Hr3).
  fold st1 in Hi1, Hb1, Hv1, Hr1. fold st2 in Hi2, Hb2, Hv2, Hr2.
  fold st3 in Hi3, Hb3, Hv3, Hr3.
  assert (insideThinkTag st3 = false) as Hi by (rewrite Hi3, Hi2, Hi1; reflexivity).
  assert (thinkBuffer st3 = "") as Hbuf by (rewrite Hb3, Hb2, Hb1; reflexivity).
  assert (visibleText (events st3) = "") as Hv by (rewrite Hv3, Hv2, Hv1; reflexivity).
  assert (reasoningText (events st3) = "") as Hr by (rewrite Hr3, Hr2, Hr1; reflexivity).
  change (toolStep false parsed ?s) with s. change (reasoningStep false parsed ?s) with s.
  unfold contentStep. change (chunkContent parsed) with (Some text).
  rewrite Htruthy. cbn [Js.orEmpty].
  destruct (processContent_open_tag st3 before inner Hi Hbuf Ha Hb) as (Hi' & Hb' & Hv' & Hr').
  fold text in Hi', Hb', Hv', Hr'.
  rewrite Hi', Hb', Hv', Hr', Hv, Hr. by rewrite append_nil_l.
Qed.

(** X19.  A think span that is never closed swallows the rest of the
    response: when the first content delta holds text, an opening tag and
    more text, and neither it nor any later delta holds another ['<'], only
    the text before the tag is reported as visible content, and nothing is
    reported as reasoning. *)
Theorem unterminated_think_swallows_rest (before inner : string) (more : list string) :
  noAngle before = true -> noAngle inner = true ->
  Forall (fun d => noAngle d = true) more ->
  visibleText (events (decodeDeltas ((before ++ "<think>" ++ inner) :: more))) = before
  /\ reasoningText (events (decodeDeltas ((before ++ "<think>" ++ inner) :: more))) = "".
Proof.
  intros Ha Hb Hall. rewrite decodeDeltas_fold. cbn [fold_left].
  destruct (feed_open_tag before inner Ha Hb) as (Hi & Hbuf & Hv & Hr).
  destruct (fold_feed_noAngle more (feed initialState (before ++ "<think>" ++ inner)))
    as (_ & Hv' & Hr'); [by rewrite Hbuf|done|].
  rewrite Hv', Hr', Hi, Hv, Hr. by rewrite append_nil_r.
Qed.

Lemma plain_content_streamed_verbatim_witness :
  visibleText (events (decodeDeltas ["Hel"; "lo, "; "world"])) = appendAll ["Hel"; "lo, "; "world"]
  /\ reasoningText (events (decodeDeltas ["Hel"; "lo, "; "world"])) = "".
Proof.
  apply (plain_content_streamed_verbatim ["Hel"; "lo, "; "world"]).
  repeat constructor.
Defined.

Lemma unterminated_think_swallows_rest_witness :
  visibleText (events (decodeDeltas (("Hm. " ++ "<think>" ++ "Let me") :: [" see."; " 4"])))
  = "Hm. "
  /\ reasoningText (events (decodeDeltas (("Hm. " ++ "<think>" ++ "Let me") :: [" see."; " 4"])))
     = "".
Proof.
  apply (unterminated_think_swallows_rest "Hm. " "Let me" [" see."; " 4"]);
    [reflexivity|reflexivity|repeat constructor].
Defined.

(** ** A complete response that is all reasoning *)

Lemma allSpace_noAngle (s : string) : allSpace s = true -> noAngle s = true.
Proof.
  induction s as [|c s IH]; [done|]. cbn [allSpace noAngle].
  intros [Hc Hs]%andb_true_iff. by rewrite (space_not_angle c Hc), (IH Hs).
Qed.

Lemma allSpace_app (s t : string) : allSpace (s ++ t) = allSpace s && allSpace t.
Proof.
  induction s as [|c s IH]; [done|]. rewrite append_cons. cbn [allSpace].
  by rewrite IH, andb_assoc.
Qed.

Lemma trimStart_blank (s : string) : allSpace s = true -> Js.trimStart s = "".
Proof.
  induction s as [|c s IH]; [done|]. cbn [allSpace Js.trimStart].
  intros [-> Hs]%andb_true_iff. by apply IH.
Qed.

Lemma trim_blank (s : string) : allSpace s = true -> Js.trim s = "".
Proof. intros H. unfold Js.trim. by rewrite trimStart_blank. Qed.

(** X20.  A complete response that is all reasoning is rejected: when the
    content of the message is one think span with nothing but white space
    around it, and the message has no reasoning field and no tool calls,
    [handleNonStreamResponse] reports "No response received" through
    [onError] and rejects, and [onComplete] is not invoked, although the
    model did answer. *)
Theorem reasoning_only_response_rejected
    (JSON_parse : string -> option ResponseBody) (responseText : string)
    (startTime : option Z) (endTime : Z) (data : ApiResponse) (before inner after : string) :
  JSON_parse responseText = Some (WithChoices data) ->
  firstMessage data ≫= content = Some (before ++ "<think>" ++ inner ++ "</think>" ++ after) ->
  allSpace before = true -> noAngle inner = true -> allSpace after = true ->
  noReasoningField data -> noToolCalls data ->
  exists reported,
    handleNonStreamResponse JSON_parse responseText startTime endTime
    = (Rejected noResponseError, (reported ++ [OnError noResponseError])%list)
    /\ existsb terminal reported = false.
Proof.
  intros Hparse Hcontent Ha Hb Hc Hreasoning Htools.
  unfold handleNonStreamResponse, nonStreamBody.
  destruct (Js.isEmpty (Js.trim responseText)); [by exists []|].
  rewrite Hparse. unfold noToolCalls, noReasoningField, firstMessage in *.
  set (message0 := head (choices data) ≫= message) in *.
  rewrite Hcontent.
  set (text := before ++ "<think>" ++ inner ++ "</think>" ++ after).
  assert (Js.orEmpty (orElse (Some text) (Some "")) = text) as ->.
  { unfold orElse, text. destruct before; by rewrite ?append_cons, ?append_nil_l. }
  assert (Js.isEmpty text = false) as ->.
  { unfold text. destruct before; by rewrite ?append_cons, ?append_nil_l. }
  rewrite Hreasoning. cbn [negb andb].
  unfold text. rewrite parseThinkTags_span by auto using allSpace_noAngle.
  cbn [fst snd].
  assert (Js.trim (before ++ after) = "") as ->.
  { apply trim_blank. by rewrite allSpace_app, Ha, Hc. }
  set (evs := match extractModelName data with
              | Some responseModel => [OnModel responseModel]
              | None => []
              end).
  assert (existsb terminal evs = false) as Hevs.
  { unfold evs. by destruct (extractModelName data). }
  destruct (message0 ≫= tool_calls) as [[|d ds]|]; try done; by exists evs.
Qed.

Lemma reasoning_only_response_rejected_witness :
  exists reported,
    handleNonStreamResponse (fun _ => Some (WithChoices thinkingOnly)) "{}" (Some 1000) 1250
    = (Rejected noResponseError, (reported ++ [OnError noResponseError])%list)
    /\ existsb terminal reported = false.
Proof.
  apply (reasoning_only_response_rejected (fun _ => Some (WithChoices thinkingOnly)) "{}"
           (Some 1000) 1250
           thinkingOnly "" "Let me see." newline); first [reflexivity | exact I].
Defined.

(** ** Stored messages and their attachments *)

Lemma perm_move {A} (X ps Y : list A) : ((X ++ ps) ++ Y ≡ₚ (X ++ Y) ++ ps)%list.
Proof. rewrite <- !app_assoc. apply Permutation_app_head, Permutation_app_comm. Qed.

(** The five loops together take every attachment once. *)
Lemma regroup (extra : list Extra) (P1 P2 P3 P4 P5 : list JsVal) :
  ((P1 ++ flat_map imageParts extra) ++ (P2 ++ flat_map textFileParts extra)
     ++ (P3 ++ flat_map legacyContextParts extra) ++ (P4 ++ flat_map audioParts extra)
     ++ (P5 ++ flat_map pdfParts extra)
   ≡ₚ (P1 ++ P2 ++ P3 ++ P4 ++ P5) ++ flat_map partsOf extra)%list.
Proof.
  revert P1 P2 P3 P4 P5. induction extra as [|e extra IH]; intros P1 P2 P3 P4 P5.
  - cbn [flat_map]. by rewrite !app_nil_r.
  - cbn [flat_map].
    rewrite (app_assoc P1), (app_assoc P2), (app_assoc P3), (app_assoc P4), (app_assoc P5).
    rewrite IH.
    rewrite (app_assoc _ (partsOf e)). apply Permutation_app_tail.
    unfold partsOf.
    destruct e; cbn [imageParts textFileParts legacyContextParts audioParts pdfParts];
      rewrite ?app_nil_r, ?app_nil_l.
    + by rewrite perm_move.
    + rewrite (perm_move P2). by rewrite !app_assoc.
    + rewrite (perm_move P3). by rewrite !app_assoc.
    + rewrite (perm_move P4). by rewrite !app_assoc.
    + by rewrite !app_assoc.
    + done.
Qed.

(** X21.  The conversion of a stored message with attachments takes every
    attachment once: the content parts are the text of the message (when it
    has one, as the first part) and the parts of the attachments taken one by
    one, regrouped by type; an attachment of an unknown type has no part, and
    a PDF that was processed as images has one part per page. *)
Theorem attachments_taken_once (message : DatabaseMessage) (extra : list Extra) :
  db_extra message = Some extra -> extra <> [] ->
  role (convertMessageToChatServiceData message) = db_role message
  /\ exists parts,
       msg_content (convertMessageToChatServiceData message) = VArr parts
       /\ (parts ≡ₚ (if Js.isEmpty (db_content message) then []
                     else [textPart (db_content message)])
                    ++ flat_map partsOf extra)%list
       /\ (Js.isEmpty (db_content message) = false ->
           head parts = Some (textPart (db_content message))).
Proof.
  intros Hextra Hne. unfold convertMessageToChatServiceData. rewrite Hextra.
  destruct extra as [|e extra]; [done|]. cbn [role msg_content]. split; [done|].
  eexists. split; [reflexivity|]. split.
  - set (text := if Js.isEmpty (db_content message) then [] else [textPart (db_content message)]).
    pose proof (regroup (e :: extra) text [] [] [] []) as H.
    rewrite !app_nil_l, !app_nil_r in H. rewrite <- H. by rewrite <- !app_assoc.
  - by intros ->.
Qed.

(** X22.  Which stored messages reach the request: a stored message of any
    role but [system] always does; a stored system message does only when it
    has no attachment and its text is not blank. *)
Theorem stored_message_kept (message : DatabaseMessage) :
  keepMessage (normalizeMessage (Stored message))
  = if String.eqb (db_role message) "system"
    then match db_extra message with
         | None | Some [] => negb (Js.isEmpty (Js.trim (db_content message)))
         | Some _ => false
         end
    else true.
Proof.
  unfold keepMessage, normalizeMessage, convertMessageToChatServiceData.
  destruct (db_extra message) as [[|e extra]|]; cbn [role msg_content];
    by destruct (String.eqb (db_role message) "system").
Qed.

Lemma attachments_taken_once_witness :
  role (convertMessageToChatServiceData illustratedMessage) = "user"
  /\ exists parts,
       msg_content (convertMessageToChatServiceData illustratedMessage) = VArr parts
       /\ (parts ≡ₚ [textPart "Compare."]
                    ++ flat_map partsOf
                         [TextFile "a.txt" "alpha"; ImageFile "data:image/png;base64,AAAA";
                          TextFile "b.txt" "beta"])%list
       /\ (Js.isEmpty "Compare." = false -> head parts = Some (textPart "Compare.")).
Proof.
  apply (attachments_taken_once illustratedMessage
           [TextFile "a.txt" "alpha"; ImageFile "data:image/png;base64,AAAA";
            TextFile "b.txt" "beta"]); [reflexivity|discriminate].
Defined.

(** ** The start-up check and the request path *)

Lemma startsWith_dropLast (p s : string) :
  Js.startsWith p (Js.dropLast s) = true -> Js.startsWith p s = true.
Proof.
  revert s. induction p as [|a p IH]; intros s H; [done|].
  destruct s as [|b s]; [done|]. destruct s as [|c s]; [done|].
  change (Js.dropLast (String b (String c s))) with (String b (Js.dropLast (String c s))) in H.
  apply startsWith_cons in H as [-> H]. apply startsWith_cons. split; [done|]. by apply IH.
Qed.

Lemma isExternalApi_scheme (u : string) :
  isExternalApi u = true ->
  Js.startsWith "http://" u = true \/ Js.startsWith "https://" u = true.
Proof.
  unfold isExternalApi. intros [_ H]%andb_true_iff. by apply orb_true_iff in H.
Qed.

Lemma resolveBaseUrl_validation (cfg : Config) :
  resolveBaseUrl cfg
  = if negb (String.eqb (validationBaseUrl cfg) ".") && Js.endsWith "/" (validationBaseUrl cfg)
    then Js.dropLast (validationBaseUrl cfg) else validationBaseUrl cfg.
Proof. reflexivity. Qed.

(** X23.  The start-up check of the API key follows the request path: it is
    skipped for every server that [sendMessage] treats as external, and
    otherwise only for the base URLs [http://] and [https://], which lose
    their last slash in [sendMessage]; it denies access exactly when the
    local server answers 401 or 403. *)
Theorem key_validation_follows_request_path (cfg : Config) (props : PropsResult) :
  (isExternalApi (resolveBaseUrl cfg) = true -> validateApiKey true cfg props = NotChecked)
  /\ (validateApiKey true cfg props = NotChecked ->
      isExternalApi (resolveBaseUrl cfg) = true
      \/ validationBaseUrl cfg = "http://" \/ validationBaseUrl cfg = "https://")
  /\ (validateApiKey true cfg props = AccessDenied <->
      isExternalApi (validationBaseUrl cfg) = false
      /\ exists resp, props = PropsResponse resp /\ (status resp = 401 \/ status resp = 403)).
Proof.
  rewrite resolveBaseUrl_validation. set (u := validationBaseUrl cfg).
  unfold validateApiKey. fold u. cbn [negb]. split_and!.
  - intros Hext.
    assert (isExternalApi u = true) as ->; [|done].
    destruct (negb (String.eqb u ".") && Js.endsWith "/" u); [|done].
    apply isExternalApi_prefix.
    destruct (isExternalApi_scheme _ Hext) as [H|H]; [left|right]; by apply startsWith_dropLast.
  - destruct (isExternalApi u) eqn:Hext.
    + intros _.
      destruct (negb (String.eqb u ".") && Js.endsWith "/" u); [|by left].
      destruct (String.eqb_spec u "http://") as [?|Hhttp]; [by right; left|].
      destruct (String.eqb_spec u "https://") as [?|Hhttps]; [by right; right|].
      left. apply isExternalApi_prefix.
      destruct (isExternalApi_scheme _ Hext) as [H|H]; [left|right];
        (apply dropLast_prefix; [done|]; by apply startsWith_longer).
    + destruct props as [resp|[]]; repeat case_match; done.
  - destruct (isExternalApi u).
    + split; [done|]. by intros [? _].
    + destruct props as [resp|hasStatus].
      * unfold ok.
        destruct (Z.eqb_spec (status resp) 401) as [H1|H1];
          destruct (Z.eqb_spec (status resp) 403) as [H3|H3]; cbn [orb].
        -- lia.
        -- rewrite H1. cbn. split; [|done]. intros _. split; [done|]. exists resp. by split; [|left].
        -- rewrite H3. cbn. split; [|done]. intros _. split; [done|]. exists resp. by split; [|right].
        -- split.
           ++ by destruct (negb _).
           ++ intros [_ (resp' & [= <-] & [?|?])]; lia.
      * split; [by destruct hasStatus|]. by intros [_ (resp & ? & _)].
Qed.

(** ** The context of a generated title *)


(** ** Parameters saved per model *)

Lemma toLowerChar_idem (c : ascii) : toLowerChar (toLowerChar c) = toLowerChar c.
Proof. destruct c as [[] [] [] [] [] [] [] []]; reflexivity. Qed.

Lemma isSpace_toLowerChar (c : ascii) : Js.isSpace (toLowerChar c) = Js.isSpace c.
Proof. destruct c as [[] [] [] [] [] [] [] []]; reflexivity. Qed.

Lemma toLowerChar_slash (c : ascii) : Ascii.eqb "/" (toLowerChar c) = Ascii.eqb "/" c.
Proof. destruct c as [[] [] [] [] [] [] [] []]; reflexivity. Qed.

Lemma toLowerCase_idem (s : string) : toLowerCase (toLowerCase s) = toLowerCase s.
Proof. induction s as [|c s IH]; [done|]. cbn [toLowerCase]. by rewrite toLowerChar_idem, IH. Qed.

Lemma toLowerCase_app (s t : string) : toLowerCase (s ++ t) = toLowerCase s ++ toLowerCase t.
Proof. induction s as [|c s IH]; [done|]. rewrite append_cons. cbn [toLowerCase]. by rewrite IH. Qed.

Lemma trimStart_toLowerCase (s : string) :
  Js.trimStart (toLowerCase s) = toLowerCase (Js.trimStart s).
Proof.
  induction s as [|c s IH]; [done|]. cbn [toLowerCase Js.trimStart].
  rewrite isSpace_toLowerChar. by destruct (Js.isSpace c).
Qed.

Lemma trimEnd_toLowerCase (s : string) :
  Js.trimEnd (toLowerCase s) = toLowerCase (Js.trimEnd s).
Proof.
  induction s as [|c s IH]; [done|]. cbn [toLowerCase]. rewrite !trimEnd_cons, IH.
  destruct (Js.trimEnd s); cbn [toLowerCase]; [|done].
  rewrite isSpace_toLowerChar. by destruct (Js.isSpace c).
Qed.

Lemma trim_toLowerCase (s : string) : Js.trim (toLowerCase s) = toLowerCase (Js.trim s).
Proof. unfold Js.trim. by rewrite trimStart_toLowerCase, trimEnd_toLowerCase. Qed.

(** The last character, and what [endsWith] and [dropLast] make of it. *)
Lemma rev_acc_snoc (s : string) (c : ascii) (acc : string) :
  Js.rev_acc (s ++ String c "") acc = String c (Js.rev_acc s acc).
Proof.
  revert acc. induction s as [|d s IH]; intros acc; [by rewrite append_nil_l|].
  rewrite append_cons. cbn [Js.rev_acc]. apply IH.
Qed.

Lemma rev_snoc (s : string) (c : ascii) : Js.rev (s ++ String c "") = String c (Js.rev s).
Proof. apply rev_acc_snoc. Qed.

Lemma endsWith_snoc (s : string) (c d : ascii) :
  Js.endsWith (String c "") (s ++ String d "") = Ascii.eqb c d.
Proof. unfold Js.endsWith. rewrite rev_snoc. cbn. by rewrite andb_true_r. Qed.

Lemma dropLast_snoc (s : string) (c : ascii) : Js.dropLast (s ++ String c "") = s.
Proof.
  induction s as [|d s IH]; [done|]. rewrite append_cons.
  destruct s as [|e s]; [done|].
  change (Js.dropLast (String d (String e s ++ String c "")))
    with (String d (Js.dropLast (String e s ++ String c ""))).
  by rewrite IH.
Qed.

Lemma snoc_cases (s : string) : s = "" \/ exists t c, s = t ++ String c "".
Proof.
  induction s as [|d s IH]; [by left|]. right.
  destruct IH as [->|(t & c & ->)]; [by exists "", d|]. by exists (String d t), c.
Qed.

Lemma endsWith_slash_toLowerCase (s : string) :
  Js.endsWith "/" (toLowerCase s) = Js.endsWith "/" s.
Proof.
  destruct (snoc_cases s) as [->|(t & c & ->)]; [done|].
  rewrite toLowerCase_app. cbn [toLowerCase]. by rewrite !endsWith_snoc, toLowerChar_slash.
Qed.

Lemma trimStart_trim_snoc (s : string) (c : ascii) :
  Js.isSpace c = false ->
  Js.trimStart (Js.trim s ++ String c "") = Js.trim s ++ String c "".
Proof.
  intros Hc. pose proof (trimStart_trim s) as H.
  destruct (trimStart_head (Js.trim s)) as [Hnil|(d & t & Hcons & Hd)]; rewrite H in *.
  - rewrite Hnil, append_nil_l. cbn [Js.trimStart]. by rewrite Hc.
  - rewrite Hcons, append_cons. cbn [Js.trimStart]. by rewrite Hd.
Qed.

Lemma trimEnd_snoc (s : string) (c : ascii) :
  Js.isSpace c = false -> Js.trimEnd (s ++ String c "") = s ++ String c "".
Proof.
  intros Hc. induction s as [|d s IH].
  - rewrite append_nil_l, trimEnd_cons. cbn [Js.trimEnd]. by rewrite Hc.
  - rewrite append_cons, trimEnd_cons, IH. destruct s; by rewrite ?append_cons, ?append_nil_l.
Qed.

Lemma trim_trim_snoc (s : string) (c : ascii) :
  Js.isSpace c = false -> Js.trim (Js.trim s ++ String c "") = Js.trim s ++ String c "".
Proof.
  intros Hc. unfold Js.trim at 1. rewrite trimStart_trim_snoc by done. by apply trimEnd_snoc.
Qed.

(** X25.  The storage key does not tell apart two ways of writing the same
    server: the case of the URL, white space around the URL and the model
    name, and one trailing slash of the URL make no difference. *)
Theorem storage_key_insensitive (apiBaseUrl modelName : string) :
  getStorageKey (toLowerCase apiBaseUrl) modelName = getStorageKey apiBaseUrl modelName
  /\ getStorageKey (Js.trim apiBaseUrl) (Js.trim modelName) = getStorageKey apiBaseUrl modelName
  /\ (Js.endsWith "/" (Js.trim apiBaseUrl) = false ->
      getStorageKey (Js.trim apiBaseUrl ++ "/") modelName
      = getStorageKey apiBaseUrl modelName).
Proof.
  unfold getStorageKey. split_and!.
  - by rewrite trim_toLowerCase, toLowerCase_idem.
  - by rewrite !trim_idem.
  - intros Hslash. rewrite trim_trim_snoc by done.
    rewrite toLowerCase_app. cbn [toLowerCase]. unfold stripTrailingSlash.
    change (String (toLowerChar "/") "") with "/".
    rewrite endsWith_snoc, dropLast_snoc, endsWith_slash_toLowerCase, Hslash. done.
Qed.

Lemma paramsToSave_lookup (config : gmap string JsVal) (key : string) (v : JsVal) :
  (key, v) ∈ paramsToSave config <-> key ∈ MODEL_SPECIFIC_PARAMS /\ config !! key = Some v.
Proof.
  unfold paramsToSave. rewrite list_elem_of_omap. split.
  - intros (param & Hin & Hsome). destruct (config !! param) as [w|] eqn:E; [|done].
    cbn in Hsome. by simplify_eq.
  - intros [Hin Hv]. exists key. split; [done|]. by rewrite Hv.
Qed.

(** X26.  Only model-specific parameters are saved: the object written to
    the storage holds exactly the entries of the configuration whose key is
    on the list of model-specific parameters, each once, with the value of
    the configuration; no other setting of the configuration (an API key, a
    preference of the interface) is written. *)
Theorem only_model_specific_params_saved (config : gmap string JsVal) :
  (forall key v,
      (key, v) ∈ paramsToSave config <->
      isModelSpecificParam key = true /\ config !! key = Some v)
  /\ NoDup (paramsToSave config).*1.
Proof.
  split.
  - intros key v. rewrite paramsToSave_lookup. unfold isModelSpecificParam.
    by rewrite bool_decide_eq_true.
  - unfold paramsToSave.
    assert (NoDup MODEL_SPECIFIC_PARAMS) as Hnd
      by (apply (bool_decide_unpack (NoDup MODEL_SPECIFIC_PARAMS)); by vm_compute).
    revert Hnd. generalize MODEL_SPECIFIC_PARAMS. intros params Hnd.
    induction Hnd as [|param params Hnot Hnd IH]; [constructor|].
    cbn [omap list_omap]. destruct (config !! param) as [v|] eqn:E; cbn; [|done].
    constructor; [|done]. intros Hin. apply Hnot.
    apply list_elem_of_fmap in Hin as ([k w] & -> & Hkw).
    apply list_elem_of_omap in Hkw as (p & Hp & Hsome).
    destruct (config !! p); cbn in Hsome; by simplify_eq.
Qed.

Lemma getStorageKey_prefix (apiBaseUrl modelName : string) :
  Js.startsWith "model_params:" (getStorageKey apiBaseUrl modelName) = true.
Proof. unfold getStorageKey. apply startsWith_app. Qed.

Lemma lookup_fold_delete (keys : list string) (storage : gmap string string) (key : string) :
  fold_left (fun storage key => delete key storage) keys storage !! key
  = if bool_decide (key ∈ keys) then None else storage !! key.
Proof.
  revert storage. induction keys as [|k keys IH]; intros storage; [done|].
  cbn [fold_left]. rewrite IH.
  destruct (decide (key = k)) as [->|Hne].
  - rewrite lookup_delete_eq, (bool_decide_eq_true_2 (k ∈ k :: keys)) by left.
    by destruct (bool_decide (k ∈ keys)).
  - rewrite lookup_delete_ne by done.
    assert (bool_decide (key ∈ k :: keys) = bool_decide (key ∈ keys)) as ->; [|done].
    apply bool_decide_ext. rewrite elem_of_cons. naive_solver.
Qed.

Section SavedParams.

Variable JSON_stringify : JsVal -> string.
Variable JSON_parseValue : string -> option JsVal.

(** X27.  Saved parameters are read back, and only under their key.  In the
    browser, for a non-empty URL and model name, [loadModelParams] after
    [saveModelParams] returns the model-specific parameters of the saved
    configuration for every way of writing the URL and the model name that
    gives the same storage key (provided the JSON text of the parameters is
    read back as written), and what it returned before for every other
    key. *)
Theorem saved_params_read_back (storage : gmap string string)
    (apiBaseUrl modelName apiBaseUrl' modelName' : string) (config : gmap string JsVal) :
  Js.isEmpty apiBaseUrl = false -> Js.isEmpty modelName = false ->
  Js.isEmpty apiBaseUrl' = false -> Js.isEmpty modelName' = false ->
  Js.isEmpty (JSON_stringify (VObj (paramsToSave config))) = false ->
  JSON_parseValue (JSON_stringify (VObj (paramsToSave config)))
  = Some (VObj (paramsToSave config)) ->
  loadModelParams JSON_parseValue true
    (saveModelParams JSON_stringify true storage apiBaseUrl modelName config)
    apiBaseUrl' modelName'
  = if bool_decide (getStorageKey apiBaseUrl' modelName' = getStorageKey apiBaseUrl modelName)
    then Some (VObj (paramsToSave config))
    else loadModelParams JSON_parseValue true storage apiBaseUrl' modelName'.
Proof.
  intros Hu Hm Hu' Hm' Htext Hparse. unfold loadModelParams, saveModelParams.
  rewrite Hu, Hm, Hu', Hm'. cbn [negb orb]. case_bool_decide as Hkey.
  - by rewrite Hkey, lookup_insert_eq, Htext, Hparse.
  - by rewrite lookup_insert_ne.
Qed.

(** X28.  Deleting and clearing.  In the browser, after [deleteModelParams]
    nothing is loaded under the deleted key and every other key loads what
    it did; [clearAllModelParams] removes every item whose key begins with
    [model_params:] and leaves every other item of the storage alone, so
    that afterwards nothing is loaded for any model and no saved model is
    listed. *)
Theorem deleted_and_cleared_params (storage : gmap string string) :
  (forall apiBaseUrl modelName apiBaseUrl' modelName',
      loadModelParams JSON_parseValue true
        (deleteModelParams true storage apiBaseUrl modelName) apiBaseUrl' modelName'
      = if bool_decide (getStorageKey apiBaseUrl' modelName'
                        = getStorageKey apiBaseUrl modelName)
        then None else loadModelParams JSON_parseValue true storage apiBaseUrl' modelName')
  /\ (forall key,
        clearAllModelParams true storage !! key
        = if Js.startsWith "model_params:" key then None else storage !! key)
  /\ (forall apiBaseUrl modelName,
        loadModelParams JSON_parseValue true (clearAllModelParams true storage)
          apiBaseUrl modelName = None)
  /\ getAllSavedModels true (clearAllModelParams true storage) = [].
Proof.
  assert (forall key,
             clearAllModelParams true storage !! key
             = if Js.startsWith "model_params:" key then None else storage !! key) as Hclear.
  { intros key. unfold clearAllModelParams, getAllSavedModels. cbn [negb].
    rewrite lookup_fold_delete.
    destruct (Js.startsWith "model_params:" key) eqn:Hp.
    - case_bool_decide as Hin; [done|].
      destruct (storage !! key) as [v|] eqn:E; [|done]. destruct Hin.
      apply list_elem_of_In, filter_In. split; [|done].
      apply list_elem_of_In, list_elem_of_fmap. exists (key, v).
      split; [done|]. by apply elem_of_map_to_list.
    - case_bool_decide as Hin; [|done].
      apply list_elem_of_In, filter_In in Hin as [_ Hin]. congruence. }
  split_and!.
  - intros u m u' m'. unfold loadModelParams, deleteModelParams. cbn [negb orb].
    destruct (Js.isEmpty u' || Js.isEmpty m'); [by case_bool_decide|].
    case_bool_decide as Hkey.
    + by rewrite Hkey, lookup_delete_eq.
    + by rewrite lookup_delete_ne.
  - exact Hclear.
  - intros u m. unfold loadModelParams. cbn [negb orb].
    destruct (Js.isEmpty u || Js.isEmpty m); [done|].
    by rewrite Hclear, getStorageKey_prefix.
  - unfold getAllSavedModels at 1. cbn [negb].
    destruct (List.filter _ _) as [|key keys] eqn:E; [done|].
    assert (In key (List.filter (Js.startsWith "model_params:")
                      (map fst (map_to_list (clearAllModelParams true storage))))) as Hin
      by (rewrite E; by left).
    apply filter_In in Hin as [Hin Hp].
    apply list_elem_of_In, list_elem_of_fmap in Hin as ([k v] & -> & Hkv).
    apply elem_of_map_to_list in Hkv. cbn [fst] in Hp. by rewrite Hclear, Hp in Hkv.
Qed.

End SavedParams.

Lemma saved_params_read_back_witness :
  loadModelParams sampleParse true
    (saveModelParams sampleStringify true ∅ "HTTP://Localhost:8080/" "llama-3" sampleSettings)
    " http://localhost:8080" "llama-3 "
  = Some (VObj [("temperature", VNum 1)]).
Proof.
  apply (saved_params_read_back sampleStringify sampleParse ∅
           "HTTP://Localhost:8080/" "llama-3" " http://localhost:8080" "llama-3 "
           sampleSettings); reflexivity.
Defined.

(** ** A server that repeats itself *)


Section SameAnswer.

Variable fetch : nat -> gmap string JsVal -> FetchResult.
Variable resp : HttpResponse.
Hypothesis fetch_answers : forall attempt body, fetch attempt body = Fulfilled resp.



End SameAnswer.



(** ** Tool calls in pieces *)

Lemma mergeToolCallDeltas_nil (existing : list ToolCall) (indexOffset : nat) :
  mergeToolCallDeltas existing [] indexOffset = existing.
Proof. unfold mergeToolCallDeltas. by rewrite map_copyCall. Qed.

Ltac same_calls :=
  st_cbn; repeat (case_match; st_cbn); unfold sameCalls; st_cbn; done.

Lemma sameCalls_notifyFirstValidChunk (parsed : ApiResponse) (st : StreamState) :
  sameCalls st (notifyFirstValidChunk false parsed st).
Proof. unfold notifyFirstValidChunk. destruct st. same_calls. Qed.

Lemma sameCalls_reportModel (parsed : ApiResponse) (st : StreamState) :
  sameCalls st (reportModel parsed st).
Proof. unfold reportModel. destruct st. same_calls. Qed.

Lemma sameCalls_noteTimings (now : Z) (parsed : ApiResponse) (st : StreamState) :
  sameCalls st (noteTimings now parsed st).
Proof. unfold noteTimings. destruct st. same_calls. Qed.

Lemma processToolCallDelta_calls (deltas : list ToolCallDelta) (st : StreamState) :
  let st' := processToolCallDelta false (Some deltas) st in
  aggregatedToolCalls st'
  = mergeToolCallDeltas (aggregatedToolCalls st) deltas (toolCallIndexOffset st)
  /\ toolCallIndexOffset st' = toolCallIndexOffset st
  /\ aggregatedContent st' = aggregatedContent st
  /\ fullReasoningContent st' = fullReasoningContent st.
Proof.
  destruct st as [ac fr calls lt sf me fv off ho tb it ft ud ch evs].
  unfold processToolCallDelta. destruct deltas as [|d ds].
  - by rewrite mergeToolCallDeltas_nil.
  - st_cbn. by destruct (length (mergeToolCallDeltas calls (d :: ds) off) =? 0)%nat.
Qed.

(** What a chunk of tool-call deltas does to the tool calls. *)
Lemma processChunk_toolsChunk (now : Z) (deltas : list ToolCallDelta) (st : StreamState) :
  let st' := processChunk false now (toolsChunk deltas) st in
  aggregatedToolCalls st'
  = mergeToolCallDeltas (aggregatedToolCalls st) deltas (toolCallIndexOffset st)
  /\ toolCallIndexOffset st' = toolCallIndexOffset st
  /\ aggregatedContent st' = aggregatedContent st
  /\ fullReasoningContent st' = fullReasoningContent st.
Proof.
  rewrite processChunk_steps.
  set (parsed := toolsChunk deltas).
  set (st1 := notifyFirstValidChunk false parsed st).
  set (st2 := reportModel parsed st1).
  set (st3 := noteTimings now parsed st2).
  destruct (sameCalls_notifyFirstValidChunk parsed st) as (Ha1 & Ho1 & Hc1 & Hr1).
  destruct (sameCalls_reportModel parsed st1) as (Ha2 & Ho2 & Hc2 & Hr2).
  destruct (sameCalls_noteTimings now parsed st2) as (Ha3 & Ho3 & Hc3 & Hr3).
  fold st1 in Ha1, Ho1, Hc1, Hr1. fold st2 in Ha2, Ho2, Hc2, Hr2.
  fold st3 in Ha3, Ho3, Hc3, Hr3.
  change (contentStep false parsed ?s) with s. change (reasoningStep false parsed ?s) with s.
  unfold toolStep. change (chunkToolCalls parsed) with (Some deltas).
  destruct (processToolCallDelta_calls deltas st3) as (Ha & Ho & Hc & Hr).
  rewrite Ha, Ho, Hc, Hr. split_and!; congruence.
Qed.

(** X30.  Tool-call fragments may be cut across chunks anywhere: two
    consecutive chunks of tool-call deltas leave the tool calls (and the
    index offset, the content and the reasoning) as one chunk with the
    deltas of both does. *)
Theorem tool_call_fragments_across_chunks (now : Z) (deltas1 deltas2 : list ToolCallDelta)
    (st : StreamState) :
  let two := processChunk false now (toolsChunk deltas2)
               (processChunk false now (toolsChunk deltas1) st) in
  let one := processChunk false now (toolsChunk (deltas1 ++ deltas2)) st in
  aggregatedToolCalls two = aggregatedToolCalls one
  /\ toolCallIndexOffset two = toolCallIndexOffset one
  /\ aggregatedContent two = aggregatedContent one
  /\ fullReasoningContent two = fullReasoningContent one.
Proof.
  intros two one. subst two one.
  destruct (processChunk_toolsChunk now deltas1 st) as (Ha1 & Ho1 & Hc1 & Hr1).
  destruct (processChunk_toolsChunk now deltas2
              (processChunk false now (toolsChunk deltas1) st)) as (Ha2 & Ho2 & Hc2 & Hr2).
  destruct (processChunk_toolsChunk now (deltas1 ++ deltas2) st) as (Ha & Ho & Hc & Hr).
  rewrite Ha2, Ho2, Hc2, Hr2, Ha1, Ho1, Hc1, Hr1, Ha, Ho, Hc, Hr.
  by rewrite mergeToolCallDeltas_app.
Qed.

(** ** Timings derived from usage counts *)
















Section UsageInStream.

Variable JSON_parse : string -> option ApiResponse.


Lemma lineChunk_doneLine : lineChunk JSON_parse doneLine = None.
Proof. reflexivity. Qed.



End UsageInStream.





(** The two splits on the samples: the content of [usageBody] arrives 100 ms
    after the start and leaves 150 ms for the generation; without content,
    the 250 ms are split into 25 ms and 225 ms. *)
Example usage_stream_anchored :
  handleStreamResponse parseUsageSample
    (Some (usageBody ++ [mkRead ReadDone false 1250])%list) false 1000 1250
  = (Resolved (),
     [OnFirstValidChunk; OnChunk "Hi";
      OnComplete "Hi" None (Some (mkTimings (Some 10) (Some 100) (Some 90) (Some 150) None))
        None]).
Proof. reflexivity. Qed.

Example usage_stream_split :
  handleStreamResponse parseUsageSample
    (Some (usageOnlyBody ++ [mkRead ReadDone false 1250])%list) false 1000 1250
  = (Resolved (),
     [OnFirstValidChunk;
      OnComplete "" None (Some (mkTimings (Some 10) (Some 25) (Some 90) (Some 225) None))
        None]).
Proof. reflexivity. Qed.

Example usage_response_split :
  handleNonStreamResponse (fun _ => Some (WithChoices usageResponse)) "{}" (Some 1000) 1250
  = (Resolved "hi",
     [OnComplete "hi" None (Some (mkTimings (Some 10) (Some 25) (Some 90) (Some 225) None))
        None]).
Proof. reflexivity. Qed.

(** Usage counts in a chunk without a finish reason are not captured: the
    stream completes without timings. *)
Example usage_without_finish_reason :
  handleStreamResponse
    (fun _ => Some (mkApiResponse (Some "chat.completion.chunk") None []
                      None None (Some (mkUsage (Some 10) (Some 90) (Some 100)))))
    (Some (usageOnlyBody ++ [mkRead ReadDone false 1250])%list) false 1000 1250
  = (Resolved (), [OnFirstValidChunk; OnComplete "" None None None]).
Proof. reflexivity. Qed.
